(** * Tango DJ Agent: playlist planning, hydration and mutation

    A shallow embedding of the planning pipeline and of the playlist
    mutators of [src/server.js], together with the properties the
    specification states about them.

    Conventions
    - A JavaScript value that came out of [JSON.parse] is a [json]; a
      property that may be [undefined] is an [option json] ([None] is
      [undefined]).
    - A computation that may raise is an [outcome]: [Ret v] or [Throw e],
      where [e] is the exception with its class and its message.
    - [Math.random] is a stream of raw draws [rng : nat -> nat] read through
      a cursor; [Math.floor(Math.random() * n)] is the next draw modulo [n].
    - [new Date()] is an argument of the handlers. *)

From Stdlib Require Import QArith.
From stdpp Require Import base gmap sets list strings pretty.

Open Scope string_scope.
Open Scope list_scope.
Open Scope nat_scope.

(** ** JavaScript values *)

(** A JavaScript number: a finite rational or one of the three special
    values.  Only integer conversion is needed below. *)
Inductive number :=
| Finite (q : Q)
| NaN
| PosInfinity
| NegInfinity.

#[local] Unset Elimination Schemes.
Inductive json :=
| JNull
| JBool (b : bool)
| JNum (n : number)
| JStr (s : string)
| JArr (items : list json)
| JObj (fields : list (string * json)).
#[local] Set Elimination Schemes.

(** A JavaScript exception: its class and its [message]. *)
Inductive exn :=
| TypeError (message : string)
| RangeError (message : string)
| SyntaxError (message : string)
| OtherError (message : string).

(** [error.message] *)
Definition messageOf (e : exn) : string :=
  match e with
  | TypeError m | RangeError m | SyntaxError m | OtherError m => m
  end.

(** The result of a computation that may raise an exception, with the
    usual sequencing. *)
Inductive outcome (A : Type) :=
| Ret (a : A)
| Throw (e : exn).
Arguments Ret {A} a.
Arguments Throw {A} e.

Definition bind {A B} (m : outcome A) (f : A -> outcome B) : outcome B :=
  match m with
  | Ret a => f a
  | Throw e => Throw e
  end.

Notation "'let!' x ':=' m 'in' k" := (bind m (fun x => k))
  (at level 10, x name, m at level 200, k at level 200).

(** A loop over [l] that threads [b] and stops at the first exception. *)
Fixpoint foldM {A B} (f : B -> A -> outcome B) (b : B) (l : list A) : outcome B :=
  match l with
  | [] => Ret b
  | a :: l => let! b' := f b a in foldM f b' l
  end.

Fixpoint mapM {A B} (f : A -> outcome B) (l : list A) : outcome (list B) :=
  match l with
  | [] => Ret []
  | a :: l' => let! b := f a in let! bs := mapM f l' in Ret (b :: bs)
  end.

(** [mapMi f k l] is [l.map((x, idx) => f(idx, x))] with the positions
    counted from [k], stopping at the first exception. *)
Fixpoint mapMi {A B} (f : nat -> A -> outcome B) (k : nat) (l : list A)
  : outcome (list B) :=
  match l with
  | [] => Ret []
  | a :: l' => let! b := f k a in let! bs := mapMi f (S k) l' in Ret (b :: bs)
  end.

Definition number_is_zero (n : number) : bool :=
  match n with
  | Finite q => (Qnum q =? 0)%Z
  | _ => false
  end.

(** ToBoolean: [undefined], [null], [false], [0], [NaN] and the empty string
    are falsy, everything else (every array and object) is truthy. *)
Definition truthy (v : option json) : bool :=
  match v with
  | None => false
  | Some JNull => false
  | Some (JBool b) => b
  | Some (JNum NaN) => false
  | Some (JNum n) => negb (number_is_zero n)
  | Some (JStr s) => negb (String.eqb s "")
  | Some (JArr _) => true
  | Some (JObj _) => true
  end.

Fixpoint assoc (k : string) (fields : list (string * json)) : option json :=
  match fields with
  | [] => None
  | (k', v) :: rest => if String.eqb k k' then Some v else assoc k rest
  end.

(** Property read [v.k] on a value other than [null]/[undefined]: an object
    yields the field, any other value has no such own property. *)
Definition prop (k : string) (v : json) : option json :=
  match v with
  | JObj fields => assoc k fields
  | _ => None
  end.

(** Property read [v.k] where [v] itself may be [null] or [undefined], in
    which case the read raises a TypeError. *)
Definition get (k : string) (v : option json) : outcome (option json) :=
  match v with
  | None =>
      Throw (TypeError ("Cannot read properties of undefined (reading '" +:+ k +:+ "')"))
  | Some JNull =>
      Throw (TypeError ("Cannot read properties of null (reading '" +:+ k +:+ "')"))
  | Some v => Ret (prop k v)
  end.

(** [typeof v === 'number'] *)
Definition is_number (v : option json) : bool :=
  match v with
  | Some (JNum _) => true
  | _ => false
  end.

(** [Array.isArray(v)] *)
Definition isArray (v : option json) : bool :=
  match v with
  | Some (JArr _) => true
  | _ => false
  end.

(** [v === s] for a string literal [s] *)
Definition strict_eq_string (v : option json) (s : string) : bool :=
  match v with
  | Some (JStr s') => String.eqb s' s
  | _ => false
  end.

(** ToIntegerOrInfinity *)
Inductive extint :=
| EInt (z : Z)
| EPosInf
| ENegInf.

Definition toIntegerOrInfinity (n : number) : extint :=
  match n with
  | Finite q => EInt (Z.quot (Qnum q) (Zpos (Qden q)))
  | NaN => EInt 0
  | PosInfinity => EPosInf
  | NegInfinity => ENegInf
  end.

(** The start position [Array.prototype.splice] and [slice] derive from
    their first argument on an array of length [len]. *)
Definition relativeStart (len : nat) (n : number) : nat :=
  match toIntegerOrInfinity n with
  | ENegInf => 0
  | EPosInf => len
  | EInt z =>
      if (z <? 0)%Z then Z.to_nat (Z.max (Z.of_nat len + z) 0)
      else Z.to_nat (Z.min z (Z.of_nat len))
  end.

(** [const [x] = arr.splice(start, 1)]: the removed element ([None] when
    nothing was removed, so [x] is [undefined]) and the array afterwards. *)
Definition splice_remove1 {A} (start : number) (arr : list A) : option A * list A :=
  let s := relativeStart (length arr) start in
  (arr !! s, take s arr ++ drop (S s) arr).

(** [arr.splice(start, 0, x)] *)
Definition splice_insert {A} (start : number) (x : A) (arr : list A) : list A :=
  let s := relativeStart (length arr) start in
  take s arr ++ x :: drop s arr.

(** ** The track catalog *)

Record Track := {
  id : string;
  title : string;
  artist : string;
  album : string;
  style : string;
  sourcePath : string
}.

Record Library := { libTracks : list Track }.

Global Instance Track_eq_dec : EqDecision Track.
Proof. solve_decision. Defined.

(** [new Map(library.tracks.map((track) => [track.id, track]))]: a later
    entry with the same key replaces the earlier one. *)
Definition trackMapOf (ts : list Track) : gmap string Track :=
  foldl (fun m t => <[id t := t]> m) ∅ ts.

(** [library.tracks.find((t) => t.id === v)] *)
Definition findTrack (v : option json) (ts : list Track) : option Track :=
  List.find (fun t => strict_eq_string v (id t)) ts.

(** ** Grouping by style *)

Record Grouped := {
  g_tango : list Track;
  g_vals : list Track;
  g_milonga : list Track;
  g_cortina : list Track
}.

(** The names every object inherits from [Object.prototype]; each of them
    reads as a function or, for [__proto__], as an object. *)
Definition inheritedNames : list string :=
  ["constructor"; "__defineGetter__"; "__defineSetter__"; "hasOwnProperty";
   "__lookupGetter__"; "__lookupSetter__"; "isPrototypeOf"; "propertyIsEnumerable";
   "toString"; "valueOf"; "__proto__"; "toLocaleString"].

(** What [grouped[s]] reads on the literal
    [{ tango: [], vals: [], milonga: [], cortina: [] }]: the array of one
    of the four keys, which is truthy also when empty; a member inherited
    from [Object.prototype], which is truthy and has no [push]; or
    [undefined]. *)
Inductive member :=
| Bucket (items : list Track)
| Inherited
| Undefined.

Definition bucket (s : string) (g : Grouped) : member :=
  if String.eqb s "tango" then Bucket (g_tango g)
  else if String.eqb s "vals" then Bucket (g_vals g)
  else if String.eqb s "milonga" then Bucket (g_milonga g)
  else if String.eqb s "cortina" then Bucket (g_cortina g)
  else if bool_decide (s ∈ inheritedNames) then Inherited
  else Undefined.

Definition push (s : string) (t : Track) (g : Grouped) : Grouped :=
  if String.eqb s "tango" then
    {| g_tango := g_tango g ++ [t]; g_vals := g_vals g;
       g_milonga := g_milonga g; g_cortina := g_cortina g |}
  else if String.eqb s "vals" then
    {| g_tango := g_tango g; g_vals := g_vals g ++ [t];
       g_milonga := g_milonga g; g_cortina := g_cortina g |}
  else if String.eqb s "milonga" then
    {| g_tango := g_tango g; g_vals := g_vals g;
       g_milonga := g_milonga g ++ [t]; g_cortina := g_cortina g |}
  else if String.eqb s "cortina" then
    {| g_tango := g_tango g; g_vals := g_vals g;
       g_milonga := g_milonga g; g_cortina := g_cortina g ++ [t] |}
  else g.

(** The body of the loop: [grouped[track.style] ? track.style : 'tango']
    and then [grouped[style].push(track)], which raises when [grouped[style]]
    is an inherited member. *)
Definition groupTrack (grouped : Grouped) (track : Track) : outcome Grouped :=
  match bucket (style track) grouped with
  | Bucket _ => Ret (push (style track) track grouped)
  | Inherited => Throw (TypeError "grouped[style].push is not a function")
  | Undefined => Ret (push "tango" track grouped)
  end.

Definition groupByStyle (library : Library) : outcome Grouped :=
  foldM groupTrack
    {| g_tango := []; g_vals := []; g_milonga := []; g_cortina := [] |}
    (libTracks library).

(** ** Shuffling *)

(** [[copy[i], copy[j]] = [copy[j], copy[i]]] *)
Definition swap {A} (i j : nat) (copy : list A) : list A :=
  match copy !! i, copy !! j with
  | Some x, Some y => <[j := x]> (<[i := y]> copy)
  | _, _ => copy
  end.

(** The loop [for (let i = copy.length - 1; i > 0; i -= 1)] with [n = i]. *)
Fixpoint shuffle_loop {A} (rng : nat -> nat) (n : nat) (cur : nat) (copy : list A)
  : list A * nat :=
  match n with
  | 0 => (copy, cur)
  | S n' =>
      let j := rng cur mod (n + 1) in
      shuffle_loop rng n' (S cur) (swap n j copy)
  end.

Definition shuffle {A} (rng : nat -> nat) (cur : nat) (arr : list A) : list A * nat :=
  shuffle_loop rng (length arr - 1) cur arr.

(** ** Playlists *)

Record Tanda := {
  tandaId : string;
  type : option json;
  reasoning : json;
  tracks : list (option Track)
}.

(** The pair [{ tandas, cortinas }] both planners return. *)
Record Plan := {
  plan_tandas : list Tanda;
  plan_cortinas : list (option Track)
}.

(** ** The fallback planner *)

Definition pattern : list (string * nat) :=
  [("tango", 4); ("tango", 4); ("vals", 3); ("tango", 4); ("tango", 4); ("milonga", 3)].

Definition fallbackReasoning : string :=
  "Fallback selection due to unavailable OpenAI plan.".

(** [grouped[slot.type]] for a key of the literal. *)
Definition poolOf (s : string) (g : Grouped) : list Track :=
  match bucket s g with
  | Bucket items => items
  | _ => []
  end.

(** [chosen.forEach((track) => used.add(track.id))] *)
Definition addAll (used : gset string) (chosen : list Track) : gset string :=
  foldl (fun u track => u ∪ {[id track]}) used chosen.

(** The callback of [pattern.map((slot, idx) => ...)] run over the slots in
    order; [used] and the cursor of the random stream are threaded. *)
Fixpoint fallbackTandas (rng : nat -> nat) (grouped : Grouped)
    (used : gset string) (cur : nat) (idx : nat) (slots : list (string * nat))
  : list Tanda * gset string * nat :=
  match slots with
  | [] => ([], used, cur)
  | slot :: rest =>
      let '(shuffled, cur1) := shuffle rng cur (poolOf slot.1 grouped) in
      let pool := filter (fun track => id track ∉ used) shuffled in
      let chosen := take slot.2 pool in
      let used1 := addAll used chosen in
      let tanda := {| tandaId := "tanda-" +:+ pretty (idx + 1);
                      type := Some (JStr slot.1);
                      reasoning := JStr fallbackReasoning;
                      tracks := Some <$> chosen |} in
      let '(ts, used2, cur2) := fallbackTandas rng grouped used1 cur1 (S idx) rest in
      (tanda :: ts, used2, cur2)
  end.

(** The planner after [groupByStyle] has returned. *)
Definition planFrom (rng : nat -> nat) (grouped : Grouped) : Plan :=
  let '(tandas, used, cur) := fallbackTandas rng grouped ∅ 0 0 pattern in
  let source := if length (g_cortina grouped) =? 0
                then g_tango grouped else g_cortina grouped in
  let cortinaPool := filter (fun track => id track ∉ used) (shuffle rng cur source).1 in
  {| plan_tandas := tandas;
     plan_cortinas := imap (fun idx _ => cortinaPool !! idx) tandas |}.

Definition fallbackPlaylistPlan (rng : nat -> nat) (library : Library) : outcome Plan :=
  let! grouped := groupByStyle library in
  Ret (planFrom rng grouped).

(** ** Plan validation *)

Definition patternTypes : list string :=
  ["tango"; "tango"; "vals"; "tango"; "tango"; "milonga"].

(** [arr.every((t, i) => f(t, i))], stopping at the first [false]. *)
Fixpoint every {A} (f : A -> nat -> outcome bool) (i : nat) (arr : list A)
  : outcome bool :=
  match arr with
  | [] => Ret true
  | t :: rest => let! b := f t i in if b then every f (S i) rest else Ret false
  end.

(** [t.type === pattern[i]] *)
Definition type_matches (ty : option json) (i : nat) : bool :=
  match patternTypes !! i with
  | Some s => strict_eq_string ty s
  | None => match ty with None => true | Some _ => false end
  end.

Definition validatePlanShape (plan : option json) : outcome bool :=
  match plan with
  | Some p =>
      if negb (truthy plan) then Ret false
      else match prop "tandas" p with
           | Some (JArr tandas) =>
               if negb (length tandas =? 6) then Ret false
               else every
                      (fun t i =>
                         let! ty := get "type" (Some t) in
                         Ret (type_matches ty i && isArray (prop "trackIds" t)))
                      0 tandas
           | _ => Ret false
           end
  | None => Ret false
  end.

(** ** The plan proposer *)

(** What the external planning capability does when asked: no client can
    be built, the call rejects, or it answers with a text on which
    [JSON.parse] either raises or yields a value. *)
Inductive Proposer :=
| NoApiKey
| CallRejects (message : string)
| Answers (parsed : outcome json).

(** The fields of the debug record that the handler reads or writes; the
    model name, response id and timings are carried by the answer and do
    not influence control flow. *)
Record AgentDebug := {
  enabled : bool;
  reason : option string;
  validation : option string;
  tandaTypes : list (option json)
}.

Definition noKeyReason : string :=
  "No OpenAI API key found (checked request override, OPENAI_API_KEY, OPENAI_KEY, OPENAI_TOKEN)".

(** [(e || []).map(f)] where the expression [e] has the value [v], read
    from parsed JSON: a falsy value gives way to the empty array, and of
    the truthy values only an array has a [map] method. *)
Definition orEmptyMap {B} (e : string) (v : option json) (f : json -> outcome B)
  : outcome (list B) :=
  if truthy v then
    match v with
    | Some (JArr items) => mapM f items
    | _ => Throw (TypeError ("(" +:+ e +:+ " || []).map is not a function"))
    end
  else Ret [].

Definition createPlanWithAgent (agent : Proposer) : outcome (option json * AgentDebug) :=
  match agent with
  | NoApiKey =>
      Ret (None, {| enabled := false; reason := Some noKeyReason;
                    validation := None; tandaTypes := [] |})
  | CallRejects message => Throw (OtherError message)
  | Answers parsed =>
      let! plan := parsed in
      let! tandas := get "tandas" (Some plan) in
      let! types := orEmptyMap "plan.tandas" tandas (fun t => get "type" (Some t)) in
      Ret (Some plan, {| enabled := true; reason := None;
                         validation := None; tandaTypes := types |})
  end.

(** ** The plan hydrator *)

Definition patternSizes : list nat := [4; 4; 3; 4; 4; 3].

Definition genericReasoning : string := "AI selected this tanda for flow.".

(** [trackMap.get(v)]: the keys are strings, so only a string can hit. *)
Definition resolve (trackMap : gmap string Track) (v : json) : option Track :=
  match v with
  | JStr s => trackMap !! s
  | _ => None
  end.

(** [l.slice(0, n)] where [n] may be [undefined]. *)
Definition slice0 {A} (n : option nat) (l : list A) : list A :=
  match n with
  | Some n => take n l
  | None => l
  end.

(** [(e || []).map((id) => trackMap.get(id)).filter(Boolean)] *)
Definition resolveAll (trackMap : gmap string Track) (e : string) (v : option json)
  : outcome (list Track) :=
  let! found := orEmptyMap e v (fun x => Ret (resolve trackMap x)) in
  Ret (omap (fun o : option Track => o) found).

Definition hydrateTanda (trackMap : gmap string Track) (idx : nat) (tanda : json)
  : outcome Tanda :=
  let! ty := get "type" (Some tanda) in
  let r := prop "reasoning" tanda in
  let! found := resolveAll trackMap "tanda.trackIds" (prop "trackIds" tanda) in
  Ret {| tandaId := "tanda-" +:+ pretty (idx + 1);
         type := ty;
         reasoning := (if truthy r then default JNull r else JStr genericReasoning);
         tracks := Some <$> slice0 (patternSizes !! idx) found |}.

Definition hydrateTandas (plan : json) (library : Library) : outcome (list Tanda) :=
  let! tandas := get "tandas" (Some plan) in
  match tandas with
  | Some (JArr items) => mapMi (hydrateTanda (trackMapOf (libTracks library))) 0 items
  | _ => Throw (TypeError "plan.tandas.map is not a function")
  end.

Definition hydrateCortinas (plan : json) (library : Library)
  : outcome (list (option Track)) :=
  let! found := resolveAll (trackMapOf (libTracks library)) "plan.cortinaTrackIds"
                  (prop "cortinaTrackIds" plan) in
  Ret (Some <$> take 6 found).

Definition hydratePlan (plan : json) (library : Library) : outcome Plan :=
  let! tandas := hydrateTandas plan library in
  let! cortinas := hydrateCortinas plan library in
  Ret {| plan_tandas := tandas; plan_cortinas := cortinas |}.

(** ** Playlist documents *)

(** A playlist object whose [tandas] array holds values of type [T]: a
    document on disk holds tandas, an object under construction may hold
    [undefined] entries.  A cortina slot is a track or [null]. *)
Record PlaylistOf (T : Type) := {
  playlistId : string;
  name : json;
  prompt : json;
  generationSource : string;
  agentDebug : AgentDebug;
  createdAt : string;
  updatedAt : option string;
  tandas : list T;
  cortinas : list (option Track)
}.
Arguments playlistId {T} _.
Arguments name {T} _.
Arguments prompt {T} _.
Arguments generationSource {T} _.
Arguments agentDebug {T} _.
Arguments createdAt {T} _.
Arguments updatedAt {T} _.
Arguments tandas {T} _.
Arguments cortinas {T} _.

Abbreviation Playlist := (PlaylistOf Tanda).

(** [{ ...playlist, tandas, cortinas }] *)
Definition withArrays {T U} (playlist : PlaylistOf T) (ts : list U)
    (cs : list (option Track)) : PlaylistOf U :=
  {| playlistId := playlistId playlist; name := name playlist;
     prompt := prompt playlist; generationSource := generationSource playlist;
     agentDebug := agentDebug playlist; createdAt := createdAt playlist;
     updatedAt := updatedAt playlist; tandas := ts; cortinas := cs |}.

(** [(t) => ({ ...t, tracks: t.tracks || [] })]: an array is truthy, so the
    tracks of a tanda are kept; an [undefined] entry cannot be read. *)
Definition normalizeTanda (t : option Tanda) : outcome Tanda :=
  match t with
  | Some t => Ret {| tandaId := tandaId t; type := type t;
                     reasoning := reasoning t; tracks := tracks t |}
  | None => Throw (TypeError "Cannot read properties of undefined (reading 'tracks')")
  end.

(** [(c) => c || null] *)
Definition normalizeCortina (c : option Track) : option Track :=
  match c with
  | Some track => Some track
  | None => None
  end.

Definition normalizePlaylist (now : string) (playlist : PlaylistOf (option Tanda))
  : outcome Playlist :=
  let! ts := mapM normalizeTanda (tandas playlist) in
  Ret {| playlistId := playlistId playlist; name := name playlist;
         prompt := prompt playlist; generationSource := generationSource playlist;
         agentDebug := agentDebug playlist; createdAt := createdAt playlist;
         updatedAt := Some now;
         tandas := ts;
         cortinas := normalizeCortina <$> cortinas playlist |}.

(** ** The document store and the handlers *)

Record Disk := {
  libraryFile : option Library;
  playlistFiles : gmap string Playlist
}.

(** [readJson(LIBRARY_FILE, { tracks: [] })] *)
Definition readLibrary (disk : Disk) : Library :=
  default {| libTracks := [] |} (libraryFile disk).

Definition readPlaylist (pid : string) (disk : Disk) : option Playlist :=
  playlistFiles disk !! pid.

(** [writeJson(path.join(PLAYLISTS_DIR, `${playlist.id}.json`), playlist)] *)
Definition writePlaylist (playlist : Playlist) (disk : Disk) : Disk :=
  {| libraryFile := libraryFile disk;
     playlistFiles := <[playlistId playlist := playlist]> (playlistFiles disk) |}.

Inductive Body :=
| ErrorBody (error : string)
| PlaylistBody (playlist : Playlist).

Record Response := { status : nat; body : Body }.

(** The readings of the clock a handler takes: [Date.now()],
    [toLocaleDateString()], the [toISOString()] of the [createdAt] field
    of a new playlist, and the later one of [normalizePlaylist]. *)
Record Clock := {
  nowMs : N;
  localeDate : string;
  createdIso : string;
  nowIso : string
}.

(** [req.body?.k] and the destructuring of [req.body || {}] *)
Definition field (k : string) (reqBody : option json) : option json :=
  match reqBody with
  | Some v => prop k v
  | None => None
  end.

(** [v || d] *)
Definition orElse (v : option json) (d : json) : json :=
  if truthy v then default d v else d.

(** *** POST /api/playlists *)

(** [!plan || !validatePlanShape(plan)], keeping the plan when it is used. *)
Definition acceptedPlan (plan : option json) : outcome (option json) :=
  match plan with
  | Some p =>
      if negb (truthy plan) then Ret None
      else let! ok := validatePlanShape plan in
           Ret (if ok then Some p else None)
  | None => Ret None
  end.

Definition postPlaylists (clock : Clock) (rng : nat -> nat) (agent : Proposer)
    (reqBody : option json) (disk : Disk) : outcome (Response * Disk) :=
  let library := readLibrary disk in
  if length (libTracks library) =? 0 then
    Ret ({| status := 400; body := ErrorBody "Library is empty. Scan library first." |}, disk)
  else
    let pid := "playlist-" +:+ pretty (nowMs clock) in
    let nm := orElse (field "name" reqBody) (JStr ("Milonga " +:+ localeDate clock)) in
    let '(plan, debug) :=
      match createPlanWithAgent agent with
      | Ret result => result
      | Throw error =>
          (None, {| enabled := false;
                    reason := Some ("OpenAI generation failed: " +:+ messageOf error);
                    validation := None; tandaTypes := [] |})
      end in
    let! accepted := acceptedPlan plan in
    let usedFallback := match accepted with Some _ => false | None => true end in
    let debug' :=
      if usedFallback && enabled debug then
        {| enabled := enabled debug; reason := reason debug;
           validation := Some "Agent response shape was invalid; fallback plan used";
           tandaTypes := tandaTypes debug |}
      else debug in
    let! hydrated :=
      match accepted with
      | None => fallbackPlaylistPlan rng library
      | Some p => hydratePlan p library
      end in
    let! playlist :=
      normalizePlaylist (nowIso clock)
        {| playlistId := pid; name := nm;
           prompt := orElse (field "prompt" reqBody) (JStr "");
           generationSource := (if usedFallback then "fallback" else "agent");
           agentDebug := debug';
           createdAt := createdIso clock;
           updatedAt := None;
           tandas := Some <$> plan_tandas hydrated;
           cortinas := plan_cortinas hydrated |} in
    Ret ({| status := 201; body := PlaylistBody playlist |}, writePlaylist playlist disk).

(** *** POST /api/playlists/:id/move-tanda *)

Definition number_of (v : option json) : option number :=
  match v with
  | Some (JNum n) => Some n
  | _ => None
  end.

Definition postMoveTanda (clock : Clock) (pid : string) (reqBody : option json)
    (disk : Disk) : outcome (Response * Disk) :=
  let fromIndex := field "fromIndex" reqBody in
  let toIndex := field "toIndex" reqBody in
  match readPlaylist pid disk with
  | None => Ret ({| status := 404; body := ErrorBody "Playlist not found" |}, disk)
  | Some playlist =>
      (* [[fromIndex, toIndex].some((n) => typeof n !== 'number')] *)
      match number_of fromIndex, number_of toIndex with
      | Some fromN, Some toN =>
          let '(tanda, tandas1) := splice_remove1 fromN (Some <$> tandas playlist) in
          let '(cortina, cortinas1) := splice_remove1 fromN (cortinas playlist) in
          let tandas2 := splice_insert toN (mjoin tanda) tandas1 in
          let cortinas2 := splice_insert toN (mjoin cortina) cortinas1 in
          let! updated := normalizePlaylist (nowIso clock) (withArrays playlist tandas2 cortinas2) in
          Ret ({| status := 200; body := PlaylistBody updated |}, writePlaylist updated disk)
      | _, _ =>
          Ret ({| status := 400; body := ErrorBody "fromIndex and toIndex must be numbers" |}, disk)
      end
  end.

(** *** POST /api/playlists/:id/replace-track *)

(** The property key a value denotes in [arr[v]]: an array index (the
    canonical decimal form of an integer below [2^32 - 1]), the name
    [length], or some other name. *)
Inductive key :=
| KIndex (n : N)
| KLength
| KOther.

Definition maxIndex : N := 4294967294.

Definition digit (c : Ascii.ascii) : option N :=
  let n := Ascii.N_of_ascii c in
  if (48 <=? n)%N && (n <=? 57)%N then Some (n - 48)%N else None.

Fixpoint parseDecimal (acc : N) (s : string) : option N :=
  match s with
  | EmptyString => Some acc
  | String c rest =>
      match digit c with
      | Some d => parseDecimal (10 * acc + d)%N rest
      | None => None
      end
  end.

Definition keyOfString (s : string) : key :=
  if String.eqb s "length" then KLength
  else match s, parseDecimal 0 s with
       | String _ _, Some n =>
           if String.eqb (pretty n) s && (n <=? maxIndex)%N then KIndex n else KOther
       | _, _ => KOther
       end.

Definition keyOfNumber (n : number) : key :=
  match n with
  | Finite q =>
      let z := Qnum q in
      let d := Zpos (Qden q) in
      if (0 <=? z)%Z && (z mod d =? 0)%Z && (z / d <=? Z.of_N maxIndex)%Z
      then KIndex (Z.to_N (z / d)) else KOther
  | _ => KOther
  end.

(** ToPropertyKey on a parsed JSON value: a one-element array prints as
    its element. *)
Fixpoint keyOf (v : json) : key :=
  match v with
  | JNum n => keyOfNumber n
  | JStr s => keyOfString s
  | JArr [e] => keyOf e
  | _ => KOther
  end.

Definition propertyKey (v : option json) : key :=
  match v with
  | Some v => keyOf v
  | None => KOther
  end.

(** [arr[n] = x]: in range the element is overwritten, beyond the end the
    array grows and the positions in between are holes, which
    [JSON.stringify] writes as [null]. *)
Definition assignAt {A} (n : nat) (x : option A) (arr : list (option A))
  : list (option A) :=
  if n <? length arr then <[n := x]> arr
  else arr ++ replicate (n - length arr) None ++ [x].

(** [tracks[trackIndex] = replacement] *)
Definition assignTrack (trackIndex : option json) (replacement : Track)
    (trks : list (option Track)) : outcome (list (option Track)) :=
  match propertyKey trackIndex with
  | KIndex n => Ret (assignAt (N.to_nat n) (Some replacement) trks)
  | KLength => Throw (RangeError "Invalid array length")
  | KOther => Ret trks
  end.

(** [playlist.tandas[tandaIndex].tracks[trackIndex] = replacement] *)
Definition assignInTanda (tandaIndex trackIndex : option json) (replacement : Track)
    (ts : list Tanda) : outcome (list Tanda) :=
  match propertyKey tandaIndex with
  | KIndex n =>
      match ts !! N.to_nat n with
      | Some t =>
          let! trks := assignTrack trackIndex replacement (tracks t) in
          Ret (<[N.to_nat n := {| tandaId := tandaId t; type := type t;
                                  reasoning := reasoning t; tracks := trks |}]> ts)
      | None => Throw (TypeError "Cannot read properties of undefined (reading 'tracks')")
      end
  | _ => Throw (TypeError "Cannot set properties of undefined")
  end.

(** The track slots of a document's tandas, filled or not. *)
Definition slots (ts : list Tanda) : nat :=
  sum_list_with (fun t => length (tracks t)) ts.

(** [JSON.stringify(updated, null, 2)] in [writeJson], for the document
    [updated] made from the stored document [stored].  The engine bounds
    the length of a string, and every track slot takes room in the text,
    also an empty one, which is written as [null].  A document with no
    more slots than the stored one is written as the stored one was; a
    document with more slots is written when its text is within the
    engine's bound, which [fits] tells, and raises a RangeError when it
    is not. *)
Definition stringifyGrown (fits : Playlist -> bool) (stored updated : Playlist)
  : outcome unit :=
  if (slots (tandas stored) <? slots (tandas updated)) && negb (fits updated)
  then Throw (RangeError "Invalid string length")
  else Ret tt.

Definition postReplaceTrack (clock : Clock) (fits : Playlist -> bool) (pid : string)
    (reqBody : option json) (disk : Disk) : outcome (Response * Disk) :=
  let tandaIndex := field "tandaIndex" reqBody in
  let trackIndex := field "trackIndex" reqBody in
  let replacementTrackId := field "replacementTrackId" reqBody in
  let library := readLibrary disk in
  match readPlaylist pid disk with
  | None => Ret ({| status := 404; body := ErrorBody "Playlist not found" |}, disk)
  | Some playlist =>
      match findTrack replacementTrackId (libTracks library) with
      | None =>
          Ret ({| status := 400; body := ErrorBody "replacementTrackId not found in library" |},
               disk)
      | Some replacement =>
          let! ts := assignInTanda tandaIndex trackIndex replacement (tandas playlist) in
          let! updated :=
            normalizePlaylist (nowIso clock)
              (withArrays playlist (Some <$> ts) (cortinas playlist)) in
          let! _ := stringifyGrown fits playlist updated in
          Ret ({| status := 200; body := PlaylistBody updated |}, writePlaylist updated disk)
      end
  end.

(** * Specification vocabulary *)

(** The shape the validator accepts, read off the plan as data: six tanda
    entries, entry [i] carrying the pattern's style at [i] in its [type]
    field and an array in its [trackIds] field. *)
Definition entryShaped (i : nat) (t : json) : Prop :=
  exists s ids,
    patternTypes !! i = Some s /\
    prop "type" t = Some (JStr s) /\
    prop "trackIds" t = Some (JArr ids).

Definition wellShaped (plan : option json) : Prop :=
  exists p entries,
    plan = Some p /\
    prop "tandas" p = Some (JArr entries) /\
    length entries = 6 /\
    forall i t, entries !! i = Some t -> entryShaped i t.

(** A plan built from six entries with the pattern's styles and empty
    [trackIds] arrays, and nothing else. *)
Definition emptyEntry (s : string) : json :=
  JObj [("type", JStr s); ("trackIds", JArr [])].

Definition emptyPlan : json :=
  JObj [("tandas", JArr (emptyEntry <$> patternTypes))].

(** The reasoning [hydratePlan] stores for a raw entry. *)
Definition reasoningOf (entry : json) : json :=
  let r := prop "reasoning" entry in
  if truthy r then default JNull r else JStr genericReasoning.

(** The entries of the raw plan's [tandas] array. *)
Definition rawEntries (plan : json) : list json :=
  match prop "tandas" plan with
  | Some (JArr entries) => entries
  | _ => []
  end.

(** The document a handler writes: the playlist with the given arrays and a
    fresh [updatedAt]. *)
Definition stamped {T} (now : string) (playlist : PlaylistOf T) (ts : list Tanda)
    (cs : list (option Track)) : Playlist :=
  {| playlistId := playlistId playlist; name := name playlist;
     prompt := prompt playlist; generationSource := generationSource playlist;
     agentDebug := agentDebug playlist; createdAt := createdAt playlist;
     updatedAt := Some now; tandas := ts; cortinas := cs |}.

(** The candidate the proposer delivered, when it passed validation. *)
Definition validCandidate (agent : Proposer) : option json :=
  match createPlanWithAgent agent with
  | Ret (Some p, _) =>
      match validatePlanShape (Some p) with
      | Ret true => Some p
      | _ => None
      end
  | _ => None
  end.

(** The tracks of a tanda and of a whole plan (tandas, then cortinas);
    empty slots carry no track. *)
Definition tracksOf (t : Tanda) : list Track :=
  omap (fun o : option Track => o) (tracks t).

Definition playedTracks (p : Plan) : list Track :=
  (plan_tandas p ≫= tracksOf) ++ omap (fun o : option Track => o) (plan_cortinas p).

(** Every bucket of [g] lists tracks of [l] in the order of [l]. *)
Definition within (g : Grouped) (l : list Track) : Prop :=
  g_tango g `sublist_of` l /\ g_vals g `sublist_of` l /\
  g_milonga g `sublist_of` l /\ g_cortina g `sublist_of` l.

(** What the fallback planner puts into a slot of the pattern. *)
Definition fillsSlot (t : Tanda) (slot : string * nat) : Prop :=
  type t = Some (JStr slot.1) /\
  length (tracks t) <= slot.2 /\
  reasoning t = JStr fallbackReasoning /\
  None ∉ tracks t.

(** The document [POST /api/playlists] builds from a plan, and the answer
    it sends after writing it. *)
Definition createdPlaylist (clock : Clock) (reqBody : option json) (source : string)
    (debug : AgentDebug) (h : Plan) : Playlist :=
  {| playlistId := "playlist-" +:+ pretty (nowMs clock);
     name := orElse (field "name" reqBody) (JStr ("Milonga " +:+ localeDate clock));
     prompt := orElse (field "prompt" reqBody) (JStr "");
     generationSource := source;
     agentDebug := debug;
     createdAt := createdIso clock;
     updatedAt := Some (nowIso clock);
     tandas := plan_tandas h;
     cortinas := plan_cortinas h |}.

Definition created (playlist : Playlist) (disk : Disk) : outcome (Response * Disk) :=
  Ret ({| status := 201; body := PlaylistBody playlist |}, writePlaylist playlist disk).

(** The number [n] is the integer [i]. *)
Definition numberIs (n : number) (i : nat) : Prop :=
  match n with
  | Finite q => Qnum q = (Z.of_nat i * Zpos (Qden q))%Z
  | _ => False
  end.

(** The list [l] after its element [x] at position [i] was taken out and
    put back at position [j]. *)
Definition moved {A} (i j : nat) (x : A) (l : list A) : list A :=
  take j (delete i l) ++ x :: drop j (delete i l).

Definition invalidIndices : Response :=
  {| status := 400; body := ErrorBody "fromIndex and toIndex must be numbers" |}.

Definition unknownReplacement : Response :=
  {| status := 400; body := ErrorBody "replacementTrackId not found in library" |}.

(** * Sample data *)

Definition sampleTrack (i s : string) : Track :=
  {| id := i; title := "Title of " +:+ i; artist := "Orquesta"; album := "Album";
     style := s; sourcePath := "/music/" +:+ i |}.

Definition sampleLibrary : Library :=
  {| libTracks :=
       [sampleTrack "t1.mp3" "tango"; sampleTrack "t2.mp3" "tango";
        sampleTrack "t3.mp3" "tango"; sampleTrack "t4.mp3" "tango";
        sampleTrack "t5.mp3" "tango"; sampleTrack "v1.mp3" "vals";
        sampleTrack "v2.mp3" "vals"; sampleTrack "m1.mp3" "milonga";
        sampleTrack "c1.mp3" "cortina"; sampleTrack "c2.mp3" "cortina";
        sampleTrack "c3.mp3" "cortina"; sampleTrack "c4.mp3" "cortina";
        sampleTrack "c5.mp3" "cortina"; sampleTrack "c6.mp3" "cortina"] |}.

Definition sampleEntry (s : string) (ids : list string) : json :=
  JObj [("type", JStr s); ("reasoning", JStr "Golden age."); ("trackIds", JArr (JStr <$> ids))].

Definition sampleTandas : json :=
  JArr [sampleEntry "tango" ["t1.mp3"; "t2.mp3"; "gone.mp3"; "t3.mp3"; "t4.mp3"; "t5.mp3"];
        sampleEntry "tango" [];
        sampleEntry "vals" ["v1.mp3"; "v2.mp3"];
        sampleEntry "tango" [];
        sampleEntry "tango" [];
        sampleEntry "milonga" ["m1.mp3"]].

(** Six cortina references, the first of which names no track. *)
Definition planFirstCortinaUnknown : json :=
  JObj [("tandas", sampleTandas);
        ("cortinaTrackIds",
         JArr (JStr <$> ["gone.mp3"; "c2.mp3"; "c3.mp3"; "c4.mp3"; "c5.mp3"; "c6.mp3"]))].

(** The cortinas given as a text instead of an array. *)
Definition planCortinasAsText : json :=
  JObj [("tandas", sampleTandas); ("cortinaTrackIds", JStr "none")].

(** No [cortinaTrackIds] field. *)
Definition planWithoutCortinas : json :=
  JObj [("tandas", sampleTandas)].

Definition sampleClock : Clock :=
  {| nowMs := 1714593600000; localeDate := "5/1/2024";
     createdIso := "2024-05-01T20:00:02.118Z"; nowIso := "2024-05-01T20:00:02.119Z" |}.

Definition sampleDisk : Disk :=
  {| libraryFile := Some sampleLibrary; playlistFiles := ∅ |}.

Definition sampleTanda (n s : string) (ids : list string) : Tanda :=
  {| tandaId := "tanda-" +:+ n; type := Some (JStr s);
     reasoning := JStr fallbackReasoning;
     tracks := (fun i => Some (sampleTrack i s)) <$> ids |}.

Definition samplePlaylist : Playlist :=
  {| playlistId := "playlist-1714500000000";
     name := JStr "Friday milonga";
     prompt := JStr "";
     generationSource := "fallback";
     agentDebug := {| enabled := false; reason := Some noKeyReason;
                      validation := None; tandaTypes := [] |};
     createdAt := "2024-04-30T18:00:00.000Z";
     updatedAt := Some "2024-04-30T18:00:00.000Z";
     tandas := [sampleTanda "1" "tango" ["t1.mp3"; "t2.mp3"; "t3.mp3"; "t4.mp3"];
                sampleTanda "2" "tango" ["t5.mp3"];
                sampleTanda "3" "vals" ["v1.mp3"; "v2.mp3"];
                sampleTanda "4" "tango" [];
                sampleTanda "5" "tango" [];
                sampleTanda "6" "milonga" ["m1.mp3"]];
     cortinas := [Some (sampleTrack "c1.mp3" "cortina"); Some (sampleTrack "c2.mp3" "cortina");
                  Some (sampleTrack "c3.mp3" "cortina"); None; None;
                  Some (sampleTrack "c6.mp3" "cortina")] |}.

Definition storedDisk : Disk :=
  {| libraryFile := Some sampleLibrary;
     playlistFiles := {[ "playlist-1714500000000" := samplePlaylist ]} |}.

Definition moveRequest (fromIndex toIndex : json) : option json :=
  Some (JObj [("fromIndex", fromIndex); ("toIndex", toIndex)]).

Definition replaceRequest (tandaIndex trackIndex replacementTrackId : json) : option json :=
  Some (JObj [("tandaIndex", tandaIndex); ("trackIndex", trackIndex);
              ("replacementTrackId", replacementTrackId)]).

Definition int (z : Z) : json := JNum (Finite (inject_Z z)).

(** The sample playlist after its last slot was put first, and after its
    third slot was put first, written at the sample clock's time. *)
Definition sampleLastFirst : Playlist :=
  stamped (nowIso sampleClock) samplePlaylist
    (drop 5 (tandas samplePlaylist) ++ take 5 (tandas samplePlaylist))
    (drop 5 (cortinas samplePlaylist) ++ take 5 (cortinas samplePlaylist)).

Definition sampleThirdFirst : Playlist :=
  stamped (nowIso sampleClock) samplePlaylist
    (take 1 (drop 2 (tandas samplePlaylist)) ++ take 2 (tandas samplePlaylist)
       ++ drop 3 (tandas samplePlaylist))
    (take 1 (drop 2 (cortinas samplePlaylist)) ++ take 2 (cortinas samplePlaylist)
       ++ drop 3 (cortinas samplePlaylist)).

(** The sample playlist after the first track of its first tanda was
    replaced by [t5.mp3], which its second tanda holds as well. *)
Definition sampleReplaced : Playlist :=
  stamped (nowIso sampleClock) samplePlaylist
    (sampleTanda "1" "tango" ["t5.mp3"; "t2.mp3"; "t3.mp3"; "t4.mp3"]
       :: drop 1 (tandas samplePlaylist))
    (cortinas samplePlaylist).

(** The sample playlist after [t5.mp3] was written at position 6 of its
    first tanda, which had four tracks. *)
Definition sampleLengthened : Playlist :=
  stamped (nowIso sampleClock) samplePlaylist
    ({| tandaId := "tanda-1"; type := Some (JStr "tango");
        reasoning := JStr fallbackReasoning;
        tracks := [Some (sampleTrack "t1.mp3" "tango"); Some (sampleTrack "t2.mp3" "tango");
                   Some (sampleTrack "t3.mp3" "tango"); Some (sampleTrack "t4.mp3" "tango");
                   None; None; Some (sampleTrack "t5.mp3" "tango")] |}
       :: drop 1 (tandas samplePlaylist))
    (cortinas samplePlaylist).

(** An engine that can write every document, and one that cannot write a
    tanda of more than a thousand slots. *)
Definition roomy (p : Playlist) : bool := true.

Definition tight (p : Playlist) : bool :=
  forallb (fun t => length (tracks t) <=? 1000) (tandas p).

(** * More of the server *)

(** ** GET /api/audio/:trackId *)

Inductive AudioResponse :=
| SendFile (path : string)
| AudioError (code : nat) (message : string).

Definition getAudio (trackId : string) (disk : Disk) : AudioResponse :=
  let library := readLibrary disk in
  match findTrack (Some (JStr trackId)) (libTracks library) with
  | None => AudioError 404 "Track not found"
  | Some track => SendFile (sourcePath track)
  end.

(** ** Start-up configuration and style heuristics

    Strings are sequences of UTF-8 bytes.  The characters the code below
    looks for ([=], [#], the quotes, the line ends, the letters of the
    style names) are ASCII, so searching for them byte by byte finds what
    the code finds. *)

Definition char (n : N) : Ascii.ascii := Ascii.ascii_of_N n.

Definition bytes (l : list N) : string := foldr (fun n s => String (char n) s) "" l.

Definition LF : Ascii.ascii := char 10.
Definition CR : Ascii.ascii := char 13.
Definition SP : Ascii.ascii := char 32.
Definition HASH : Ascii.ascii := char 35.
Definition EQUALS : Ascii.ascii := char 61.
Definition DQUOTE : Ascii.ascii := char 34.
Definition SQUOTE : Ascii.ascii := char 39.

(** The code points [String.prototype.trim] removes: WhiteSpace and
    LineTerminator of ECMA-262 (TAB, LF, VT, FF, CR, SP, U+00A0, U+1680,
    U+2000 to U+200A, U+2028, U+2029, U+202F, U+205F, U+3000, U+FEFF). *)
Definition whiteSpace : list string :=
  bytes <$> [[9]; [10]; [11]; [12]; [13]; [32]; [194; 160]; [225; 154; 128];
             [226; 128; 128]; [226; 128; 129]; [226; 128; 130]; [226; 128; 131];
             [226; 128; 132]; [226; 128; 133]; [226; 128; 134]; [226; 128; 135];
             [226; 128; 136]; [226; 128; 137]; [226; 128; 138]; [226; 128; 168];
             [226; 128; 169]; [226; 128; 175]; [226; 129; 159]; [227; 128; 128];
             [239; 187; 191]]%N.

Fixpoint dropPrefix (p s : string) : option string :=
  match p, s with
  | EmptyString, _ => Some s
  | String a p', String b s' => if Ascii.eqb a b then dropPrefix p' s' else None
  | String _ _, EmptyString => None
  end.

(** [s] without the one code point of [ws] it starts with, if any. *)
Definition dropOne (ws : list string) (s : string) : option string :=
  head (omap (fun w => dropPrefix w s) ws).

Fixpoint dropAll (ws : list string) (fuel : nat) (s : string) : string :=
  match fuel with
  | 0 => s
  | S fuel =>
      match dropOne ws s with
      | Some rest => dropAll ws fuel rest
      | None => s
      end
  end.

Definition trimStart (s : string) : string := dropAll whiteSpace (String.length s) s.

Definition trimEnd (s : string) : string :=
  String.rev (dropAll (String.rev <$> whiteSpace) (String.length s) (String.rev s)).

(** [s.trim()] *)
Definition trim (s : string) : string := trimEnd (trimStart s).

(** [contents.split(/\r?\n/)]: the pieces between the line feeds, each
    without the carriage return that stood directly before its line feed.
    [cur] is the piece being read, last character first. *)
Fixpoint splitLines_from (cur : string) (s : string) : list string :=
  match s with
  | EmptyString => [String.rev cur]
  | String c rest =>
      if Ascii.eqb c LF then
        String.rev (match cur with
                    | String c' cur' => if Ascii.eqb c' CR then cur' else cur
                    | EmptyString => cur
                    end)
          :: splitLines_from "" rest
      else splitLines_from (String c cur) rest
  end.

Definition splitLines (contents : string) : list string := splitLines_from "" contents.

(** [s.indexOf(c)], [None] for [-1]. *)
Fixpoint indexOf (c : Ascii.ascii) (s : string) : option nat :=
  match s with
  | EmptyString => None
  | String c' rest => if Ascii.eqb c c' then Some 0 else S <$> indexOf c rest
  end.

Definition startsWith (c : Ascii.ascii) (s : string) : bool :=
  match s with
  | String c' _ => Ascii.eqb c c'
  | EmptyString => false
  end.

Definition endsWith (c : Ascii.ascii) (s : string) : bool := startsWith c (String.rev s).

(** [s.slice(from)] and [s.slice(0, to)] *)
Definition sliceFrom (from : nat) (s : string) : string :=
  String.substring from (String.length s - from) s.

Definition sliceTo (to : nat) (s : string) : string := String.substring 0 to s.

(** *** The process environment *)

(** [process.env]: the variables that are set, by name (names are told
    apart by case, as on POSIX systems). *)
Abbreviation Env := (gmap string string).

(** [process.env[key] !== undefined]: a variable that is set reads as its
    value, and [process.env] inherits from [Object.prototype], so that an
    inherited name reads as a value too, set or not. *)
Definition defined (env : Env) (key : string) : bool :=
  bool_decide (is_Some (env !! key)) || bool_decide (key ∈ inheritedNames).

(** [value.slice(1, -1)] when the value starts and ends with the same
    kind of quote. *)
Definition unquote (value : string) : string :=
  if (startsWith DQUOTE value && endsWith DQUOTE value)
     || (startsWith SQUOTE value && endsWith SQUOTE value)
  then String.substring 1 (String.length value - 2) value
  else value.

(** The body of the loop of [loadLocalEnv] on one line of the file. *)
Definition loadLine (env : Env) (rawLine : string) : Env :=
  let line := trim rawLine in
  if String.eqb line "" || startsWith HASH line then env
  else
    match indexOf EQUALS line with
    | None => env
    | Some 0 => env
    | Some separatorIndex =>
        let key := trim (sliceTo separatorIndex line) in
        if String.eqb key "" || defined env key then env
        else
          let value := trim (sliceFrom (separatorIndex + 1) line) in
          <[key := unquote value]> env
    end.

(** [loadLocalEnv()]: [file] is the content of [.env], [None] when the
    file is missing or unreadable. *)
Definition loadLocalEnv (file : option string) (env : Env) : Env :=
  match file with
  | Some contents => foldl loadLine env (splitLines contents)
  | None => env
  end.

(** [a || ...] on a variable of the environment *)
Definition nonEmpty (v : option string) : bool :=
  match v with
  | Some s => negb (String.eqb s "")
  | None => false
  end.

Definition resolveOpenAIApiKey (overrideApiKey : option json) (env : Env) : string :=
  let override :=
    match overrideApiKey with
    | None => trim ""
    | Some (JStr s) => trim s
    | Some _ => ""
    end in
  if negb (String.eqb override "") then override
  else
    let apiKey := env !! "OPENAI_API_KEY" in
    if nonEmpty apiKey then default "" apiKey
    else if nonEmpty (env !! "OPENAI_KEY") then default "" (env !! "OPENAI_KEY")
    else if nonEmpty (env !! "OPENAI_TOKEN") then default "" (env !! "OPENAI_TOKEN")
    else "".

(** [buildOpenAIClient]: the key the client is built with, [None] for
    [null]. *)
Definition buildOpenAIClient (overrideApiKey : option json) (env : Env) : option string :=
  let apiKey := resolveOpenAIApiKey overrideApiKey env in
  if negb (String.eqb apiKey "") then Some apiKey else None.

(** *** Guessing the style of a scanned file *)

(** [s.toLowerCase()] on the letters A to Z.  The searches below look for
    ASCII words; the lower-case forms of other letters contain none of
    their letters next to one another, so they do not change what is
    found. *)
Definition lowerChar (c : Ascii.ascii) : Ascii.ascii :=
  let n := Ascii.N_of_ascii c in
  if (65 <=? n)%N && (n <=? 90)%N then Ascii.ascii_of_N (n + 32) else c.

Fixpoint toLowerCase (s : string) : string :=
  match s with
  | EmptyString => EmptyString
  | String c rest => String (lowerChar c) (toLowerCase rest)
  end.

(** [text.includes(word)] *)
Fixpoint includes (text word : string) : bool :=
  String.prefix word text ||
  match text with
  | EmptyString => false
  | String _ rest => includes rest word
  end.

Definition guessStyleFromMetadata (genre title album : string) : string :=
  let text := toLowerCase (genre +:+ " " +:+ title +:+ " " +:+ album) in
  if includes text "vals" || includes text "waltz" then "vals"
  else if includes text "milonga" then "milonga"
  else if includes text "cortina" then "cortina"
  else "tango".

(** * Further vocabulary *)

(** The key of [groupByStyle]'s literal under which a track of style [s]
    is filed when [s] is not an inherited name: [s] itself when it is one
    of the four keys, [tango] for any other text. *)
Definition bucketName (s : string) : string :=
  if String.eqb s "tango" then "tango"
  else if String.eqb s "vals" then "vals"
  else if String.eqb s "milonga" then "milonga"
  else if String.eqb s "cortina" then "cortina"
  else "tango".

(** The catalog tracks filed under the key [k]. *)
Definition filedUnder (k : string) (ts : list Track) : list Track :=
  filter (fun t => bucketName (style t) = k) ts.

(** No track of the catalog has a style named like a member of
    [Object.prototype]. *)
Definition groupable (library : Library) : Prop :=
  Forall (fun t => style t ∉ inheritedNames) (libTracks library).

(** The four buckets of a catalog. *)
Definition grouping (library : Library) : Grouped :=
  {| g_tango := filedUnder "tango" (libTracks library);
     g_vals := filedUnder "vals" (libTracks library);
     g_milonga := filedUnder "milonga" (libTracks library);
     g_cortina := filedUnder "cortina" (libTracks library) |}.

(** The tracks of the catalog that carry the id [k], in catalog order. *)
Definition withId (k : string) (ts : list Track) : list Track :=
  filter (fun t => id t = k) ts.

(** The names of [names] that are ids of the catalog. *)
Definition known (ts : list Track) (names : list string) : list string :=
  filter (fun k => k ∈ id <$> ts) names.

Definition invalidShapeNote : string :=
  "Agent response shape was invalid; fallback plan used".

(** The debug record [POST /api/playlists] stores: the proposer's record,
    with the validation note when that record is enabled and the fallback
    plan was used, or the failure record of the [catch] block. *)
Definition finalDebug (agent : Proposer) : AgentDebug :=
  match createPlanWithAgent agent with
  | Ret (_, debug) =>
      if (match validCandidate agent with None => true | Some _ => false end)
         && enabled debug
      then {| enabled := enabled debug; reason := reason debug;
              validation := Some invalidShapeNote; tandaTypes := tandaTypes debug |}
      else debug
  | Throw error =>
      {| enabled := false;
         reason := Some ("OpenAI generation failed: " +:+ messageOf error);
         validation := None; tandaTypes := [] |}
  end.

Definition emptyLibrary : Response :=
  {| status := 400; body := ErrorBody "Library is empty. Scan library first." |}.

(** The number of tracks the slots of style [s] ask for, and the number of
    tracks of a pool whose id is in [used]. *)
Definition demand (s : string) (slots : list (string * nat)) : nat :=
  sum_list (snd <$> filter (fun slot : string * nat => slot.1 = s) slots).

Definition taken (used : gset string) (pool : list Track) : nat :=
  length (filter (fun t => id t ∈ used) pool).

(** A catalog with 16 tango, 3 vals, 3 milonga and 6 cortina tracks. *)
Definition numbered (prefix s : string) (count : nat) : list Track :=
  (fun n => sampleTrack (prefix +:+ pretty n +:+ ".mp3") s) <$> seq 1 count.

Definition fullLibrary : Library :=
  {| libTracks := numbered "tango-" "tango" 16 ++ numbered "vals-" "vals" 3
                    ++ numbered "milonga-" "milonga" 3 ++ numbered "cortina-" "cortina" 6 |}.

(** A catalog with distinct ids in which one track carries the style
    [constructor]. *)
Definition oddLibrary : Library :=
  {| libTracks := libTracks sampleLibrary ++ [sampleTrack "x1.mp3" "constructor"] |}.

(** The tanda [t] with the tracks [trks], and the stored document after
    [tracks[b] = replacement] in its tanda [t] at position [a]. *)
Definition withTracks (t : Tanda) (trks : list (option Track)) : Tanda :=
  {| tandaId := tandaId t; type := type t; reasoning := reasoning t; tracks := trks |}.

Definition replacedAt (now : string) (playlist : Playlist) (a b : nat)
    (replacement : Track) (t : Tanda) : Playlist :=
  stamped now playlist
    (<[a := withTracks t (assignAt b (Some replacement) (tracks t))]> (tandas playlist))
    (cortinas playlist).

(** The tracks a stored playlist holds, in its tandas and its cortina
    slots. *)
Definition playlistTracks (p : Playlist) : list Track :=
  (tandas p ≫= tracksOf) ++ omap (fun o : option Track => o) (cortinas p).

(** Every track held by a stored playlist is a track of the library on
    disk. *)
Definition stored_from_catalog (disk : Disk) : Prop :=
  forall pid p t,
    readPlaylist pid disk = Some p -> t ∈ playlistTracks p ->
    t ∈ libTracks (readLibrary disk).

(** ** Configuration and styles *)

(** The variable a line of [.env] names and the value it gives it. *)
Definition binding (rawLine : string) : option (string * string) :=
  let line := trim rawLine in
  if String.eqb line "" || startsWith HASH line then None
  else
    match indexOf EQUALS line with
    | None => None
    | Some 0 => None
    | Some i =>
        let key := trim (sliceTo i line) in
        if String.eqb key "" then None
        else Some (key, unquote (trim (sliceFrom (i + 1) line)))
    end.

(** The value the first line of [lines] that names [k] gives it. *)
Definition firstBinding (k : string) (lines : list string) : option string :=
  snd <$> head (filter (fun kv : string * string => kv.1 = k) (omap binding lines)).

Definition keyNames : list string := ["OPENAI_API_KEY"; "OPENAI_KEY"; "OPENAI_TOKEN"].

(** The text of a request's key: a string is trimmed, anything else
    counts as no text. *)
Definition overrideText (overrideApiKey : option json) : string :=
  match overrideApiKey with
  | Some (JStr s) => trim s
  | _ => ""
  end.

(** The field, lower-cased, contains the word. *)
Definition mentions (field word : string) : bool := includes (toLowerCase field) word.

Definition sampleEnvFile : string :=
  "# keys" +:+ String LF "OPENAI_KEY = 'sk-file'" +:+ String CR (String LF "PORT=4000")
  +:+ String LF "OPENAI_KEY=sk-later" +:+ String LF "=nothing" +:+ String LF "toString=x".

(** * Properties *)

(** ** The exception monad and the array combinators *)

Lemma bind_Ret_inv {A B} (m : outcome A) (f : A -> outcome B) b :
  bind m f = Ret b -> exists a, m = Ret a /\ f a = Ret b.
Proof. destruct m as [a|e]; simpl; [eauto | discriminate]. Qed.

Lemma mapMi_Ret {A B} (f : nat -> A -> outcome B) k l r :
  mapMi f k l = Ret r ->
  length r = length l /\
  forall i a, l !! i = Some a -> exists b, r !! i = Some b /\ f (k + i) a = Ret b.
Proof.
  revert k r. induction l as [|a l IH]; intros k r; simpl.
  - intros [= <-]. split; [done | intros i a' Hi; by destruct i].
  - intros H. apply bind_Ret_inv in H as (b & Hb & H).
    apply bind_Ret_inv in H as (bs & Hbs & [= <-]).
    destruct (IH _ _ Hbs) as [Hlen Hall]. split; [simpl; lia|].
    intros [|i] a' Hi; simpl in *.
    + injection Hi as <-. exists b. by rewrite Nat.add_0_r.
    + destruct (Hall i a' Hi) as (b' & ? & ?). exists b'.
      by replace (k + S i) with (S k + i) by lia.
Qed.

Lemma mapMi_total {A B} (f : nat -> A -> outcome B) k l :
  (forall i a, l !! i = Some a -> exists b, f (k + i) a = Ret b) ->
  exists r, mapMi f k l = Ret r.
Proof.
  revert k. induction l as [|a l IH]; intros k Hall; simpl; [eauto|].
  destruct (Hall 0 a eq_refl) as [b Hb]. rewrite Nat.add_0_r in Hb. rewrite Hb. simpl.
  destruct (IH (S k)) as [bs Hbs].
  - intros i a' Hi. destruct (Hall (S i) a' Hi) as [b' Hb'].
    exists b'. by replace (S k + i) with (k + S i) by lia.
  - rewrite Hbs. simpl. eauto.
Qed.

Lemma mapM_Ret {A B} (f : A -> outcome B) l r :
  mapM f l = Ret r ->
  length r = length l /\
  forall i a, l !! i = Some a -> exists b, r !! i = Some b /\ f a = Ret b.
Proof.
  revert r. induction l as [|a l IH]; intros r; simpl.
  - intros [= <-]. split; [done | intros i a' Hi; by destruct i].
  - intros H. apply bind_Ret_inv in H as (b & Hb & H).
    apply bind_Ret_inv in H as (bs & Hbs & [= <-]).
    destruct (IH _ Hbs) as [Hlen Hall]. split; [simpl; lia|].
    intros [|i] a' Hi; simpl in *.
    + injection Hi as <-. eauto.
    + eauto.
Qed.

Lemma mapM_pure {A B} (g : A -> B) (l : list A) :
  mapM (fun a => Ret (g a)) l = Ret (g <$> l).
Proof. induction l as [|a l IH]; simpl; [done | by rewrite IH]. Qed.

Lemma every_true_iff {A} (f : A -> nat -> outcome bool) i l :
  every f i l = Ret true <->
  forall k t, l !! k = Some t -> f t (i + k) = Ret true.
Proof.
  revert i. induction l as [|t l IH]; intros i; simpl.
  - split; [intros _ k t Hk; by destruct k | done].
  - split.
    + intros H. apply bind_Ret_inv in H as (b & Hb & H).
      destruct b; [|discriminate].
      intros [|k] t' Hk; simpl in Hk.
      * injection Hk as <-. by rewrite Nat.add_0_r.
      * replace (i + S k) with (S i + k) by lia. by apply (proj1 (IH (S i)) H).
    + intros Hall. pose proof (Hall 0 t eq_refl) as H0.
      rewrite Nat.add_0_r in H0. rewrite H0. simpl.
      apply IH. intros k t' Hk.
      replace (S i + k) with (i + S k) by lia. by apply Hall.
Qed.

(** ** Plan validation *)

Lemma String_eqb_true (a b : string) : String.eqb a b = true <-> a = b.
Proof. apply String.eqb_eq. Qed.

Lemma entry_check_iff (t : json) (i : nat) :
  i < 6 ->
  (let! ty := get "type" (Some t) in
   Ret (type_matches ty i && isArray (prop "trackIds" t))) = Ret true
  <-> entryShaped i t.
Proof.
  intros Hi. unfold entryShaped, type_matches.
  destruct (patternTypes !! i) as [s|] eqn:Hs.
  2:{ apply lookup_ge_None in Hs. simpl in Hs. lia. }
  split.
  - intros H. apply bind_Ret_inv in H as (ty & Hty & [= H]).
    apply andb_true_iff in H as [H1 H2].
    destruct t; simpl in Hty; try discriminate; injection Hty as <-;
      simpl in H1; try discriminate.
    destruct (assoc "type" fields) as [[]|] eqn:E1; simpl in H1; try discriminate.
    apply String_eqb_true in H1 as ->.
    simpl in H2. destruct (assoc "trackIds" fields) as [[]|] eqn:E2; try discriminate.
    exists s, items. simpl. by rewrite E1, E2.
  - intros (s' & ids & [= <-] & Hty & Hids).
    destruct t; simpl in Hty; try discriminate.
    simpl. simpl in Hids. rewrite Hty, Hids. simpl.
    by rewrite String.eqb_refl.
Qed.

Lemma prop_Some_obj k v x : prop k v = Some x -> exists fields, v = JObj fields.
Proof. destruct v; simpl; try discriminate. eauto. Qed.

Lemma validatePlanShape_wellShaped (plan : option json) :
  validatePlanShape plan = Ret true <-> wellShaped plan.
Proof.
  unfold validatePlanShape, wellShaped. split.
  - destruct plan as [p|]; [|discriminate].
    destruct (truthy (Some p)); simpl; [|discriminate].
    destruct (prop "tandas" p) as [[| | | |entries|]|] eqn:Ht; try discriminate.
    destruct (length entries =? 6) eqn:Hl; simpl; [|discriminate].
    apply Nat.eqb_eq in Hl. intros H.
    exists p, entries. repeat split; try done.
    intros i t Hit. apply entry_check_iff.
    + apply lookup_lt_Some in Hit. lia.
    + by apply (proj1 (every_true_iff _ 0 entries) H i t).
  - intros (p & entries & -> & Ht & Hl & Hall).
    destruct (prop_Some_obj _ _ _ Ht) as [fields ->].
    simpl. simpl in Ht. rewrite Ht. rewrite Hl. simpl.
    apply every_true_iff. intros k t Hk. simpl.
    apply entry_check_iff; [|by apply Hall].
    apply lookup_lt_Some in Hk. lia.
Qed.

(** C3.  [validatePlanShape] returns [true] exactly on the plans that have
    six tanda entries, each with the pattern's style at its index and an
    array in [trackIds] (the field is present and is a sequence; its
    elements are not looked at, and no catalog is consulted); in
    particular the plan whose six [trackIds] are all empty is accepted. *)
Theorem validatePlanShape_spec :
  (forall plan, validatePlanShape plan = Ret true <-> wellShaped plan) /\
  patternTypes = ["tango"; "tango"; "vals"; "tango"; "tango"; "milonga"] /\
  validatePlanShape (Some emptyPlan) = Ret true.
Proof.
  split; [apply validatePlanShape_wellShaped|]. split; reflexivity.
Qed.

(** ** Hydration *)

Lemma trackMapOf_acc (ts : list Track) (m : gmap string Track) k t :
  foldl (fun m t => <[id t := t]> m) m ts !! k = Some t ->
  (t ∈ ts /\ id t = k) \/ m !! k = Some t.
Proof.
  revert m. induction ts as [|x ts IH]; intros m; simpl; [by right|].
  intros H. destruct (IH _ H) as [[Hin Hid]|Hm].
  - left. split; [by apply elem_of_cons; right | done].
  - destruct (decide (id x = k)) as [<-|Hne].
    + rewrite lookup_insert_eq in Hm. injection Hm as <-.
      left. split; [apply elem_of_cons; by left | done].
    + rewrite lookup_insert_ne in Hm by done. by right.
Qed.

Lemma trackMapOf_lookup (ts : list Track) k t :
  trackMapOf ts !! k = Some t -> t ∈ ts /\ id t = k.
Proof.
  intros H. destruct (trackMapOf_acc _ _ _ _ H) as [?|Hm]; [done|].
  by rewrite lookup_empty in Hm.
Qed.

Lemma resolve_in_catalog (ts : list Track) v t :
  resolve (trackMapOf ts) v = Some t -> t ∈ ts.
Proof.
  destruct v; simpl; try discriminate. intros H. by apply trackMapOf_lookup in H as [? _].
Qed.

Lemma omap_id_fmap {A B} (g : A -> option B) (l : list A) :
  omap (fun o : option B => o) (g <$> l) = omap g l.
Proof. induction l as [|a l IH]; csimpl; [done|]. destruct (g a); by rewrite IH. Qed.

Lemma resolveAll_array tm e ids :
  resolveAll tm e (Some (JArr ids)) = Ret (omap (resolve tm) ids).
Proof.
  unfold resolveAll, orEmptyMap. simpl.
  rewrite (mapM_pure (resolve tm)). simpl. by rewrite omap_id_fmap.
Qed.

Lemma resolveAll_falsy tm e v : truthy v = false -> resolveAll tm e v = Ret [].
Proof. intros H. unfold resolveAll, orEmptyMap. by rewrite H. Qed.

Lemma hydrateTanda_shaped tm i entry :
  entryShaped i entry ->
  exists ids,
    prop "trackIds" entry = Some (JArr ids) /\
    hydrateTanda tm i entry =
      Ret {| tandaId := "tanda-" +:+ pretty (i + 1);
             type := prop "type" entry;
             reasoning := reasoningOf entry;
             tracks := Some <$> slice0 (patternSizes !! i) (omap (resolve tm) ids) |}.
Proof.
  intros (s & ids & Hs & Hty & Hids). exists ids. split; [done|].
  destruct (prop_Some_obj _ _ _ Hty) as [fields ->].
  unfold hydrateTanda. cbn [get bind]. rewrite Hids.
  by rewrite resolveAll_array.
Qed.

Lemma hydratePlan_Ret_tandas plan library h :
  hydratePlan plan library = Ret h -> hydrateTandas plan library = Ret (plan_tandas h).
Proof.
  unfold hydratePlan. intros H.
  apply bind_Ret_inv in H as (ts & Hts & H).
  apply bind_Ret_inv in H as (cs & _ & [= <-]). done.
Qed.

(** On a validated plan every entry hydrates: the tandas are the entries'
    images, position by position. *)
Lemma hydrateTandas_validated (plan : json) (library : Library) :
  validatePlanShape (Some plan) = Ret true ->
  exists ts,
    hydrateTandas plan library = Ret ts /\
    length ts = 6 /\
    forall i t, ts !! i = Some t ->
      exists entry ids,
        rawEntries plan !! i = Some entry /\
        prop "trackIds" entry = Some (JArr ids) /\
        reasoning t = reasoningOf entry /\
        tracks t = Some <$> slice0 (patternSizes !! i)
                              (omap (resolve (trackMapOf (libTracks library))) ids).
Proof.
  intros Hv.
  apply validatePlanShape_wellShaped in Hv as (p & entries & [= <-] & Ht & Hl & Hall).
  destruct (prop_Some_obj _ _ _ Ht) as [fields ->].
  set (tm := trackMapOf (libTracks library)).
  destruct (mapMi_total (hydrateTanda tm) 0 entries) as [ts Hts].
  { intros i a Hi. destruct (hydrateTanda_shaped tm i a (Hall i a Hi)) as (ids & _ & Heq).
    eexists. exact Heq. }
  exists ts. split.
  { unfold hydrateTandas. cbn [get bind]. rewrite Ht. exact Hts. }
  destruct (mapMi_Ret _ _ _ _ Hts) as [Hlen Hel]. split; [lia|].
  intros i t Hit.
  assert (Hi : i < length entries) by (rewrite <- Hlen; by eapply lookup_lt_Some).
  destruct (lookup_lt_is_Some_2 entries i Hi) as [entry Hentry].
  destruct (Hel i entry Hentry) as (t' & Ht' & Hrun).
  rewrite Hit in Ht'. injection Ht' as <-. simpl in Hrun.
  destruct (hydrateTanda_shaped tm i entry (Hall i entry Hentry)) as (ids & Hids & Heq).
  rewrite Heq in Hrun. injection Hrun as <-.
  exists entry, ids. unfold rawEntries. rewrite Ht. by repeat split.
Qed.

(** C4.  For a plan that passed validation, the tandas of [hydratePlan]
    are always produced, there are six of them, and in tanda [i] every
    track is a track of the catalog (an id that does not resolve is
    dropped), the number of tracks is at most [patternSizes] at [i], and
    the reasoning is the entry's reasoning text when that is a non-empty
    string and the generic sentence when it is absent or empty. *)
Theorem hydratePlan_tandas (plan : json) (library : Library) :
  validatePlanShape (Some plan) = Ret true ->
  patternSizes = [4; 4; 3; 4; 4; 3] /\
  exists ts,
    hydrateTandas plan library = Ret ts /\
    (forall h, hydratePlan plan library = Ret h -> plan_tandas h = ts) /\
    length ts = 6 /\
    forall i t, ts !! i = Some t ->
      (forall o, o ∈ tracks t ->
         exists track, o = Some track /\ track ∈ libTracks library) /\
      (exists n, patternSizes !! i = Some n /\ length (tracks t) <= n) /\
      exists entry,
        rawEntries plan !! i = Some entry /\
        (forall s, prop "reasoning" entry = Some (JStr s) -> s <> "" ->
           reasoning t = JStr s) /\
        (prop "reasoning" entry = None \/ prop "reasoning" entry = Some (JStr "") ->
           reasoning t = JStr genericReasoning).
Proof.
  intros Hv. split; [reflexivity|].
  destruct (hydrateTandas_validated plan library Hv) as (ts & Hts & Hlen & Hall).
  exists ts. split; [exact Hts|]. split.
  { intros h Hh. apply hydratePlan_Ret_tandas in Hh. rewrite Hts in Hh. by injection Hh. }
  split; [exact Hlen|].
  intros i t Hit.
  destruct (Hall i t Hit) as (entry & ids & Hentry & Hids & Hreason & Htracks).
  destruct (lookup_lt_is_Some_2 patternSizes i) as [n Hn].
  { apply lookup_lt_Some in Hit. simpl. lia. }
  rewrite Htracks, Hn. cbn [slice0]. repeat split.
  - intros o Ho. apply list_elem_of_fmap in Ho as (track & -> & Hin).
    exists track. split; [done|].
    apply subseteq_take in Hin. apply list_elem_of_omap in Hin as (v & _ & Hres).
    by eapply resolve_in_catalog.
  - exists n. split; [done|]. rewrite length_fmap, length_take. lia.
  - exists entry. split; [done|]. rewrite Hreason. unfold reasoningOf. split.
    + intros s Hs Hne. rewrite Hs. simpl.
      destruct (String.eqb s "") eqn:E; [|done].
      by apply String_eqb_true in E.
    + intros [-> | ->]; reflexivity.
Qed.

(** Witness of C4 on the sample plan. *)
Lemma hydratePlan_tandas_witness :
  validatePlanShape (Some planWithoutCortinas) = Ret true /\
  exists ts,
    hydrateTandas planWithoutCortinas sampleLibrary = Ret ts /\ length ts = 6.
Proof.
  split; [reflexivity|].
  destruct (hydratePlan_tandas planWithoutCortinas sampleLibrary eq_refl)
    as (_ & ts & Hts & _ & Hlen & _).
  exists ts. by split.
Defined.

Lemma hydrateCortinas_array plan library ids :
  prop "cortinaTrackIds" plan = Some (JArr ids) ->
  hydrateCortinas plan library =
    Ret (Some <$> take 6 (omap (resolve (trackMapOf (libTracks library))) ids)).
Proof.
  intros H. unfold hydrateCortinas. rewrite H, resolveAll_array. reflexivity.
Qed.

(** C5.  On a validated plan whose first cortina reference does not
    resolve, [hydratePlan] returns five cortinas instead of six: the
    unresolved reference is filtered out and every later cortina moves one
    position forward, so the cortina named at position 1 is found at
    position 0 and no position holds [null]. *)
Theorem hydratePlan_cortinas_shift :
  validatePlanShape (Some planFirstCortinaUnknown) = Ret true /\
  exists h,
    hydratePlan planFirstCortinaUnknown sampleLibrary = Ret h /\
    length (plan_tandas h) = 6 /\
    length (plan_cortinas h) = 5 /\
    plan_cortinas h !! 0 = Some (Some (sampleTrack "c2.mp3" "cortina")) /\
    plan_cortinas h !! 1 = Some (Some (sampleTrack "c3.mp3" "cortina")) /\
    None ∉ plan_cortinas h.
Proof.
  split; [reflexivity|].
  eexists. split; [vm_compute; reflexivity|].
  repeat split; try reflexivity.
  cbn [plan_cortinas]. intros H. repeat (apply elem_of_cons in H as [H|H]; [discriminate|]).
  by apply elem_of_nil in H.
Qed.

(** ** Normalisation *)

Lemma normalizeTanda_Some t : normalizeTanda (Some t) = Ret t.
Proof. by destruct t. Qed.

Lemma mapM_normalizeTanda (ts : list Tanda) : mapM normalizeTanda (Some <$> ts) = Ret ts.
Proof.
  induction ts as [|t ts IH]; [done|].
  destruct t. csimpl. by rewrite IH.
Qed.

Lemma normalizeCortina_id (cs : list (option Track)) : normalizeCortina <$> cs = cs.
Proof.
  induction cs as [|c cs IH]; csimpl; [done|]. rewrite IH. by destruct c.
Qed.

Lemma normalizePlaylist_present now (q : PlaylistOf (option Tanda)) ts :
  tandas q = Some <$> ts ->
  normalizePlaylist now q = Ret (stamped now q ts (cortinas q)).
Proof.
  intros H. unfold normalizePlaylist. rewrite H, mapM_normalizeTanda. cbn [bind].
  by rewrite normalizeCortina_id.
Qed.

Lemma normalizePlaylist_undefined now (q : PlaylistOf (option Tanda)) :
  None ∈ tandas q -> exists e, normalizePlaylist now q = Throw e.
Proof.
  unfold normalizePlaylist. induction (tandas q) as [|t ts IH]; intros H.
  - by apply elem_of_nil in H.
  - apply elem_of_cons in H as [<-|H]; simpl; [eauto|].
    destruct t as [t|]; simpl; [|eauto].
    destruct (IH H) as [e He].
    destruct (mapM normalizeTanda ts); simpl in *; [discriminate | eauto].
Qed.

(** ** Grouping and shuffling *)

Lemma bucketName_cases s :
  bucketName s = "tango" \/ bucketName s = "vals" \/
  bucketName s = "milonga" \/ bucketName s = "cortina".
Proof.
  unfold bucketName.
  repeat match goal with |- context [String.eqb ?a ?b] => destruct (String.eqb a b) end;
    tauto.
Qed.

Lemma own_key_not_inherited s :
  s = "tango" \/ s = "vals" \/ s = "milonga" \/ s = "cortina" -> s ∉ inheritedNames.
Proof.
  intros [-> | [-> | [-> | ->]]]; apply (bool_decide_unpack _); vm_compute; exact I.
Qed.

(** A style that is no inherited name is filed under its bucket name. *)
Lemma groupTrack_plain g t :
  style t ∉ inheritedNames -> groupTrack g t = Ret (push (bucketName (style t)) t g).
Proof.
  intros Hs. unfold groupTrack, bucket, bucketName.
  destruct (String.eqb_spec (style t) "tango") as [E|_]; [by rewrite E|].
  destruct (String.eqb_spec (style t) "vals") as [E|_]; [by rewrite E|].
  destruct (String.eqb_spec (style t) "milonga") as [E|_]; [by rewrite E|].
  destruct (String.eqb_spec (style t) "cortina") as [E|_]; [by rewrite E|].
  by rewrite (bool_decide_eq_false_2 _ Hs).
Qed.

(** A style that is an inherited name stops the loop. *)
Lemma groupTrack_inherited g t :
  style t ∈ inheritedNames ->
  groupTrack g t = Throw (TypeError "grouped[style].push is not a function").
Proof.
  intros Hs. unfold groupTrack, bucket.
  destruct (String.eqb_spec (style t) "tango") as [E|_];
    [exfalso; by apply (own_key_not_inherited (style t)); [left|]|].
  destruct (String.eqb_spec (style t) "vals") as [E|_];
    [exfalso; by apply (own_key_not_inherited (style t)); [right; left|]|].
  destruct (String.eqb_spec (style t) "milonga") as [E|_];
    [exfalso; by apply (own_key_not_inherited (style t)); [right; right; left|]|].
  destruct (String.eqb_spec (style t) "cortina") as [E|_];
    [exfalso; by apply (own_key_not_inherited (style t)); [right; right; right|]|].
  by rewrite (bool_decide_eq_true_2 _ Hs).
Qed.

Lemma foldM_groupTrack_plain (ts : list Track) g :
  Forall (fun t => style t ∉ inheritedNames) ts ->
  foldM groupTrack g ts = Ret (foldl (fun g t => push (bucketName (style t)) t g) g ts).
Proof.
  revert g. induction ts as [|t ts IH]; intros g Hall; cbn [foldM foldl]; [done|].
  apply Forall_cons in Hall as [Ht Hall].
  rewrite (groupTrack_plain g t Ht). cbn [bind]. by apply IH.
Qed.

Lemma foldM_groupTrack_inherited (ts : list Track) g :
  Exists (fun t => style t ∈ inheritedNames) ts ->
  foldM groupTrack g ts = Throw (TypeError "grouped[style].push is not a function").
Proof.
  revert g. induction ts as [|t ts IH]; intros g Hex; cbn [foldM].
  - by apply Exists_nil in Hex.
  - destruct (decide (style t ∈ inheritedNames)) as [Ht|Ht].
    + by rewrite (groupTrack_inherited g t Ht).
    + rewrite (groupTrack_plain g t Ht). cbn [bind]. apply IH.
      by apply Exists_cons in Hex as [?|?].
Qed.

Lemma push_filed t g :
  let g' := push (bucketName (style t)) t g in
  g_tango g' = g_tango g ++ filedUnder "tango" [t] /\
  g_vals g' = g_vals g ++ filedUnder "vals" [t] /\
  g_milonga g' = g_milonga g ++ filedUnder "milonga" [t] /\
  g_cortina g' = g_cortina g ++ filedUnder "cortina" [t].
Proof.
  unfold filedUnder. rewrite !filter_cons, !filter_nil.
  destruct (bucketName_cases (style t)) as [H|[H|[H|H]]]; rewrite H;
    repeat case_decide; try congruence; cbn [push String.eqb Ascii.eqb Bool.eqb
      g_tango g_vals g_milonga g_cortina]; rewrite ?app_nil_r; done.
Qed.

Lemma foldl_push_filed (ts : list Track) g :
  let r := foldl (fun g t => push (bucketName (style t)) t g) g ts in
  g_tango r = g_tango g ++ filedUnder "tango" ts /\
  g_vals r = g_vals g ++ filedUnder "vals" ts /\
  g_milonga r = g_milonga g ++ filedUnder "milonga" ts /\
  g_cortina r = g_cortina g ++ filedUnder "cortina" ts.
Proof.
  revert g. induction ts as [|t ts IH]; intros g; cbn [foldl].
  - unfold filedUnder. rewrite !filter_nil, !app_nil_r. done.
  - destruct (IH (push (bucketName (style t)) t g)) as (H1 & H2 & H3 & H4).
    destruct (push_filed t g) as (P1 & P2 & P3 & P4).
    cbv zeta in *. rewrite H1, H2, H3, H4, P1, P2, P3, P4.
    unfold filedUnder.
    rewrite <- !app_assoc, <- !filter_app. done.
Qed.

(** [groupByStyle] returns exactly on the catalogs without an inherited
    style name, and then it returns the four buckets. *)
Lemma groupByStyle_groupable library :
  groupable library -> groupByStyle library = Ret (grouping library).
Proof.
  intros Hg. unfold groupByStyle. rewrite (foldM_groupTrack_plain _ _ Hg). f_equal.
  pose proof (foldl_push_filed (libTracks library)
                {| g_tango := []; g_vals := []; g_milonga := []; g_cortina := [] |}) as H.
  cbv zeta in H. cbn [g_tango g_vals g_milonga g_cortina app] in H.
  destruct H as (H1 & H2 & H3 & H4). unfold grouping.
  destruct (foldl _ _ _) as [a b c d]. cbn [g_tango g_vals g_milonga g_cortina] in *.
  by subst.
Qed.

Lemma groupByStyle_stuck library :
  ~ groupable library ->
  groupByStyle library = Throw (TypeError "grouped[style].push is not a function").
Proof.
  intros Hn. apply foldM_groupTrack_inherited.
  apply not_Forall_Exists in Hn; [|apply _].
  eapply Exists_impl; [exact Hn|]. cbn. intros t Ht.
  by destruct (decide (style t ∈ inheritedNames)).
Qed.

Lemma groupByStyle_Ret library g :
  groupByStyle library = Ret g -> groupable library /\ g = grouping library.
Proof.
  intros H. destruct (decide (groupable library)) as [Hg|Hn].
  - rewrite (groupByStyle_groupable _ Hg) in H. by injection H as <-.
  - by rewrite (groupByStyle_stuck _ Hn) in H.
Qed.

Lemma grouping_within library : within (grouping library) (libTracks library).
Proof. unfold within, grouping, filedUnder. cbn. repeat split; apply sublist_filter. Qed.

Lemma poolOf_sublist s library :
  poolOf s (grouping library) `sublist_of` libTracks library.
Proof.
  destruct (grouping_within library) as (H1 & H2 & H3 & H4).
  unfold poolOf, bucket.
  repeat match goal with |- context [String.eqb ?a ?b] => destruct (String.eqb a b) end;
    try done. destruct (bool_decide _); apply sublist_nil_l.
Qed.

Lemma ids_NoDup_sublist (l k : list Track) :
  l `sublist_of` k -> NoDup (id <$> k) -> NoDup (id <$> l).
Proof. intros Hs Hn. eapply sublist_NoDup; [exact Hn | by apply fmap_sublist]. Qed.

Lemma insert_head_Permutation {A} (l : list A) j (a y : A) :
  l !! j = Some y -> y :: <[j := a]> l ≡ₚ a :: l.
Proof.
  revert j. induction l as [|b l IH]; intros [|j] H; simpl in *; try discriminate.
  - injection H as ->. apply Permutation_swap.
  - etrans; [apply Permutation_swap|]. rewrite (IH j H). apply Permutation_swap.
Qed.

Lemma swap_Permutation {A} (i j : nat) (l : list A) : swap i j l ≡ₚ l.
Proof.
  unfold swap.
  destruct (l !! i) as [x|] eqn:Hi; [|done].
  destruct (l !! j) as [y|] eqn:Hj; [|done].
  revert i j Hi Hj. induction l as [|a l IH]; intros [|i] [|j] Hi Hj;
    simpl in *; try discriminate.
  - by simplify_eq.
  - injection Hi as ->. by apply insert_head_Permutation.
  - injection Hj as ->. by apply insert_head_Permutation.
  - by rewrite IH.
Qed.

Lemma shuffle_loop_Permutation {A} rng n cur (copy : list A) :
  (shuffle_loop rng n cur copy).1 ≡ₚ copy.
Proof.
  revert cur copy. induction n as [|n IH]; intros cur copy; [done|].
  cbn [shuffle_loop]. rewrite IH. apply swap_Permutation.
Qed.

Lemma shuffle_Permutation {A} rng cur (arr : list A) : (shuffle rng cur arr).1 ≡ₚ arr.
Proof. apply shuffle_loop_Permutation. Qed.

(** ** The fallback planner *)

Lemma omap_Some_fmap {A} (l : list A) : omap (fun o : option A => o) (Some <$> l) = l.
Proof. induction l as [|a l IH]; csimpl; [done | by rewrite IH]. Qed.

Lemma addAll_elem (chosen : list Track) (used : gset string) x :
  x ∈ addAll used chosen <-> x ∈ used \/ x ∈ id <$> chosen.
Proof.
  unfold addAll. revert used. induction chosen as [|t chosen IH]; intros used; csimpl.
  - split; [by left | intros [?|H]; [done | by apply elem_of_nil in H]].
  - rewrite IH. rewrite elem_of_union, elem_of_singleton, elem_of_cons. tauto.
Qed.

Section fallback.
Context (rng : nat -> nat) (grouped : Grouped).
Hypothesis pools_NoDup : forall s, NoDup (id <$> poolOf s grouped).

(** The tracks drawn for one slot. *)
Lemma chosen_props (used : gset string) cur s n :
  let chosen :=
    take n (filter (fun track => id track ∉ used) (shuffle rng cur (poolOf s grouped)).1) in
  NoDup (id <$> chosen) /\ (forall x, x ∈ id <$> chosen -> x ∉ used).
Proof.
  intros chosen. split.
  - apply (ids_NoDup_sublist _ (shuffle rng cur (poolOf s grouped)).1).
    + etrans; [apply sublist_take | apply sublist_filter].
    + rewrite shuffle_Permutation. apply pools_NoDup.
  - intros x Hx. apply list_elem_of_fmap in Hx as (t & -> & Ht).
    apply subseteq_take in Ht. by apply list_elem_of_filter in Ht as [? _].
Qed.

Lemma fallbackTandas_inv slots : forall used cur idx ts used' cur',
  fallbackTandas rng grouped used cur idx slots = (ts, used', cur') ->
  Forall2 fillsSlot ts slots /\
  NoDup (id <$> (ts ≫= tracksOf)) /\
  (forall x, x ∈ used' <-> x ∈ used \/ x ∈ id <$> (ts ≫= tracksOf)) /\
  (forall x, x ∈ id <$> (ts ≫= tracksOf) -> x ∉ used).
Proof.
  induction slots as [|[s n] rest IH]; intros used cur idx ts used' cur'; simpl.
  - intros [= <- <- <-]. split; [constructor|]. split; [constructor|]. split.
    + intros x. split; [by left | intros [?|H]; [done | by apply elem_of_nil in H]].
    + intros x H. by apply elem_of_nil in H.
  - destruct (shuffle rng cur (poolOf s grouped)) as [shuffled cur1] eqn:Hsh.
    set (chosen := take n (filter (fun track => id track ∉ used) shuffled)).
    destruct (fallbackTandas rng grouped (addAll used chosen) cur1 (S idx) rest)
      as [[ts1 used2] cur2] eqn:Hrest.
    intros [= <- <- <-].
    destruct (IH _ _ _ _ _ _ Hrest) as (Hfill & Hnd & Hused & Hfresh).
    pose proof (chosen_props used cur s n) as [Hc1 Hc2].
    rewrite Hsh in Hc1, Hc2. cbn [fst] in Hc1, Hc2. fold chosen in Hc1, Hc2.
    assert (Hbind : forall tanda, tracksOf tanda = chosen ->
              (tanda :: ts1) ≫= tracksOf = chosen ++ (ts1 ≫= tracksOf)).
    { intros tanda Ht. csimpl. by rewrite Ht. }
    rewrite Hbind by apply omap_Some_fmap.
    rewrite fmap_app. split; [|split; [|split]].
    + constructor; [|done]. unfold fillsSlot. cbn [type tracks reasoning fst snd].
      split; [done|]. split; [|split; [done|]].
      * rewrite length_fmap. unfold chosen. rewrite length_take. lia.
      * intros H. apply list_elem_of_fmap in H as (? & ? & _). discriminate.
    + apply NoDup_app. split; [done|]. split; [|done].
      intros x Hx Hx'. apply (Hfresh x Hx'). apply addAll_elem. by right.
    + intros x. rewrite Hused, addAll_elem, elem_of_app. tauto.
    + intros x Hx. apply elem_of_app in Hx as [Hx|Hx]; [by apply Hc2|].
      intros Hu. apply (Hfresh x Hx). apply addAll_elem. by left.
Qed.
End fallback.

Lemma fallbackTandas_length rng grouped slots : forall used cur idx,
  length (fallbackTandas rng grouped used cur idx slots).1.1 = length slots.
Proof.
  induction slots as [|[s n] rest IH]; intros used cur idx; simpl; [done|].
  destruct (shuffle rng cur (poolOf s grouped)) as [shuffled cur1].
  specialize (IH (addAll used (take n (filter (fun track => id track ∉ used) shuffled)))
                 cur1 (S idx)).
  destruct (fallbackTandas rng grouped _ cur1 (S idx) rest) as [[ts1 used2] cur2].
  simpl in *. by rewrite IH.
Qed.

Lemma planFrom_length rng grouped : length (plan_tandas (planFrom rng grouped)) = 6.
Proof.
  unfold planFrom.
  pose proof (fallbackTandas_length rng grouped pattern ∅ 0 0) as H.
  destruct (fallbackTandas rng grouped ∅ 0 0 pattern) as [[ts used] cur].
  exact H.
Qed.

(** The fallback planner returns exactly on the catalogs [groupByStyle]
    returns on. *)
Lemma fallbackPlaylistPlan_groupable rng library :
  groupable library ->
  fallbackPlaylistPlan rng library = Ret (planFrom rng (grouping library)).
Proof.
  intros Hg. unfold fallbackPlaylistPlan. by rewrite (groupByStyle_groupable _ Hg).
Qed.

Lemma fallbackPlaylistPlan_stuck rng library :
  ~ groupable library ->
  fallbackPlaylistPlan rng library
  = Throw (TypeError "grouped[style].push is not a function").
Proof.
  intros Hn. unfold fallbackPlaylistPlan. by rewrite (groupByStyle_stuck _ Hn).
Qed.

Lemma fallbackPlaylistPlan_Ret rng library plan :
  fallbackPlaylistPlan rng library = Ret plan ->
  groupable library /\ plan = planFrom rng (grouping library).
Proof.
  intros H. destruct (decide (groupable library)) as [Hg|Hn].
  - rewrite (fallbackPlaylistPlan_groupable _ _ Hg) in H. by injection H as <-.
  - by rewrite (fallbackPlaylistPlan_stuck _ _ Hn) in H.
Qed.

Lemma omap_cons_unfold {A B} (f : A -> option B) x (l : list A) :
  omap f (x :: l) = match f x with Some y => y :: omap f l | None => omap f l end.
Proof. reflexivity. Qed.

Lemma omap_imap_lookup {A B} (l : list A) (ts : list B) k :
  omap (fun o : option A => o) (imap (fun idx _ => l !! (k + idx)) ts)
  = take (length ts) (drop k l).
Proof.
  revert k. induction ts as [|t ts IH]; intros k; [done|].
  rewrite imap_cons. rewrite Nat.add_0_r.
  rewrite (imap_ext _ (fun idx _ => l !! (S k + idx))).
  2:{ intros i x _. simpl. f_equal. lia. }
  rewrite omap_cons_unfold, IH. cbn [length].
  destruct (l !! k) as [a|] eqn:Hk.
  - by rewrite (drop_S _ _ _ Hk).
  - apply lookup_ge_None in Hk. rewrite !drop_ge by lia. by rewrite take_nil.
Qed.

(** X27.  On a catalog whose track ids are pairwise distinct and in which
    no style is named like a member of [Object.prototype], the fallback
    planner returns, whatever the random draws, a plan of six tandas that
    follow the pattern in order: tanda [i] has the style of slot [i], at
    most as many tracks as the slot's size, no empty track position, and
    the fixed fallback explanation as its reasoning; there are six cortina
    slots; and no track id occurs twice among the tracks of the six tandas
    and the cortinas. *)
Theorem fallbackPlaylistPlan_on_plain_styles (rng : nat -> nat) (library : Library) :
  NoDup (id <$> libTracks library) ->
  groupable library ->
  exists plan,
    fallbackPlaylistPlan rng library = Ret plan /\
    Forall2
      (fun t slot =>
         type t = Some (JStr slot.1) /\
         length (tracks t) <= slot.2 /\
         reasoning t = JStr "Fallback selection due to unavailable OpenAI plan." /\
         None ∉ tracks t)
      (plan_tandas plan)
      [("tango", 4); ("tango", 4); ("vals", 3); ("tango", 4); ("tango", 4); ("milonga", 3)] /\
    length (plan_tandas plan) = 6 /\
    length (plan_cortinas plan) = 6 /\
    NoDup (id <$> playedTracks plan).
Proof.
  intros Hnd Hg. exists (planFrom rng (grouping library)).
  split; [by apply fallbackPlaylistPlan_groupable|].
  assert (Hlen : length (plan_tandas (planFrom rng (grouping library))) = 6)
    by apply planFrom_length.
  unfold planFrom, playedTracks in *.
  set (grouped := grouping library) in *.
  assert (Hpools : forall s, NoDup (id <$> poolOf s grouped)).
  { intros s. eapply ids_NoDup_sublist; [apply poolOf_sublist | done]. }
  destruct (fallbackTandas rng grouped ∅ 0 0 pattern) as [[ts used] cur] eqn:E.
  destruct (fallbackTandas_inv rng grouped Hpools _ _ _ _ _ _ _ E)
    as (Hfill & Hnd1 & Hused & _).
  cbn [plan_tandas plan_cortinas] in *.
  split; [exact Hfill|]. split; [done|]. split; [by rewrite length_imap|].
  pose proof (omap_imap_lookup
    (filter (fun track => id track ∉ used)
       (shuffle rng cur (if length (g_cortina grouped) =? 0
                         then g_tango grouped else g_cortina grouped)).1) ts 0) as Hc.
  cbn [Nat.add] in Hc. rewrite Hc, drop_0, fmap_app.
  apply NoDup_app. split; [done|]. split.
  - intros x Hx Hx'. apply list_elem_of_fmap in Hx' as (t & -> & Ht).
    apply subseteq_take in Ht. apply list_elem_of_filter in Ht as [Hfresh _].
    apply Hfresh. apply Hused. by right.
  - eapply (ids_NoDup_sublist _ (shuffle rng cur _).1).
    + etrans; [apply sublist_take | apply sublist_filter].
    + rewrite shuffle_Permutation.
      destruct (grouping_within library) as (H1 & _ & _ & H4).
      fold grouped in H1, H4.
      destruct (length (g_cortina grouped) =? 0);
        eapply ids_NoDup_sublist; eauto.
Qed.

Lemma sampleLibrary_groupable : groupable sampleLibrary.
Proof. apply (bool_decide_unpack _). vm_compute. exact I. Qed.

(** Witness of X27 on the sample catalog. *)
Lemma fallbackPlaylistPlan_on_plain_styles_witness :
  NoDup (id <$> libTracks sampleLibrary) /\
  exists plan,
    fallbackPlaylistPlan (fun k => 7 * k + 3) sampleLibrary = Ret plan /\
    NoDup (id <$> playedTracks plan).
Proof.
  assert (H : NoDup (id <$> libTracks sampleLibrary)).
  { apply (bool_decide_unpack (NoDup _)). vm_compute. exact I. }
  split; [exact H|].
  destruct (fallbackPlaylistPlan_on_plain_styles (fun k => 7 * k + 3) sampleLibrary H
              sampleLibrary_groupable) as (plan & Hrun & _ & _ & _ & Hnd).
  exists plan. by split.
Defined.

(** C2.  On the catalog [oddLibrary], whose ids are pairwise distinct and
    in which one track carries the style [constructor], the fallback
    planner does not succeed: whatever the random draws, it raises the
    TypeError of [groupByStyle], which takes the inherited member
    [grouped['constructor']] for a bucket and calls its [push]. *)
Theorem fallbackPlaylistPlan_raises_on_inherited_style :
  NoDup (id <$> libTracks oddLibrary) /\
  forall rng,
    fallbackPlaylistPlan rng oddLibrary
    = Throw (TypeError "grouped[style].push is not a function").
Proof.
  split.
  - apply (bool_decide_unpack (NoDup _)). vm_compute. exact I.
  - intros rng. apply fallbackPlaylistPlan_stuck.
    apply (bool_decide_unpack (~ _)). vm_compute. exact I.
Qed.

(** ** Playlist creation *)

Lemma mapM_total {A B} (f : A -> outcome B) (l : list A) :
  (forall a, a ∈ l -> exists b, f a = Ret b) -> exists r, mapM f l = Ret r.
Proof.
  induction l as [|a l IH]; intros Hall; simpl; [eauto|].
  destruct (Hall a) as [b ->]; [apply elem_of_cons; by left|].
  destruct IH as [r ->]; [intros a' Ha'; apply Hall, elem_of_cons; by right|].
  simpl. eauto.
Qed.

Lemma every_total {A} (f : A -> nat -> outcome bool) i (l : list A) :
  (forall a k, a ∈ l -> exists b, f a k = Ret b) -> exists b, every f i l = Ret b.
Proof.
  revert i. induction l as [|a l IH]; intros i Hall; simpl; [eauto|].
  destruct (Hall a i) as [b ->]; [apply elem_of_cons; by left|].
  simpl. destruct b; [|eauto].
  apply IH. intros a' k Ha'. apply Hall, elem_of_cons. by right.
Qed.

Lemma get_Ret_inv k v r : get k (Some v) = Ret r -> v <> JNull /\ r = prop k v.
Proof. destruct v; simpl; intros [= <-] || discriminate; by split. Qed.

(** The validator cannot raise on a plan the proposer step handed over:
    an entry on which it would raise already made the debug summary
    raise, inside the [try] block. *)
Lemma validate_after_createPlan agent p debug :
  createPlanWithAgent agent = Ret (Some p, debug) ->
  exists b, validatePlanShape (Some p) = Ret b.
Proof.
  destruct agent as [| |parsed]; cbn [createPlanWithAgent]; try discriminate.
  intros H. apply bind_Ret_inv in H as (plan & -> & H).
  apply bind_Ret_inv in H as (tandas & Hget & H).
  apply bind_Ret_inv in H as (types & Htypes & [= -> _]).
  apply get_Ret_inv in Hget as [_ ->].
  unfold validatePlanShape.
  destruct (truthy (Some p)); simpl; [|eauto].
  destruct (prop "tandas" p) as [[| | | |entries|]|]; eauto.
  destruct (length entries =? 6); simpl; [|eauto].
  apply every_total. intros t k Ht.
  unfold orEmptyMap in Htypes. simpl in Htypes.
  apply mapM_Ret in Htypes as [_ Hall].
  apply list_elem_of_lookup in Ht as [i Hi].
  destruct (Hall i t Hi) as (ty & _ & ->). simpl. eauto.
Qed.

Lemma createPlanWithAgent_wellShaped p :
  wellShaped (Some p) ->
  exists debug,
    createPlanWithAgent (Answers (Ret p)) = Ret (Some p, debug) /\ enabled debug = true.
Proof.
  intros (p' & entries & [= <-] & Ht & _ & Hall).
  destruct (prop_Some_obj _ _ _ Ht) as [fields ->].
  destruct (mapM_total (fun t => get "type" (Some t)) entries) as [types Htypes].
  { intros t Hin. apply list_elem_of_lookup in Hin as [i Hi].
    destruct (Hall i t Hi) as (s & ids & _ & Hty & _).
    destruct (prop_Some_obj _ _ _ Hty) as [fs ->]. simpl. eauto. }
  eexists. unfold createPlanWithAgent. cbn [bind get]. rewrite Ht.
  unfold orEmptyMap. cbn [truthy]. cbn [get] in Htypes. rewrite Htypes. cbn [bind]. by split.
Qed.

Lemma acceptedPlan_validCandidate agent plan debug :
  createPlanWithAgent agent = Ret (plan, debug) ->
  acceptedPlan plan = Ret (validCandidate agent).
Proof.
  intros E. unfold validCandidate. rewrite E.
  destruct plan as [p|]; [|done].
  destruct (validate_after_createPlan _ _ _ E) as [b Hb].
  unfold acceptedPlan. rewrite Hb. cbn [bind].
  destruct (truthy (Some p)) eqn:Ht; simpl; [by destruct b|].
  unfold validatePlanShape in Hb. rewrite Ht in Hb. simpl in Hb.
  by injection Hb as <-.
Qed.

Lemma postPlaylists_cases clock rng agent reqBody disk :
  libTracks (readLibrary disk) <> [] ->
  exists debug,
    postPlaylists clock rng agent reqBody disk =
      match validCandidate agent with
      | Some p =>
          let! h := hydratePlan p (readLibrary disk) in
          created (createdPlaylist clock reqBody "agent" debug h) disk
      | None =>
          let! h := fallbackPlaylistPlan rng (readLibrary disk) in
          created (createdPlaylist clock reqBody "fallback" debug h) disk
      end.
Proof.
  intros Hne. unfold postPlaylists.
  destruct (libTracks (readLibrary disk)) as [|t0 ts0] eqn:Hlib; [done|].
  cbn [length Nat.eqb]. clear Hlib Hne t0 ts0.
  destruct (createPlanWithAgent agent) as [[plan debug]|e] eqn:E.
  - rewrite (acceptedPlan_validCandidate _ _ _ E). cbn [bind].
    destruct (validCandidate agent) as [p|].
    + exists debug. cbn [andb]. destruct (hydratePlan p (readLibrary disk)) as [h|err]; [|done].
      cbn [bind]. by rewrite (normalizePlaylist_present _ _ (plan_tandas h)).
    + destruct (fallbackPlaylistPlan rng (readLibrary disk)) as [h|err]; [|by exists debug].
      eexists. cbn [bind]. by rewrite (normalizePlaylist_present _ _ (plan_tandas h)).
  - assert (validCandidate agent = None) as -> by (unfold validCandidate; by rewrite E).
    cbn [acceptedPlan bind].
    destruct (fallbackPlaylistPlan rng (readLibrary disk)) as [h|err];
      [|by exists {| enabled := false; reason := None; validation := None; tandaTypes := [] |}].
    eexists. cbn [bind]. by rewrite (normalizePlaylist_present _ _ (plan_tandas h)).
Qed.

Lemma validCandidate_valid agent p :
  validCandidate agent = Some p -> validatePlanShape (Some p) = Ret true.
Proof.
  unfold validCandidate.
  destruct (createPlanWithAgent agent) as [[[q|] debug]|e]; try discriminate.
  destruct (validatePlanShape (Some q)) as [[|]|e] eqn:Hv; try discriminate.
  by intros [= <-].
Qed.

(** The four planning-side failures leave no valid candidate. *)
Lemma validCandidate_failures :
  validCandidate NoApiKey = None /\
  (forall message, validCandidate (CallRejects message) = None) /\
  (forall message, validCandidate (Answers (Throw message)) = None) /\
  (forall p, validatePlanShape (Some p) <> Ret true ->
             validCandidate (Answers (Ret p)) = None).
Proof.
  repeat split; try done.
  intros p Hp. destruct (validCandidate (Answers (Ret p))) as [q|] eqn:E; [|done].
  pose proof (validCandidate_valid _ _ E) as Hq.
  unfold validCandidate in E.
  destruct (createPlanWithAgent (Answers (Ret p))) as [[[q'|] debug]|e] eqn:E'; try discriminate.
  cbn [createPlanWithAgent] in E'.
  apply bind_Ret_inv in E' as (plan & [= <-] & E').
  apply bind_Ret_inv in E' as (tandas & _ & E').
  apply bind_Ret_inv in E' as (types & _ & [= <- _]).
  destruct (validatePlanShape (Some p)) as [[|]|]; try discriminate.
  by destruct Hp.
Qed.

(** Without a valid candidate the handler answers 201 with a fallback
    playlist of six tandas, unless the fallback planner raises; with one
    it stores the hydrated plan as an agent playlist of six tandas, unless
    hydration raises.  Both planners run outside the [try] block, so the
    handler raises when they do. *)
Lemma postPlaylists_outcomes clock rng agent reqBody disk :
  libTracks (readLibrary disk) <> [] ->
  match validCandidate agent with
  | None =>
      match fallbackPlaylistPlan rng (readLibrary disk) with
      | Ret h =>
          exists playlist,
            postPlaylists clock rng agent reqBody disk = created playlist disk /\
            generationSource playlist = "fallback" /\
            length (tandas playlist) = 6
      | Throw e => postPlaylists clock rng agent reqBody disk = Throw e
      end
  | Some p =>
      match hydratePlan p (readLibrary disk) with
      | Ret h =>
          exists playlist,
            postPlaylists clock rng agent reqBody disk = created playlist disk /\
            generationSource playlist = "agent" /\
            tandas playlist = plan_tandas h /\
            cortinas playlist = plan_cortinas h /\
            length (tandas playlist) = 6
      | Throw e => postPlaylists clock rng agent reqBody disk = Throw e
      end
  end.
Proof.
  intros Hne.
  destruct (postPlaylists_cases clock rng agent reqBody disk Hne) as [debug ->].
  destruct (validCandidate agent) as [p|] eqn:E.
  - destruct (hydratePlan p (readLibrary disk)) as [h|e] eqn:Hh; [|done].
    eexists. split; [reflexivity|]. cbn [generationSource tandas cortinas createdPlaylist].
    repeat split.
    destruct (hydrateTandas_validated p (readLibrary disk) (validCandidate_valid _ _ E))
      as (ts & Hts & Hlen & _).
    apply hydratePlan_Ret_tandas in Hh. rewrite Hts in Hh. by injection Hh as <-.
  - destruct (fallbackPlaylistPlan rng (readLibrary disk)) as [h|e] eqn:Hh; [|done].
    eexists. split; [reflexivity|]. split; [done|].
    apply fallbackPlaylistPlan_Ret in Hh as [_ ->]. apply planFrom_length.
Qed.

(** C1.  With a library on disk and a proposer whose answer passes
    validation but carries its cortinas as a text, the handler raises: the
    TypeError of [hydratePlan] is outside the [try] block, so nothing is
    answered and nothing is stored. *)
Theorem postPlaylists_raises_on_cortina_text :
  libTracks (readLibrary sampleDisk) <> [] /\
  validCandidate (Answers (Ret planCortinasAsText)) = Some planCortinasAsText /\
  forall clock rng reqBody,
    postPlaylists clock rng (Answers (Ret planCortinasAsText)) reqBody sampleDisk
    = Throw (TypeError "(plan.cortinaTrackIds || []).map is not a function").
Proof.
  split; [discriminate|]. split; [reflexivity|].
  intros clock rng reqBody.
  pose proof (postPlaylists_outcomes clock rng (Answers (Ret planCortinasAsText))
                reqBody sampleDisk) as H.
  apply H. discriminate.
Qed.

(** ** Plans without cortinas *)

Lemma validatePlanShape_reads_tandas fields fields' :
  assoc "tandas" fields = assoc "tandas" fields' ->
  validatePlanShape (Some (JObj fields)) = validatePlanShape (Some (JObj fields')).
Proof. intros H. unfold validatePlanShape. cbn [truthy negb prop]. by rewrite H. Qed.

(** A validated plan whose [cortinaTrackIds] is a text: hydration raises
    instead of returning an empty cortina sequence. *)
Lemma cortinas_as_text_raise :
  validatePlanShape (Some planCortinasAsText) = Ret true /\
  isArray (prop "cortinaTrackIds" planCortinasAsText) = false /\
  hydratePlan planCortinasAsText sampleLibrary
  = Throw (TypeError "(plan.cortinaTrackIds || []).map is not a function") /\
  ~ exists h, hydratePlan planCortinasAsText sampleLibrary = Ret h /\ plan_cortinas h = [].
Proof.
  assert (H : hydratePlan planCortinasAsText sampleLibrary
              = Throw (TypeError "(plan.cortinaTrackIds || []).map is not a function"))
    by (vm_compute; reflexivity).
  repeat split; try reflexivity; try exact H.
  intros (h & Hh & _). rewrite H in Hh. discriminate.
Qed.

(** C10 (amended).  Validation reads the [tandas] field only, so it does
    not look at [cortinaTrackIds].  A plan with well-shaped tandas whose
    [cortinaTrackIds] is absent or falsy ([null], [false], [0], the empty
    string) is accepted by the validator, hydrates without error to six
    tandas and an empty cortina sequence, and is stored by the handler as
    an agent-generated playlist with no cortina slots. *)
Theorem hydratePlan_without_cortinas :
  (forall fields fields',
     assoc "tandas" fields = assoc "tandas" fields' ->
     validatePlanShape (Some (JObj fields)) = validatePlanShape (Some (JObj fields'))) /\
  forall plan library,
    wellShaped (Some plan) ->
    truthy (prop "cortinaTrackIds" plan) = false ->
    validatePlanShape (Some plan) = Ret true /\
    (exists h, hydratePlan plan library = Ret h /\
               plan_cortinas h = [] /\ length (plan_tandas h) = 6) /\
    forall clock rng reqBody disk,
      libraryFile disk = Some library ->
      libTracks library <> [] ->
      exists playlist,
        postPlaylists clock rng (Answers (Ret plan)) reqBody disk = created playlist disk /\
        generationSource playlist = "agent" /\
        cortinas playlist = [] /\
        length (tandas playlist) = 6.
Proof.
  split; [apply validatePlanShape_reads_tandas|].
  intros plan library Hshape Hc.
  pose proof (proj2 (validatePlanShape_wellShaped (Some plan)) Hshape) as Hv.
  split; [exact Hv|].
  destruct (hydrateTandas_validated plan library Hv) as (ts & Hts & Hlen & _).
  assert (Hh : hydratePlan plan library = Ret {| plan_tandas := ts; plan_cortinas := [] |}).
  { unfold hydratePlan, hydrateCortinas. rewrite Hts. cbn [bind].
    by rewrite (resolveAll_falsy _ _ _ Hc). }
  split; [by eexists|].
  intros clock rng reqBody disk Hlib Hne.
  assert (Hread : readLibrary disk = library) by (unfold readLibrary; by rewrite Hlib).
  pose proof (postPlaylists_outcomes clock rng (Answers (Ret plan)) reqBody disk) as H.
  rewrite Hread in H. specialize (H Hne).
  assert (Hcand : validCandidate (Answers (Ret plan)) = Some plan).
  { destruct (createPlanWithAgent_wellShaped plan Hshape) as (debug & Hd & _).
    unfold validCandidate. by rewrite Hd, Hv. }
  rewrite Hcand, Hh in H. destruct H as (playlist & Hp & Hsrc & _ & Hcs & Hl).
  exists playlist. by repeat split.
Qed.

(** Witness of C10 (amended): the sample plan that has no
    [cortinaTrackIds] field. *)
Lemma hydratePlan_without_cortinas_witness :
  wellShaped (Some planWithoutCortinas) /\
  truthy (prop "cortinaTrackIds" planWithoutCortinas) = false /\
  exists h, hydratePlan planWithoutCortinas sampleLibrary = Ret h /\
            plan_cortinas h = [] /\ length (plan_tandas h) = 6.
Proof.
  assert (Hshape : wellShaped (Some planWithoutCortinas))
    by (apply validatePlanShape_wellShaped; reflexivity).
  split; [exact Hshape|]. split; [reflexivity|].
  exact (proj1 (proj2 (proj2 hydratePlan_without_cortinas planWithoutCortinas sampleLibrary
                         Hshape eq_refl))).
Defined.

(** ** Moving a tanda *)

Lemma relativeStart_int len n i : numberIs n i -> relativeStart len n = i `min` len.
Proof.
  destruct n as [q| | |]; simpl; try done. intros H.
  unfold relativeStart. cbn [toIntegerOrInfinity]. rewrite H.
  rewrite Z.quot_mul by done.
  destruct (Z.ltb_spec (Z.of_nat i) 0) as [?|_]; lia.
Qed.

Lemma splice_remove1_int {A} n i (l : list A) :
  numberIs n i -> i < length l ->
  splice_remove1 n l = (l !! i, delete i l).
Proof.
  intros Hn Hi. unfold splice_remove1. rewrite (relativeStart_int _ _ _ Hn).
  rewrite Nat.min_l by lia. by rewrite delete_take_drop.
Qed.

Lemma splice_insert_int {A} m j (x : A) (l : list A) :
  numberIs m j -> j <= length l ->
  splice_insert m x l = take j l ++ x :: drop j l.
Proof.
  intros Hm Hj. unfold splice_insert. rewrite (relativeStart_int _ _ _ Hm).
  by rewrite Nat.min_l by lia.
Qed.

Lemma moved_Permutation {A} i j (x : A) l : l !! i = Some x -> moved i j x l ≡ₚ l.
Proof.
  intros Hi. unfold moved. rewrite <- Permutation_middle, take_drop.
  symmetry. by apply delete_Permutation.
Qed.

Lemma moved_lookup {A} i j (x : A) l :
  l !! i = Some x -> j < length l -> moved i j x l !! j = Some x.
Proof.
  intros Hi Hj. unfold moved.
  assert (length (delete i l) = length l - 1).
  { rewrite length_delete; [done | by eexists]. }
  rewrite lookup_app_r; rewrite length_take; [|lia].
  by replace (j - j `min` length (delete i l)) with 0 by lia.
Qed.

Lemma moved_same {A} i (x : A) l : l !! i = Some x -> moved i i x l = l.
Proof.
  intros Hi. unfold moved. rewrite delete_take_drop.
  assert (i < length l) by by eapply lookup_lt_Some.
  rewrite take_app_le by (rewrite length_take; lia).
  rewrite take_take, Nat.min_id.
  rewrite drop_app_ge by (rewrite length_take; lia).
  rewrite length_take, Nat.min_l by lia. rewrite Nat.sub_diag, drop_0.
  by apply take_drop_middle.
Qed.

Lemma moved_fmap {A B} (f : A -> B) i j x (l : list A) :
  f <$> moved i j x l = moved i j (f x) (f <$> l).
Proof.
  unfold moved. rewrite fmap_app, fmap_cons, fmap_take, fmap_drop.
  by rewrite !delete_take_drop, !fmap_app, !fmap_take, !fmap_drop.
Qed.

Lemma moved_zip {A B} i j (x : A) (y : B) l k :
  length l = length k ->
  zip (moved i j x l) (moved i j y k) = moved i j (x, y) (zip l k).
Proof.
  intros Hlen. unfold moved.
  assert (Hdel : delete i (zip l k) = zip (delete i l) (delete i k)).
  { rewrite !delete_take_drop.
    rewrite zip_with_app by (rewrite !length_take; lia).
    by rewrite zip_with_take, zip_with_drop. }
  assert (Hdl : length (delete i l) = length (delete i k)).
  { rewrite !delete_take_drop, !length_app, !length_take, !length_drop. lia. }
  rewrite Hdel.
  rewrite zip_with_app by (rewrite !length_take; lia).
  by rewrite zip_with_take, zip_with_drop.
Qed.

Lemma postMoveTanda_moved clock pid reqBody disk (playlist : Playlist) n m i j t c :
  readPlaylist pid disk = Some playlist ->
  field "fromIndex" reqBody = Some (JNum n) ->
  field "toIndex" reqBody = Some (JNum m) ->
  numberIs n i -> numberIs m j ->
  tandas playlist !! i = Some t ->
  cortinas playlist !! i = Some c ->
  j < length (tandas playlist) ->
  j < length (cortinas playlist) ->
  let updated :=
    stamped (nowIso clock) playlist
      (moved i j t (tandas playlist)) (moved i j c (cortinas playlist)) in
  postMoveTanda clock pid reqBody disk
  = Ret ({| status := 200; body := PlaylistBody updated |}, writePlaylist updated disk).
Proof.
  intros Hread Hfrom Hto Hn Hm Ht Hc Hjt Hjc updated.
  pose proof (lookup_lt_Some _ _ _ Ht) as Hit.
  pose proof (lookup_lt_Some _ _ _ Hc) as Hic.
  unfold postMoveTanda. rewrite Hread, Hfrom, Hto. cbn [number_of].
  rewrite (splice_remove1_int n i (Some <$> tandas playlist) Hn)
    by by rewrite length_fmap.
  rewrite (splice_remove1_int n i (cortinas playlist) Hn) by done.
  rewrite list_lookup_fmap, Ht, Hc. cbn [fmap option_fmap option_map mjoin option_join].
  rewrite (splice_insert_int m j _ _ Hm)
    by (rewrite length_delete by (rewrite list_lookup_fmap, Ht; by eexists);
        rewrite length_fmap; lia).
  rewrite (splice_insert_int m j _ _ Hm)
    by (rewrite length_delete by (by eexists); lia).
  change (take j (delete i (Some <$> tandas playlist))
          ++ Some t :: drop j (delete i (Some <$> tandas playlist)))
    with (moved i j (Some t) (Some <$> tandas playlist)).
  rewrite <- (moved_fmap Some).
  by rewrite (normalizePlaylist_present _ _ (moved i j t (tandas playlist))).
Qed.

(** C7.  On a stored playlist with six tandas and six cortinas, and for
    integer indices [i] and [j] between 0 and 5, move-tanda answers 200
    and writes a playlist that differs from the stored one only in
    [updatedAt] and in the order of its slots: the (tanda, cortina) pairs
    after the call are a permutation of the pairs before it, the pair that
    was at [i] is at [j], and for [i = j] tandas and cortinas are as
    before. *)
Theorem postMoveTanda_permutes clock pid reqBody disk (playlist : Playlist) n m i j :
  readPlaylist pid disk = Some playlist ->
  length (tandas playlist) = 6 ->
  length (cortinas playlist) = 6 ->
  field "fromIndex" reqBody = Some (JNum n) ->
  field "toIndex" reqBody = Some (JNum m) ->
  numberIs n i -> numberIs m j ->
  i <= 5 -> j <= 5 ->
  exists updated,
    postMoveTanda clock pid reqBody disk
    = Ret ({| status := 200; body := PlaylistBody updated |}, writePlaylist updated disk) /\
    updated = stamped (nowIso clock) playlist (tandas updated) (cortinas updated) /\
    zip (tandas updated) (cortinas updated) ≡ₚ zip (tandas playlist) (cortinas playlist) /\
    zip (tandas updated) (cortinas updated) !! j
    = zip (tandas playlist) (cortinas playlist) !! i /\
    (i = j ->
     updated = stamped (nowIso clock) playlist (tandas playlist) (cortinas playlist)).
Proof.
  intros Hread Hlt Hlc Hfrom Hto Hn Hm Hi Hj.
  destruct (lookup_lt_is_Some_2 (tandas playlist) i) as [t Ht]; [lia|].
  destruct (lookup_lt_is_Some_2 (cortinas playlist) i) as [c Hc]; [lia|].
  eexists. split.
  { apply (postMoveTanda_moved clock pid reqBody disk playlist n m i j t c); try done; lia. }
  cbn [tandas cortinas stamped].
  assert (Hz : zip (tandas playlist) (cortinas playlist) !! i = Some (t, c)).
  { rewrite lookup_zip_with, Ht, Hc. done. }
  rewrite moved_zip by lia.
  split; [done|]. split; [by apply moved_Permutation|]. split.
  - rewrite Hz. apply moved_lookup; [done|]. rewrite length_zip_with. lia.
  - intros <-. by rewrite !moved_same.
Qed.

(** Witness of C7: the sample playlist, moving position 4 to position 1. *)
Lemma postMoveTanda_permutes_witness :
  exists updated,
    postMoveTanda sampleClock "playlist-1714500000000" (moveRequest (int 4) (int 1)) storedDisk
    = Ret ({| status := 200; body := PlaylistBody updated |}, writePlaylist updated storedDisk) /\
    zip (tandas updated) (cortinas updated)
    ≡ₚ zip (tandas samplePlaylist) (cortinas samplePlaylist).
Proof.
  destruct (postMoveTanda_permutes sampleClock "playlist-1714500000000"
              (moveRequest (int 4) (int 1)) storedDisk samplePlaylist
              (Finite (inject_Z 4)) (Finite (inject_Z 1)) 4 1)
    as (updated & Hrun & _ & Hperm & _);
    try reflexivity; try (cbn; lia).
  exists updated. by split.
Defined.

(** A negative index and a fractional index pass the guard: the request
    is answered 200 and the stored playlist is rewritten with its tandas
    in a new order. *)
Lemma postMoveTanda_accepts_negative_and_fraction :
  (postMoveTanda sampleClock "playlist-1714500000000"
     (moveRequest (int (-1)) (int 0)) storedDisk
   = Ret ({| status := 200; body := PlaylistBody sampleLastFirst |},
          writePlaylist sampleLastFirst storedDisk) /\
   readPlaylist "playlist-1714500000000" (writePlaylist sampleLastFirst storedDisk)
   = Some sampleLastFirst /\
   tandaId <$> tandas sampleLastFirst
   = ["tanda-6"; "tanda-1"; "tanda-2"; "tanda-3"; "tanda-4"; "tanda-5"] /\
   tandas sampleLastFirst <> tandas samplePlaylist) /\
  (postMoveTanda sampleClock "playlist-1714500000000"
     (moveRequest (JNum (Finite (5 # 2))) (int 0)) storedDisk
   = Ret ({| status := 200; body := PlaylistBody sampleThirdFirst |},
          writePlaylist sampleThirdFirst storedDisk) /\
   readPlaylist "playlist-1714500000000" (writePlaylist sampleThirdFirst storedDisk)
   = Some sampleThirdFirst /\
   tandaId <$> tandas sampleThirdFirst
   = ["tanda-3"; "tanda-1"; "tanda-2"; "tanda-4"; "tanda-5"; "tanda-6"] /\
   tandas sampleThirdFirst <> tandas samplePlaylist).
Proof.
  assert (Hdiff : forall p : Playlist,
            tandaId <$> tandas p <> tandaId <$> tandas samplePlaylist ->
            tandas p <> tandas samplePlaylist)
    by (intros p Hp H; apply Hp; by rewrite H).
  split; (split; [vm_compute; reflexivity|]); (split; [vm_compute; reflexivity|]);
    (split; [vm_compute; reflexivity|]); apply Hdiff; vm_compute; discriminate.
Qed.

(** C6 (amended).  Move-tanda answers 400, with the stored documents
    untouched, exactly when [fromIndex] or [toIndex] is not of type
    number; two numbers of whatever value pass this check, and the
    request is then answered 200 unless normalisation raises. *)
Theorem postMoveTanda_rejects_non_numbers clock pid reqBody disk (playlist : Playlist) :
  readPlaylist pid disk = Some playlist ->
  (is_number (field "fromIndex" reqBody) && is_number (field "toIndex" reqBody) = false ->
   postMoveTanda clock pid reqBody disk = Ret (invalidIndices, disk)) /\
  (is_number (field "fromIndex" reqBody) && is_number (field "toIndex" reqBody) = true ->
   forall response disk',
     postMoveTanda clock pid reqBody disk = Ret (response, disk') ->
     status response = 200).
Proof.
  intros Hread. unfold postMoveTanda. rewrite Hread.
  destruct (field "fromIndex" reqBody) as [[| |n| | |]|];
    destruct (field "toIndex" reqBody) as [[| |m| | |]|];
    cbn [is_number number_of andb]; split; try done.
  intros _ response disk'.
  destruct (splice_remove1 n (Some <$> tandas playlist)) as [tanda tandas1].
  destruct (splice_remove1 n (cortinas playlist)) as [cortina cortinas1].
  intros H. apply bind_Ret_inv in H as (updated & _ & [= <- _]). done.
Qed.

(** Witness of C6 (amended): a text as [fromIndex]. *)
Lemma postMoveTanda_rejects_non_numbers_witness :
  readPlaylist "playlist-1714500000000" storedDisk = Some samplePlaylist /\
  postMoveTanda sampleClock "playlist-1714500000000"
    (moveRequest (JStr "2") (int 0)) storedDisk
  = Ret (invalidIndices, storedDisk).
Proof.
  split; [reflexivity|].
  exact (proj1 (postMoveTanda_rejects_non_numbers sampleClock "playlist-1714500000000"
                  (moveRequest (JStr "2") (int 0)) storedDisk samplePlaylist eq_refl)
               eq_refl).
Defined.

(** An index beyond the end passes the guard too; nothing is removed, an
    [undefined] entry is inserted, and normalisation raises on it. *)
Lemma postMoveTanda_raises_beyond_end :
  postMoveTanda sampleClock "playlist-1714500000000" (moveRequest (int 6) (int 0)) storedDisk
  = Throw (TypeError "Cannot read properties of undefined (reading 'tracks')").
Proof. vm_compute. reflexivity. Qed.

(** ** Replacing a track *)

Lemma findTrack_None (v : option json) (ts : list Track) :
  (forall t, t ∈ ts -> v <> Some (JStr (id t))) -> findTrack v ts = None.
Proof.
  unfold findTrack. induction ts as [|t ts IH]; intros Hall; simpl; [done|].
  destruct (strict_eq_string v (id t)) eqn:E.
  - exfalso. apply (Hall t); [apply elem_of_cons; by left|].
    destruct v as [[]|]; simpl in E; try discriminate.
    apply String_eqb_true in E. by rewrite E.
  - apply IH. intros t' Ht'. apply Hall, elem_of_cons. by right.
Qed.

Lemma findTrack_Some (r : string) (ts : list Track) :
  r ∈ id <$> ts ->
  exists t, findTrack (Some (JStr r)) ts = Some t /\ id t = r /\ t ∈ ts.
Proof.
  unfold findTrack. induction ts as [|t ts IH]; intros Hin; csimpl in *.
  - by apply elem_of_nil in Hin.
  - destruct (String.eqb r (id t)) eqn:E.
    + apply String_eqb_true in E. exists t. repeat split; [done | apply elem_of_cons; by left].
    + apply elem_of_cons in Hin as [->|Hin]; [by rewrite String.eqb_refl in E|].
      destruct (IH Hin) as (t' & ? & ? & ?). exists t'. repeat split; try done.
      apply elem_of_cons. by right.
Qed.

(** C8.  On a stored playlist, replace-track with a [replacementTrackId]
    that is the id of no catalog track is answered with the not-found
    error (status 400, "replacementTrackId not found in library") and the
    disk, hence the playlist document with its [updatedAt], is exactly as
    before. *)
Theorem postReplaceTrack_unknown clock fits pid reqBody disk (playlist : Playlist) :
  readPlaylist pid disk = Some playlist ->
  (forall t, t ∈ libTracks (readLibrary disk) ->
             field "replacementTrackId" reqBody <> Some (JStr (id t))) ->
  postReplaceTrack clock fits pid reqBody disk = Ret (unknownReplacement, disk) /\
  unknownReplacement
  = {| status := 400; body := ErrorBody "replacementTrackId not found in library" |}.
Proof.
  intros Hread Hno. split; [|reflexivity].
  unfold postReplaceTrack. rewrite Hread. by rewrite (findTrack_None _ _ Hno).
Qed.

(** Witness of C8: an id that no sample track carries. *)
Lemma postReplaceTrack_unknown_witness :
  readPlaylist "playlist-1714500000000" storedDisk = Some samplePlaylist /\
  postReplaceTrack sampleClock roomy "playlist-1714500000000"
    (replaceRequest (int 0) (int 0) (JStr "nope.mp3")) storedDisk
  = Ret (unknownReplacement, storedDisk).
Proof.
  split; [reflexivity|].
  refine (proj1 (postReplaceTrack_unknown sampleClock roomy "playlist-1714500000000"
                   (replaceRequest (int 0) (int 0) (JStr "nope.mp3")) storedDisk
                   samplePlaylist eq_refl _)).
  intros t Ht [= H].
  assert (Hnot : "nope.mp3" ∉ id <$> libTracks sampleLibrary)
    by (apply (bool_decide_unpack _); vm_compute; exact I).
  apply Hnot. rewrite H. apply list_elem_of_fmap. eauto.
Defined.

(** A non-negative integer below [2^32 - 1] is the array index it names. *)
Lemma propertyKey_int (z : Z) :
  (0 <= z <= Z.of_N maxIndex)%Z -> propertyKey (Some (int z)) = KIndex (Z.to_N z).
Proof.
  intros [H0 H1]. unfold propertyKey, int, keyOf, keyOfNumber, inject_Z. cbn [Qnum Qden].
  rewrite Z.mod_1_r, Z.div_1_r.
  destruct (Z.leb_spec 0 z); [|lia].
  destruct (Z.leb_spec z (Z.of_N maxIndex)); [|lia].
  reflexivity.
Qed.

Lemma assignInTanda_in_range tandaIndex trackIndex replacement (ts : list Tanda) a b t :
  propertyKey tandaIndex = KIndex a ->
  propertyKey trackIndex = KIndex b ->
  ts !! N.to_nat a = Some t ->
  N.to_nat b < length (tracks t) ->
  assignInTanda tandaIndex trackIndex replacement ts
  = Ret (<[N.to_nat a := {| tandaId := tandaId t; type := type t;
                             reasoning := reasoning t;
                             tracks := <[N.to_nat b := Some replacement]> (tracks t) |}]> ts).
Proof.
  intros Ha Hb Ht Hlt. unfold assignInTanda, assignTrack, assignAt.
  rewrite Ha, Ht, Hb. cbn [bind].
  by destruct (Nat.ltb_spec (N.to_nat b) (length (tracks t))); [|lia].
Qed.

(** The slots of a document in which one tanda was exchanged. *)
Lemma slots_insert (ts : list Tanda) a t t' :
  ts !! a = Some t ->
  slots (<[a := t']> ts) + length (tracks t) = slots ts + length (tracks t').
Proof.
  intros Ht. pose proof (lookup_lt_Some _ _ _ Ht) as Hlt.
  rewrite insert_take_drop by done.
  assert (Hmid : slots ts = slots (take a ts ++ t :: drop (S a) ts))
    by (by rewrite take_drop_middle).
  rewrite Hmid. unfold slots. rewrite !sum_list_with_app.
  cbn [sum_list_with]. lia.
Qed.

Lemma stringifyGrown_kept fits (stored updated : Playlist) :
  slots (tandas updated) <= slots (tandas stored) ->
  stringifyGrown fits stored updated = Ret tt.
Proof.
  intros H. unfold stringifyGrown.
  by destruct (Nat.ltb_spec (slots (tandas stored)) (slots (tandas updated))); [lia|].
Qed.

Lemma stringifyGrown_grown fits (stored updated : Playlist) :
  slots (tandas stored) < slots (tandas updated) ->
  stringifyGrown fits stored updated
  = if fits updated then Ret tt else Throw (RangeError "Invalid string length").
Proof.
  intros H. unfold stringifyGrown.
  destruct (Nat.ltb_spec (slots (tandas stored)) (slots (tandas updated))); [|lia].
  by destruct (fits updated).
Qed.

(** Replace-track once the playlist is read and the replacement found. *)
Lemma postReplaceTrack_found clock fits pid reqBody disk (playlist : Playlist) replacement :
  readPlaylist pid disk = Some playlist ->
  findTrack (field "replacementTrackId" reqBody) (libTracks (readLibrary disk))
  = Some replacement ->
  postReplaceTrack clock fits pid reqBody disk
  = let! ts := assignInTanda (field "tandaIndex" reqBody) (field "trackIndex" reqBody)
                 replacement (tandas playlist) in
    let updated := stamped (nowIso clock) playlist ts (cortinas playlist) in
    let! _ := stringifyGrown fits playlist updated in
    Ret ({| status := 200; body := PlaylistBody updated |}, writePlaylist updated disk).
Proof.
  intros Hread Hfind. unfold postReplaceTrack. rewrite Hread, Hfind.
  destruct (assignInTanda _ _ _ _) as [ts|e]; cbn [bind]; [|done].
  by rewrite (normalizePlaylist_present (nowIso clock)
                (withArrays playlist (Some <$> ts) (cortinas playlist)) ts eq_refl).
Qed.

(** Replace-track does not check its indices: with the playlist stored and
    the replacement in the catalog, a [trackIndex] of 6 on a tanda of four
    tracks is answered 200 and lengthens the tanda to seven slots, two of
    them [null], and a [tandaIndex] of 6 raises. *)
Lemma postReplaceTrack_beyond_the_tracks :
  readPlaylist "playlist-1714500000000" storedDisk = Some samplePlaylist /\
  "t5.mp3" ∈ id <$> libTracks (readLibrary storedDisk) /\
  postReplaceTrack sampleClock roomy "playlist-1714500000000"
    (replaceRequest (int 0) (int 6) (JStr "t5.mp3")) storedDisk
  = Ret ({| status := 200; body := PlaylistBody sampleLengthened |},
         writePlaylist sampleLengthened storedDisk) /\
  (fun t => length (tracks t)) <$> take 1 (tandas samplePlaylist) = [4] /\
  (fun t => length (tracks t)) <$> take 1 (tandas sampleLengthened) = [7] /\
  postReplaceTrack sampleClock roomy "playlist-1714500000000"
    (replaceRequest (int 6) (int 0) (JStr "t5.mp3")) storedDisk
  = Throw (TypeError "Cannot read properties of undefined (reading 'tracks')").
Proof.
  split; [reflexivity|]. split; [apply (bool_decide_unpack _); vm_compute; exact I|].
  repeat split; vm_compute; reflexivity.
Qed.

(** C9 (amended).  On a stored playlist, with a [replacementTrackId] that
    is the id of a catalog track and indices that address an existing
    track position ([tandaIndex] names a tanda of the playlist and
    [trackIndex] a position below its number of tracks), replace-track
    answers 200 and writes a playlist in which only that position changed:
    the tanda keeps its id, type, reasoning, number of tracks and every
    other track; every other tanda and all cortinas are as before; id,
    name, prompt, generationSource, agentDebug and createdAt are as before
    and [updatedAt] is the current time.  The replacement is looked up in
    the catalog only, so it may be a track that the playlist already
    contains. *)
Theorem postReplaceTrack_frame clock fits pid reqBody disk (playlist : Playlist) r a b t :
  readPlaylist pid disk = Some playlist ->
  field "replacementTrackId" reqBody = Some (JStr r) ->
  r ∈ id <$> libTracks (readLibrary disk) ->
  propertyKey (field "tandaIndex" reqBody) = KIndex a ->
  propertyKey (field "trackIndex" reqBody) = KIndex b ->
  tandas playlist !! N.to_nat a = Some t ->
  N.to_nat b < length (tracks t) ->
  exists updated replacement t',
    postReplaceTrack clock fits pid reqBody disk
    = Ret ({| status := 200; body := PlaylistBody updated |}, writePlaylist updated disk) /\
    replacement ∈ libTracks (readLibrary disk) /\ id replacement = r /\
    updated = stamped (nowIso clock) playlist (tandas updated) (cortinas playlist) /\
    length (tandas updated) = length (tandas playlist) /\
    tandas updated !! N.to_nat a = Some t' /\
    (forall k, k <> N.to_nat a -> tandas updated !! k = tandas playlist !! k) /\
    tandaId t' = tandaId t /\ type t' = type t /\ reasoning t' = reasoning t /\
    length (tracks t') = length (tracks t) /\
    tracks t' !! N.to_nat b = Some (Some replacement) /\
    (forall k, k <> N.to_nat b -> tracks t' !! k = tracks t !! k).
Proof.
  intros Hread Hr Hin Ha Hb Ht Hlt.
  destruct (findTrack_Some r _ Hin) as (replacement & Hfind & Hid & Hmem).
  pose proof (lookup_lt_Some _ _ _ Ht) as Hlen.
  eexists _, replacement, _. split.
  { rewrite <- Hr in Hfind. rewrite (postReplaceTrack_found _ _ _ _ _ _ _ Hread Hfind).
    rewrite (assignInTanda_in_range _ _ _ _ a b t Ha Hb Ht Hlt). cbn [bind]. cbv zeta.
    rewrite stringifyGrown_kept; [reflexivity|].
    cbn [stamped tandas].
    pose proof (slots_insert (tandas playlist) (N.to_nat a) t
                  {| tandaId := tandaId t; type := type t; reasoning := reasoning t;
                     tracks := <[N.to_nat b := Some replacement]> (tracks t) |} Ht) as Hs.
    cbn [tracks] in Hs. rewrite length_insert in Hs. lia. }
  cbn [stamped tandas cortinas withArrays].
  split; [done|]. split; [done|]. split; [done|].
  split; [by rewrite length_insert|].
  split; [by apply list_lookup_insert_eq|].
  split; [intros k Hk; by apply list_lookup_insert_ne|].
  cbn [tandaId type reasoning tracks].
  split; [done|]. split; [done|]. split; [done|].
  split; [by rewrite length_insert|].
  split; [by apply list_lookup_insert_eq|].
  intros k Hk. by apply list_lookup_insert_ne.
Qed.

(** Witness of C9: the first track of the first sample tanda is replaced
    by a track of the catalog. *)
Lemma postReplaceTrack_frame_witness :
  exists updated,
    postReplaceTrack sampleClock tight "playlist-1714500000000"
      (replaceRequest (int 0) (int 0) (JStr "t5.mp3")) storedDisk
    = Ret ({| status := 200; body := PlaylistBody updated |},
           writePlaylist updated storedDisk) /\
    updated = stamped (nowIso sampleClock) samplePlaylist (tandas updated)
                (cortinas samplePlaylist).
Proof.
  destruct (postReplaceTrack_frame sampleClock tight "playlist-1714500000000"
              (replaceRequest (int 0) (int 0) (JStr "t5.mp3")) storedDisk samplePlaylist
              "t5.mp3" 0%N 0%N
              (sampleTanda "1" "tango" ["t1.mp3"; "t2.mp3"; "t3.mp3"; "t4.mp3"]))
    as (updated & replacement & t' & Hrun & _ & _ & Hshape & _);
    try reflexivity.
  - apply (bool_decide_unpack _). vm_compute. exact I.
  - cbn. lia.
  - exists updated. by split.
Defined.

(** No check against the rest of the playlist: after the replacement
    above [t5.mp3] is in the first and in the second tanda. *)
Lemma postReplaceTrack_may_duplicate :
  postReplaceTrack sampleClock roomy "playlist-1714500000000"
    (replaceRequest (int 0) (int 0) (JStr "t5.mp3")) storedDisk
  = Ret ({| status := 200; body := PlaylistBody sampleReplaced |},
         writePlaylist sampleReplaced storedDisk) /\
  ((fun t => id <$> tracksOf t) <$> take 2 (tandas sampleReplaced))
  = [["t5.mp3"; "t2.mp3"; "t3.mp3"; "t4.mp3"]; ["t5.mp3"]].
Proof. split; vm_compute; reflexivity. Qed.

(** * Further properties of the code *)

(** ** shuffle *)

Lemma shuffle_loop_cursor {A} rng n cur (copy : list A) :
  (shuffle_loop rng n cur copy).2 = cur + n.
Proof.
  revert cur copy. induction n as [|n IH]; intros cur copy; cbn [shuffle_loop].
  - cbn. lia.
  - rewrite IH. lia.
Qed.

(** X1.  [shuffle] returns a rearrangement of its argument (same elements,
    same multiplicities, hence the same length) and reads exactly
    [length - 1] random draws, none for an empty or one-element array. *)
Theorem shuffle_rearranges {A} (rng : nat -> nat) (cur : nat) (arr : list A) :
  (shuffle rng cur arr).1 ≡ₚ arr /\
  length (shuffle rng cur arr).1 = length arr /\
  (shuffle rng cur arr).2 = cur + (length arr - 1).
Proof.
  split; [apply shuffle_Permutation|]. split.
  - by rewrite shuffle_Permutation.
  - apply shuffle_loop_cursor.
Qed.

(** ** groupByStyle *)

Lemma filed_partition (ts : list Track) :
  filedUnder "tango" ts ++ filedUnder "vals" ts ++ filedUnder "milonga" ts
    ++ filedUnder "cortina" ts ≡ₚ ts.
Proof.
  induction ts as [|t ts IH]; [done|].
  unfold filedUnder in *. rewrite !filter_cons.
  pose proof (bucketName_cases (style t)) as Hc.
  repeat case_decide; try congruence; try (exfalso; tauto); cbn [app].
  - by rewrite IH.
  - rewrite <- Permutation_middle. by rewrite IH.
  - rewrite app_assoc, <- Permutation_middle, <- app_assoc. by rewrite IH.
  - rewrite !app_assoc, <- Permutation_middle, <- !app_assoc. by rewrite IH.
Qed.

Lemma bucketName_style k s :
  k = "vals" \/ k = "milonga" \/ k = "cortina" -> (bucketName s = k <-> s = k).
Proof.
  intros Hin. unfold bucketName.
  destruct (String.eqb_spec s "tango") as [->|?].
  { split; intros <-; destruct Hin as [?|[?|?]]; discriminate. }
  destruct (String.eqb_spec s "vals") as [->|?]; [done|].
  destruct (String.eqb_spec s "milonga") as [->|?]; [done|].
  destruct (String.eqb_spec s "cortina") as [->|?]; [done|].
  split; [intros <-; destruct Hin as [?|[?|?]]; discriminate
         | intros ->; destruct Hin as [?|[?|?]]; done].
Qed.

Lemma filedUnder_style k (ts : list Track) :
  k = "vals" \/ k = "milonga" \/ k = "cortina" ->
  filedUnder k ts = filter (fun t => style t = k) ts.
Proof. intros Hk. apply list_filter_iff. intros t. by apply bucketName_style. Qed.

(** X2.  [groupByStyle] returns exactly on the catalogs in which no track
    has a style named like a member of [Object.prototype]; on the others
    it raises a TypeError, the inherited member being taken for a bucket.
    When it returns, every track of the catalog is filed under exactly one
    of the four keys, in catalog order: a bucket holds the tracks whose
    style is its key, and the tango bucket also holds every track whose
    style is none of the four keys, so no track is dropped or filed
    twice. *)
Theorem groupByStyle_partitions (library : Library) :
  ((exists g, groupByStyle library = Ret g) <-> groupable library) /\
  (~ groupable library ->
   groupByStyle library = Throw (TypeError "grouped[style].push is not a function")) /\
  forall g, groupByStyle library = Ret g ->
    g_tango g = filter (fun t => bucketName (style t) = "tango") (libTracks library) /\
    g_vals g = filter (fun t => style t = "vals") (libTracks library) /\
    g_milonga g = filter (fun t => style t = "milonga") (libTracks library) /\
    g_cortina g = filter (fun t => style t = "cortina") (libTracks library) /\
    g_tango g ++ g_vals g ++ g_milonga g ++ g_cortina g ≡ₚ libTracks library.
Proof.
  split; [|split].
  - split.
    + intros [g Hg]. by apply groupByStyle_Ret in Hg as [? _].
    + intros Hg. exists (grouping library). by apply groupByStyle_groupable.
  - apply groupByStyle_stuck.
  - intros g Hg. apply groupByStyle_Ret in Hg as [_ ->].
    cbn [grouping g_tango g_vals g_milonga g_cortina].
    split; [done|].
    split; [apply filedUnder_style; by left|].
    split; [apply filedUnder_style; right; by left|].
    split; [apply filedUnder_style; right; by right|].
    apply filed_partition.
Qed.

Lemma groupByStyle_partitions_witness :
  exists g, groupByStyle sampleLibrary = Ret g /\
            g_vals g = filter (fun t => style t = "vals") (libTracks sampleLibrary).
Proof.
  destruct (groupByStyle_partitions sampleLibrary) as (Hiff & _ & Hall).
  destruct (proj2 Hiff) as [g Hg].
  - apply (bool_decide_unpack _). vm_compute. exact I.
  - exists g. split; [exact Hg|]. by destruct (Hall g Hg) as (_ & ? & _).
Defined.

(** ** Looking tracks up by id *)

Lemma trackMapOf_snoc ts t : trackMapOf (ts ++ [t]) = <[id t := t]> (trackMapOf ts).
Proof. unfold trackMapOf. by rewrite foldl_app. Qed.

Lemma trackMapOf_last (ts : list Track) k : trackMapOf ts !! k = last (withId k ts).
Proof.
  induction ts as [|t ts IH] using rev_ind; [done|].
  rewrite trackMapOf_snoc. unfold withId in *. rewrite filter_app, filter_cons, filter_nil.
  destruct (decide (id t = k)) as [<-|Hne].
  - by rewrite lookup_insert_eq, last_snoc.
  - by rewrite lookup_insert_ne, app_nil_r.
Qed.

Lemma findTrack_head (ts : list Track) k :
  findTrack (Some (JStr k)) ts = head (withId k ts).
Proof.
  unfold findTrack, withId. induction ts as [|t ts IH]; [done|].
  cbn [List.find strict_eq_string]. rewrite filter_cons.
  destruct (String.eqb_spec k (id t)) as [->|Hne].
  - by rewrite decide_True.
  - rewrite decide_False by congruence. exact IH.
Qed.

Lemma withId_absent (ts : list Track) k : k ∉ id <$> ts -> withId k ts = [].
Proof.
  unfold withId. induction ts as [|x ts IH]; intros Hk; [done|].
  rewrite fmap_cons in Hk. apply not_elem_of_cons in Hk as [Hne Hk].
  rewrite filter_cons, decide_False by done. by apply IH.
Qed.

Lemma withId_NoDup (ts : list Track) t :
  NoDup (id <$> ts) -> t ∈ ts -> withId (id t) ts = [t].
Proof.
  induction ts as [|x ts IH]; intros Hnd Hin.
  - by apply elem_of_nil in Hin.
  - rewrite fmap_cons in Hnd. apply NoDup_cons in Hnd as [Hx Hnd].
    unfold withId. rewrite filter_cons. apply elem_of_cons in Hin as [->|Hin].
    + rewrite decide_True by done. f_equal. by apply withId_absent.
    + rewrite decide_False; [by apply IH|].
      intros Hx'. apply Hx. rewrite Hx'. apply list_elem_of_fmap. eauto.
Qed.

(** X3.  The hydrator's [Map] returns the last catalog track with a given
    id and [find], used by replace-track, returns the first; a value that
    is not a string finds nothing. *)
Theorem lookup_last_and_first (ts : list Track) :
  (forall k, trackMapOf ts !! k = last (filter (fun t => id t = k) ts)) /\
  (forall k, findTrack (Some (JStr k)) ts = head (filter (fun t => id t = k) ts)) /\
  (forall v, (forall k, v <> Some (JStr k)) -> findTrack v ts = None).
Proof.
  split; [apply trackMapOf_last|]. split; [apply findTrack_head|].
  intros v Hv. apply findTrack_None. intros t _. apply Hv.
Qed.

(** X4.  When the ids of the catalog are pairwise distinct, looking a
    catalog track up by its id gives back that track, through the [Map] and
    through [find] alike, and an id of no track gives nothing. *)
Theorem lookup_by_id (ts : list Track) :
  NoDup (id <$> ts) ->
  (forall t, t ∈ ts ->
     trackMapOf ts !! id t = Some t /\ findTrack (Some (JStr (id t))) ts = Some t) /\
  (forall k, k ∉ id <$> ts ->
     trackMapOf ts !! k = None /\ findTrack (Some (JStr k)) ts = None).
Proof.
  intros Hnd. split.
  - intros t Ht. rewrite trackMapOf_last, findTrack_head, (withId_NoDup _ _ Hnd Ht). done.
  - intros k Hk. by rewrite trackMapOf_last, findTrack_head, (withId_absent _ _ Hk).
Qed.

Lemma lookup_by_id_witness :
  NoDup (id <$> libTracks sampleLibrary) /\
  trackMapOf (libTracks sampleLibrary) !! "v1.mp3" = Some (sampleTrack "v1.mp3" "vals").
Proof.
  assert (H : NoDup (id <$> libTracks sampleLibrary))
    by (apply (bool_decide_unpack (NoDup _)); vm_compute; exact I).
  split; [exact H|].
  refine (proj1 (proj1 (lookup_by_id _ H) (sampleTrack "v1.mp3" "vals") _)).
  apply (bool_decide_unpack _). vm_compute. exact I.
Defined.

(** ** What hydration keeps *)

Lemma trackMapOf_is_Some (ts : list Track) k :
  k ∈ id <$> ts -> exists t, trackMapOf ts !! k = Some t.
Proof.
  intros Hk. rewrite trackMapOf_last.
  apply list_elem_of_fmap in Hk as (t & -> & Ht).
  assert (Hin : t ∈ withId (id t) ts) by (apply list_elem_of_filter; by split).
  destruct (withId (id t) ts) as [|x l] using rev_ind.
  - by apply elem_of_nil in Hin.
  - exists x. by rewrite last_snoc.
Qed.

Lemma resolve_names (ts : list Track) (names : list string) :
  id <$> omap (resolve (trackMapOf ts)) (JStr <$> names) = known ts names.
Proof.
  unfold known. induction names as [|k names IH]; [done|].
  rewrite fmap_cons, omap_cons_unfold, filter_cons. cbn [resolve].
  destruct (decide (k ∈ id <$> ts)) as [Hk|Hk].
  - destruct (trackMapOf_is_Some ts k Hk) as [t Ht]. rewrite Ht, fmap_cons, IH.
    by destruct (trackMapOf_lookup _ _ _ Ht) as [_ ->].
  - destruct (trackMapOf ts !! k) as [t|] eqn:Ht; [|exact IH].
    destruct (trackMapOf_lookup _ _ _ Ht) as [Hin <-].
    exfalso. apply Hk. apply list_elem_of_fmap. eauto.
Qed.

Lemma known_all (ts : list Track) (names : list string) :
  Forall (fun k => k ∈ id <$> ts) names -> known ts names = names.
Proof.
  unfold known. induction 1 as [|k names Hk _ IH]; [done|].
  by rewrite filter_cons, decide_True, IH.
Qed.

(** X5.  In the tanda hydrated from a validated plan's entry [i] whose
    [trackIds] are the strings [names], the track ids are the names that
    are catalog ids, in the plan's order, cut after the pattern size of
    position [i]; no position is empty.  So an entry whose names all
    resolve and fit the size comes back with exactly its ids, and each
    name that does not resolve shortens the tanda by one at most. *)
Theorem hydrateTandas_ids (plan : json) (library : Library) i entry names :
  validatePlanShape (Some plan) = Ret true ->
  rawEntries plan !! i = Some entry ->
  prop "trackIds" entry = Some (JArr (JStr <$> names)) ->
  exists ts t n,
    hydrateTandas plan library = Ret ts /\
    ts !! i = Some t /\
    patternSizes !! i = Some n /\
    (None ∉ tracks t) /\
    id <$> tracksOf t = take n (known (libTracks library) names) /\
    (Forall (fun k => k ∈ id <$> libTracks library) names -> length names <= n ->
     id <$> tracksOf t = names).
Proof.
  intros Hv Hentry Hids.
  destruct (hydrateTandas_validated plan library Hv) as (ts & Hts & Hlen & Hall).
  assert (Hraw : length (rawEntries plan) = 6).
  { apply validatePlanShape_wellShaped in Hv as (p & entries & [= <-] & Ht & Hl & _).
    unfold rawEntries. by rewrite Ht. }
  assert (Hi : i < 6) by (rewrite <- Hraw; by eapply lookup_lt_Some).
  destruct (lookup_lt_is_Some_2 ts i) as [t Ht]; [lia|].
  destruct (lookup_lt_is_Some_2 patternSizes i) as [n Hn]; [simpl; lia|].
  destruct (Hall i t Ht) as (entry' & ids & Hentry' & Hids' & _ & Htracks).
  rewrite Hentry in Hentry'. injection Hentry' as <-.
  rewrite Hids in Hids'. injection Hids' as <-.
  rewrite Hn in Htracks. cbn [slice0] in Htracks.
  assert (Hof : id <$> tracksOf t = take n (known (libTracks library) names)).
  { unfold tracksOf. rewrite Htracks, omap_Some_fmap, fmap_take. by rewrite resolve_names. }
  exists ts, t, n. repeat split; try done.
  - rewrite Htracks. intros H. apply list_elem_of_fmap in H as (? & ? & _). discriminate.
  - intros Hknown Hfit. rewrite Hof, (known_all _ _ Hknown). by apply take_ge.
Qed.

Lemma hydrateTandas_ids_witness :
  exists ts t,
    hydrateTandas planWithoutCortinas sampleLibrary = Ret ts /\
    ts !! 0 = Some t /\
    id <$> tracksOf t
    = take 4 (known (libTracks sampleLibrary)
                ["t1.mp3"; "t2.mp3"; "gone.mp3"; "t3.mp3"; "t4.mp3"; "t5.mp3"]).
Proof.
  destruct (hydrateTandas_ids planWithoutCortinas sampleLibrary 0
              (sampleEntry "tango"
                 ["t1.mp3"; "t2.mp3"; "gone.mp3"; "t3.mp3"; "t4.mp3"; "t5.mp3"])
              ["t1.mp3"; "t2.mp3"; "gone.mp3"; "t3.mp3"; "t4.mp3"; "t5.mp3"]
              eq_refl eq_refl eq_refl)
    as (ts & t & n & Hts & Ht & Hn & _ & Hids & _).
  injection Hn as <-. exists ts, t. by repeat split.
Defined.

(** X6.  When [cortinaTrackIds] is an array of strings, the cortinas of
    [hydratePlan] are the tracks of those names that are catalog ids, in
    order, six at most; the list holds no [null], so it is shorter than
    six whenever fewer than six names resolve. *)
Theorem hydratePlan_cortinas (plan : json) (library : Library) names h :
  prop "cortinaTrackIds" plan = Some (JArr (JStr <$> names)) ->
  hydratePlan plan library = Ret h ->
  (None ∉ plan_cortinas h) /\
  id <$> omap (fun o : option Track => o) (plan_cortinas h)
  = take 6 (known (libTracks library) names) /\
  length (plan_cortinas h) = length (known (libTracks library) names) `min` 6.
Proof.
  intros Hc Hh. unfold hydratePlan in Hh.
  apply bind_Ret_inv in Hh as (ts & _ & Hh).
  apply bind_Ret_inv in Hh as (cs & Hcs & [= <-]). cbn [plan_cortinas].
  rewrite (hydrateCortinas_array _ _ _ Hc) in Hcs. injection Hcs as <-.
  repeat split.
  - intros H. apply list_elem_of_fmap in H as (? & ? & _). discriminate.
  - by rewrite omap_Some_fmap, fmap_take, resolve_names.
  - rewrite length_fmap, length_take, <- (resolve_names (libTracks library) names).
    rewrite length_fmap. lia.
Qed.

Lemma hydratePlan_cortinas_witness :
  exists h,
    hydratePlan planFirstCortinaUnknown sampleLibrary = Ret h /\
    length (plan_cortinas h)
    = length (known (libTracks sampleLibrary)
                ["gone.mp3"; "c2.mp3"; "c3.mp3"; "c4.mp3"; "c5.mp3"; "c6.mp3"]) `min` 6.
Proof.
  destruct (hydratePlan planFirstCortinaUnknown sampleLibrary) as [h|e] eqn:Hh;
    [|vm_compute in Hh; discriminate Hh].
  exists h. split; [done|].
  exact (proj2 (proj2 (hydratePlan_cortinas planFirstCortinaUnknown sampleLibrary
                         ["gone.mp3"; "c2.mp3"; "c3.mp3"; "c4.mp3"; "c5.mp3"; "c6.mp3"]
                         h eq_refl Hh))).
Defined.

(** ** When the pipeline raises *)

Lemma resolveAll_raises tm e v :
  truthy v = true -> isArray v = false -> exists msg, resolveAll tm e v = Throw msg.
Proof.
  intros Ht Ha. unfold resolveAll, orEmptyMap. rewrite Ht.
  destruct v as [[]|]; try discriminate; cbn; eauto.
Qed.

Lemma resolveAll_returns tm e v :
  truthy v = false \/ isArray v = true -> exists r, resolveAll tm e v = Ret r.
Proof.
  intros [H|H].
  - rewrite (resolveAll_falsy _ _ _ H). eauto.
  - destruct v as [[]|]; try discriminate. rewrite resolveAll_array. eauto.
Qed.

Lemma hydratePlan_validated_raises plan library :
  validatePlanShape (Some plan) = Ret true ->
  (exists e, hydratePlan plan library = Throw e) <->
  truthy (prop "cortinaTrackIds" plan) = true /\
  isArray (prop "cortinaTrackIds" plan) = false.
Proof.
  intros Hv.
  destruct (hydrateTandas_validated plan library Hv) as (ts & Hts & _).
  unfold hydratePlan, hydrateCortinas. rewrite Hts. cbn [bind].
  set (c := prop "cortinaTrackIds" plan).
  destruct (truthy c) eqn:Ht; destruct (isArray c) eqn:Ha.
  - destruct (resolveAll_returns (trackMapOf (libTracks library)) "plan.cortinaTrackIds" c)
      as [r ->]; [by right|].
    cbn. split; [intros [e ?]; discriminate | intros [_ ?]; discriminate].
  - destruct (resolveAll_raises (trackMapOf (libTracks library)) "plan.cortinaTrackIds" c Ht Ha)
      as [msg ->].
    cbn. split; [done | eauto].
  - destruct (resolveAll_returns (trackMapOf (libTracks library)) "plan.cortinaTrackIds" c)
      as [r ->]; [by left|].
    cbn. split; [intros [e ?]; discriminate | intros [? _]; discriminate].
  - destruct (resolveAll_returns (trackMapOf (libTracks library)) "plan.cortinaTrackIds" c)
      as [r ->]; [by left|].
    cbn. split; [intros [e ?]; discriminate | intros [? _]; discriminate].
Qed.

Lemma postPlaylists_empty clock rng agent reqBody disk :
  libTracks (readLibrary disk) = [] ->
  postPlaylists clock rng agent reqBody disk
  = Ret ({| status := 400; body := ErrorBody "Library is empty. Scan library first." |}, disk).
Proof. intros H. unfold postPlaylists. by rewrite H. Qed.

(** X7.  [POST /api/playlists] raises, answering nothing and storing
    nothing, in exactly two situations, both with a library that is not
    empty: the proposer delivered a candidate that passed validation and
    that candidate's [cortinaTrackIds] is a truthy value that is not an
    array, so that [hydratePlan] raises; or no valid candidate was
    obtained and some track of the library has a style named like a member
    of [Object.prototype], so that the fallback planner raises.  In every
    other situation, whatever the proposer did, the handler answers. *)
Theorem postPlaylists_raises_iff clock rng agent reqBody disk :
  (exists e, postPlaylists clock rng agent reqBody disk = Throw e) <->
  libTracks (readLibrary disk) <> [] /\
  ((exists p,
      validCandidate agent = Some p /\
      truthy (prop "cortinaTrackIds" p) = true /\
      isArray (prop "cortinaTrackIds" p) = false) \/
   (validCandidate agent = None /\ ~ groupable (readLibrary disk))).
Proof.
  destruct (libTracks (readLibrary disk)) as [|t0 ts0] eqn:Hlib.
  { rewrite (postPlaylists_empty _ _ _ _ _ Hlib).
    split; [intros [e ?]; discriminate | intros [? _]; done]. }
  assert (Hne : libTracks (readLibrary disk) <> []) by by rewrite Hlib.
  pose proof (postPlaylists_outcomes clock rng agent reqBody disk Hne) as H.
  destruct (validCandidate agent) as [p|] eqn:Hcand.
  - pose proof (hydratePlan_validated_raises p (readLibrary disk)
                  (validCandidate_valid _ _ Hcand)) as Hiff.
    destruct (hydratePlan p (readLibrary disk)) as [h|e] eqn:Hh.
    + destruct H as (playlist & -> & _). split.
      * intros [e ?]. discriminate.
      * intros (_ & [(q & [= <-] & Ht & Ha)|[? _]]); [|discriminate].
        destruct (proj2 Hiff (conj Ht Ha)) as [e ?]. discriminate.
    + rewrite H. split; [|eauto].
      intros _. split; [done|]. left. exists p. split; [done|]. apply Hiff. eauto.
  - destruct (fallbackPlaylistPlan rng (readLibrary disk)) as [h|e] eqn:Hh.
    + destruct H as (playlist & -> & _). split.
      * intros [e ?]. discriminate.
      * intros (_ & [(q & ? & _)|[_ Hn]]); [discriminate|].
        by apply fallbackPlaylistPlan_Ret in Hh as [? _].
    + rewrite H. split; [|eauto].
      intros _. split; [done|]. right. split; [done|].
      intros Hg. by rewrite (fallbackPlaylistPlan_groupable _ _ Hg) in Hh.
Qed.

(** ** What the proposer step lets through *)

Lemma mapM_get_type_returns (entries : list json) :
  JNull ∉ entries ->
  mapM (fun t => get "type" (Some t)) entries = Ret (prop "type" <$> entries).
Proof.
  induction entries as [|t entries IH]; intros Hn; [done|].
  apply not_elem_of_cons in Hn as [Ht Hn].
  cbn [mapM]. rewrite (IH Hn). by destruct t.
Qed.

Lemma mapM_get_type_raises (entries : list json) :
  JNull ∈ entries -> exists e, mapM (fun t => get "type" (Some t)) entries = Throw e.
Proof.
  induction entries as [|t entries IH]; intros Hn.
  - by apply elem_of_nil in Hn.
  - cbn [mapM]. destruct t; [cbn; eauto| | | | |];
      (apply elem_of_cons in Hn as [Heq|Hn]; [discriminate Heq|]);
      destruct (IH Hn) as [e He]; rewrite He; cbn; eauto.
Qed.

(** X8.  The proposer step hands a parsed answer on exactly when the
    answer is not [null] and its [tandas] is falsy or an array without a
    [null] entry; otherwise building the debug summary raises, inside the
    handler's [try] block, so that such an answer is never validated or
    hydrated and the fallback plan is used. *)
Theorem createPlanWithAgent_returns_iff (p : json) :
  ((exists debug, createPlanWithAgent (Answers (Ret p)) = Ret (Some p, debug)) <->
   p <> JNull /\
   (truthy (prop "tandas" p) = false \/
    exists entries, prop "tandas" p = Some (JArr entries) /\ JNull ∉ entries)) /\
  ((exists e, createPlanWithAgent (Answers (Ret p)) = Throw e) ->
   validCandidate (Answers (Ret p)) = None).
Proof.
  split.
  2:{ intros [e He]. unfold validCandidate. by rewrite He. }
  unfold createPlanWithAgent. split.
  - intros [debug H].
    apply bind_Ret_inv in H as (plan & [= <-] & H).
    apply bind_Ret_inv in H as (tandas & Hget & H).
    apply bind_Ret_inv in H as (types & Htypes & _).
    apply get_Ret_inv in Hget as [Hnull ->]. split; [done|].
    unfold orEmptyMap in Htypes.
    destruct (truthy (prop "tandas" p)) eqn:Ht; [|by left]. right.
    destruct (prop "tandas" p) as [[| | | |entries|]|]; try discriminate.
    exists entries. split; [done|]. intros Hin.
    destruct (mapM_get_type_raises entries Hin) as [e He].
    rewrite He in Htypes. discriminate.
  - intros [Hnull Hshape]. cbn [bind].
    assert (Hget : get "tandas" (Some p) = Ret (prop "tandas" p)) by by destruct p.
    rewrite Hget. cbn [bind]. unfold orEmptyMap.
    destruct Hshape as [Hf|(entries & He & Hn)].
    + rewrite Hf. cbn. eauto.
    + rewrite He. cbn [truthy]. rewrite (mapM_get_type_returns _ Hn). cbn. eauto.
Qed.

(** ** What playlist creation stores *)

Lemma postPlaylists_cases_debug clock rng agent reqBody disk :
  libTracks (readLibrary disk) <> [] ->
  postPlaylists clock rng agent reqBody disk =
    match validCandidate agent with
    | Some p =>
        let! h := hydratePlan p (readLibrary disk) in
        created (createdPlaylist clock reqBody "agent" (finalDebug agent) h) disk
    | None =>
        let! h := fallbackPlaylistPlan rng (readLibrary disk) in
        created (createdPlaylist clock reqBody "fallback" (finalDebug agent) h) disk
    end.
Proof.
  intros Hne. unfold postPlaylists, finalDebug.
  destruct (libTracks (readLibrary disk)) as [|t0 ts0] eqn:Hlib; [done|].
  cbn [length Nat.eqb]. clear Hlib Hne t0 ts0.
  destruct (createPlanWithAgent agent) as [[plan debug]|e] eqn:E.
  - rewrite (acceptedPlan_validCandidate _ _ _ E). cbn [bind].
    destruct (validCandidate agent) as [p|].
    + cbn [andb]. destruct (hydratePlan p (readLibrary disk)) as [h|err]; [|done].
      cbn [bind]. by rewrite (normalizePlaylist_present _ _ (plan_tandas h)).
    + destruct (fallbackPlaylistPlan rng (readLibrary disk)) as [h|err]; [|done].
      cbn [bind]. by rewrite (normalizePlaylist_present _ _ (plan_tandas h)).
  - assert (validCandidate agent = None) as -> by (unfold validCandidate; by rewrite E).
    cbn [acceptedPlan bind].
    destruct (fallbackPlaylistPlan rng (readLibrary disk)) as [h|err]; [|done].
    cbn [bind]. by rewrite (normalizePlaylist_present _ _ (plan_tandas h)).
Qed.

Lemma writePlaylist_read (p : Playlist) disk :
  readPlaylist (playlistId p) (writePlaylist p disk) = Some p /\
  libraryFile (writePlaylist p disk) = libraryFile disk /\
  forall k, k <> playlistId p ->
    readPlaylist k (writePlaylist p disk) = readPlaylist k disk.
Proof.
  unfold readPlaylist, writePlaylist. cbn. split; [apply lookup_insert_eq|].
  split; [done|]. intros k Hk. by apply lookup_insert_ne.
Qed.

(** X9.  Whenever [POST /api/playlists] answers, either the library is
    empty, the answer is the 400 error and the disk is as before, or the
    answer is 201 with a playlist of six tandas that is stored under the id
    [playlist-<ms>] (reading that id back gives the answered playlist),
    created and updated at the times the handler read, with source [fallback]
    exactly when no valid candidate was obtained and [agent] otherwise;
    the library file and every other playlist document are as before. *)
Theorem postPlaylists_answers clock rng agent reqBody disk response disk' :
  postPlaylists clock rng agent reqBody disk = Ret (response, disk') ->
  (libTracks (readLibrary disk) = [] /\ response = emptyLibrary /\ disk' = disk) \/
  (libTracks (readLibrary disk) <> [] /\
   exists p,
     response = {| status := 201; body := PlaylistBody p |} /\
     disk' = writePlaylist p disk /\
     readPlaylist (playlistId p) disk' = Some p /\
     libraryFile disk' = libraryFile disk /\
     (forall k, k <> playlistId p -> readPlaylist k disk' = readPlaylist k disk) /\
     playlistId p = "playlist-" +:+ pretty (nowMs clock) /\
     createdAt p = createdIso clock /\
     updatedAt p = Some (nowIso clock) /\
     length (tandas p) = 6 /\
     (generationSource p = "fallback" <-> validCandidate agent = None) /\
     (generationSource p = "agent" <-> exists c, validCandidate agent = Some c)).
Proof.
  intros Hrun.
  destruct (libTracks (readLibrary disk)) as [|t0 ts0] eqn:Hlib.
  { left. rewrite (postPlaylists_empty _ _ _ _ _ Hlib) in Hrun.
    injection Hrun as <- <-. done. }
  right. split; [done|].
  assert (Hne : libTracks (readLibrary disk) <> []) by by rewrite Hlib.
  pose proof (postPlaylists_outcomes clock rng agent reqBody disk Hne) as Hlen.
  rewrite (postPlaylists_cases_debug _ _ _ _ _ Hne) in Hrun, Hlen.
  destruct (validCandidate agent) as [c|] eqn:Hcand.
  - destruct (hydratePlan c (readLibrary disk)) as [h|e]; [|discriminate].
    cbn [bind] in Hrun. unfold created in Hrun. injection Hrun as <- <-.
    destruct Hlen as (q & Hq & _ & _ & _ & Hl). unfold created in Hq.
    injection Hq as Hq. rewrite <- Hq in Hl.
    eexists. split; [reflexivity|]. split; [reflexivity|].
    destruct (writePlaylist_read (createdPlaylist clock reqBody "agent" (finalDebug agent) h)
                disk) as (R1 & R2 & R3).
    repeat split; try done; try (intros; discriminate); eauto.
  - destruct (fallbackPlaylistPlan rng (readLibrary disk)) as [h|e]; [|discriminate].
    cbn [bind] in Hrun. unfold created in Hrun. injection Hrun as <- <-.
    destruct Hlen as (q & Hq & _ & Hl). unfold created in Hq.
    injection Hq as Hq. rewrite <- Hq in Hl.
    eexists. split; [reflexivity|]. split; [reflexivity|].
    destruct (writePlaylist_read
                (createdPlaylist clock reqBody "fallback" (finalDebug agent) h) disk)
      as (R1 & R2 & R3).
    repeat split; try done; try (intros; discriminate).
    intros [c ?]. discriminate.
Qed.

Lemma sample_creation_runs :
  postPlaylists sampleClock (fun k => k) NoApiKey None sampleDisk
  = created (createdPlaylist sampleClock None "fallback" (finalDebug NoApiKey)
               (planFrom (fun k => k) (grouping sampleLibrary))) sampleDisk.
Proof.
  rewrite postPlaylists_cases_debug by done.
  change (validCandidate NoApiKey) with (@None json). cbv iota.
  change (readLibrary sampleDisk) with sampleLibrary.
  by rewrite (fallbackPlaylistPlan_groupable _ _ sampleLibrary_groupable).
Qed.

Lemma postPlaylists_answers_witness :
  exists response disk',
    postPlaylists sampleClock (fun k => k) NoApiKey None sampleDisk = Ret (response, disk') /\
    (libTracks (readLibrary sampleDisk) = [] \/
     exists p, response = {| status := 201; body := PlaylistBody p |} /\
               readPlaylist (playlistId p) disk' = Some p).
Proof.
  eexists _, _. split; [exact sample_creation_runs|].
  destruct (postPlaylists_answers _ _ _ _ _ _ _ sample_creation_runs)
    as [(Hl & _)|(_ & p & Hr & _ & Hread & _)].
  - by left.
  - right. exists p. by split.
Defined.

(** X10.  The stored debug record carries the validation note exactly
    when the fallback plan was used although the proposer had handed an
    answer on; without an API key or after a failed call the record is
    disabled and carries the reason instead. *)
Theorem postPlaylists_debug clock rng agent reqBody disk p disk' :
  postPlaylists clock rng agent reqBody disk
  = Ret ({| status := 201; body := PlaylistBody p |}, disk') ->
  agentDebug p = finalDebug agent /\
  (validation (agentDebug p) = Some invalidShapeNote <->
   generationSource p = "fallback" /\
   exists plan debug, createPlanWithAgent agent = Ret (plan, debug) /\ enabled debug = true) /\
  ((agent = NoApiKey \/ exists e, createPlanWithAgent agent = Throw e) ->
   enabled (agentDebug p) = false /\ validation (agentDebug p) = None /\
   exists why, reason (agentDebug p) = Some why).
Proof.
  intros Hrun.
  destruct (libTracks (readLibrary disk)) as [|t0 ts0] eqn:Hlib.
  { rewrite (postPlaylists_empty _ _ _ _ _ Hlib) in Hrun. discriminate. }
  assert (Hne : libTracks (readLibrary disk) <> []) by by rewrite Hlib.
  rewrite (postPlaylists_cases_debug _ _ _ _ _ Hne) in Hrun.
  assert (Hp : agentDebug p = finalDebug agent /\
               (generationSource p = "fallback" <-> validCandidate agent = None)).
  { destruct (validCandidate agent) as [c|].
    - destruct (hydratePlan c (readLibrary disk)) as [h|e]; [|discriminate].
      cbn [bind] in Hrun. unfold created in Hrun. injection Hrun as <- _.
      split; [done|]. split; discriminate.
    - destruct (fallbackPlaylistPlan rng (readLibrary disk)) as [h|e]; [|discriminate].
      cbn [bind] in Hrun. unfold created in Hrun. injection Hrun as <- _. done. }
  destruct Hp as [Hd Hsrc]. rewrite Hd. split; [done|].
  unfold finalDebug.
  destruct (createPlanWithAgent agent) as [[plan debug]|e] eqn:E.
  - split.
    + assert (Hnone : validation debug = None).
      { destruct agent as [| |parsed]; cbn [createPlanWithAgent] in E.
        - by injection E as _ <-.
        - discriminate.
        - apply bind_Ret_inv in E as (q & _ & E).
          apply bind_Ret_inv in E as (tandas & _ & E).
          apply bind_Ret_inv in E as (types & _ & [= _ <-]). done. }
      destruct (validCandidate agent) as [c|]; cbn [andb].
      * rewrite Hnone. split; [discriminate|]. intros [Hf _].
        apply Hsrc in Hf. discriminate.
      * destruct (enabled debug) eqn:He; cbn [validation].
        -- split; [|done]. intros _. split; [by apply Hsrc|]. eauto.
        -- rewrite Hnone. split; [discriminate|].
           intros (_ & plan' & debug' & [= _ <-] & He'). congruence.
    + intros [->|[e' He']]; [|discriminate].
      cbn [createPlanWithAgent] in E. injection E as <- <-.
      cbn. eauto.
  - split.
    + cbn. split; [discriminate|]. intros (_ & plan & debug & ? & _). discriminate.
    + intros _. cbn. eauto.
Qed.

Lemma postPlaylists_debug_witness :
  postPlaylists sampleClock (fun k => k) NoApiKey None sampleDisk
  = created (createdPlaylist sampleClock None "fallback" (finalDebug NoApiKey)
               (planFrom (fun k => k) (grouping sampleLibrary))) sampleDisk /\
  enabled (finalDebug NoApiKey) = false.
Proof.
  split; [exact sample_creation_runs|].
  exact (proj1 (proj2 (proj2 (postPlaylists_debug _ _ _ _ _ _ _ sample_creation_runs))
                  (or_introl eq_refl))).
Defined.

(** ** Where the fallback planner takes its tracks from *)

Lemma poolOf_elem s library t :
  t ∈ poolOf s (grouping library) ->
  t ∈ libTracks library /\ bucketName (style t) = s.
Proof.
  unfold poolOf, bucket, grouping, filedUnder. cbn [g_tango g_vals g_milonga g_cortina].
  destruct (String.eqb_spec s "tango") as [->|?];
    [intros H; by apply list_elem_of_filter in H as [? ?]|].
  destruct (String.eqb_spec s "vals") as [->|?];
    [intros H; by apply list_elem_of_filter in H as [? ?]|].
  destruct (String.eqb_spec s "milonga") as [->|?];
    [intros H; by apply list_elem_of_filter in H as [? ?]|].
  destruct (String.eqb_spec s "cortina") as [->|?];
    [intros H; by apply list_elem_of_filter in H as [? ?]|].
  destruct (bool_decide _); intros H; by apply elem_of_nil in H.
Qed.

Lemma chosen_from_pool {A} rng cur (P : A -> Prop) `{!forall x, Decision (P x)}
    n (pool : list A) x :
  x ∈ take n (filter P (shuffle rng cur pool).1) -> x ∈ pool /\ P x.
Proof.
  intros Hx. apply subseteq_take in Hx. apply list_elem_of_filter in Hx as [HP Hx].
  split; [|done]. by rewrite shuffle_Permutation in Hx.
Qed.

Lemma fallbackTandas_from_pools rng grouped slots : forall used cur idx,
  Forall2 (fun t (slot : string * nat) =>
             forall track, track ∈ tracksOf t -> track ∈ poolOf slot.1 grouped)
          (fallbackTandas rng grouped used cur idx slots).1.1 slots.
Proof.
  induction slots as [|[s n] rest IH]; intros used cur idx; simpl; [constructor|].
  destruct (shuffle rng cur (poolOf s grouped)) as [shuffled cur1] eqn:Hsh.
  specialize (IH (addAll used (take n (filter (fun track => id track ∉ used) shuffled)))
                 cur1 (S idx)).
  destruct (fallbackTandas rng grouped _ cur1 (S idx) rest) as [[ts1 used2] cur2].
  cbn [fst] in *. constructor; [|exact IH].
  intros track Ht. unfold tracksOf in Ht. cbn [tracks fst] in *.
  rewrite omap_Some_fmap in Ht.
  assert (Hs : shuffled = (shuffle rng cur (poolOf s grouped)).1) by by rewrite Hsh.
  rewrite Hs in Ht. by apply chosen_from_pool in Ht as [? _].
Qed.

(** X11.  Every track of a plan the fallback planner returns is accounted
    for: a track put into a tanda is a track of the catalog filed under
    the slot's style (so a tango slot may hold a track of an unrecognised
    style, and no tanda holds a cortina), and every cortina assigned is a
    catalog track that is cortina-styled when the catalog has any
    cortina-styled track and is filed under tango otherwise. *)
Theorem fallbackPlaylistPlan_provenance (rng : nat -> nat) (library : Library) plan :
  fallbackPlaylistPlan rng library = Ret plan ->
  Forall2
    (fun t (slot : string * nat) =>
       forall track, track ∈ tracksOf t ->
         track ∈ libTracks library /\ bucketName (style track) = slot.1)
    (plan_tandas plan) pattern /\
  forall c, Some c ∈ plan_cortinas plan ->
    c ∈ libTracks library /\
    bucketName (style c)
    = (if length (filter (fun t => style t = "cortina") (libTracks library)) =? 0
       then "tango" else "cortina").
Proof.
  intros Hrun. apply fallbackPlaylistPlan_Ret in Hrun as [_ ->]. unfold planFrom.
  assert (Hpool : forall s track, track ∈ poolOf s (grouping library) ->
            track ∈ libTracks library /\ bucketName (style track) = s)
    by (intros s track; apply poolOf_elem).
  assert (H1 : g_tango (grouping library) = filedUnder "tango" (libTracks library)) by done.
  assert (H4 : g_cortina (grouping library) = filedUnder "cortina" (libTracks library))
    by done.
  set (grouped := grouping library) in *.
  pose proof (fallbackTandas_from_pools rng grouped pattern ∅ 0 0) as Hpools.
  destruct (fallbackTandas rng grouped ∅ 0 0 pattern) as [[ts used] cur].
  cbn [fst plan_tandas plan_cortinas] in *. split.
  - eapply Forall2_impl; [exact Hpools|]. cbn beta.
    intros t slot Hall track Ht. by apply Hpool, Hall.
  - intros c Hc. apply list_elem_of_lookup in Hc as [i Hi].
    rewrite list_lookup_imap in Hi.
    destruct (ts !! i); [|discriminate]. cbn [fmap option_fmap option_map] in Hi.
    injection Hi as Hi.
    apply list_elem_of_lookup_2 in Hi. apply list_elem_of_filter in Hi as [_ Hi].
    rewrite shuffle_Permutation in Hi.
    rewrite <- (filedUnder_style "cortina") by (right; by right).
    subst grouped. cbn [grouping g_tango g_cortina] in Hi.
    destruct (length (filedUnder "cortina" (libTracks library)) =? 0);
      by apply list_elem_of_filter in Hi as [? ?].
Qed.

Lemma fallbackPlaylistPlan_provenance_witness :
  exists plan,
    fallbackPlaylistPlan (fun k => 5 * k + 2) sampleLibrary = Ret plan /\
    forall c, Some c ∈ plan_cortinas plan -> c ∈ libTracks sampleLibrary.
Proof.
  exists (planFrom (fun k => 5 * k + 2) (grouping sampleLibrary)).
  assert (Hrun : fallbackPlaylistPlan (fun k => 5 * k + 2) sampleLibrary
                 = Ret (planFrom (fun k => 5 * k + 2) (grouping sampleLibrary)))
    by exact (fallbackPlaylistPlan_groupable _ _ sampleLibrary_groupable).
  split; [exact Hrun|].
  intros c Hc.
  exact (proj1 (proj2 (fallbackPlaylistPlan_provenance _ _ _ Hrun) c Hc)).
Defined.

(** ** When the fallback planner fills every slot *)

Lemma ids_injective (ts : list Track) t t' :
  NoDup (id <$> ts) -> t ∈ ts -> t' ∈ ts -> id t = id t' -> t = t'.
Proof.
  intros Hnd Ht Ht' Hid.
  assert (Hin : t' ∈ withId (id t) ts) by (apply list_elem_of_filter; by split).
  rewrite (withId_NoDup _ _ Hnd Ht) in Hin. by apply list_elem_of_singleton in Hin.
Qed.

Lemma free_plus_taken (used : gset string) (pool : list Track) :
  length (filter (fun t => id t ∉ used) pool) + taken used pool = length pool.
Proof.
  unfold taken. induction pool as [|t pool IH]; [done|].
  rewrite !filter_cons. destruct (decide (id t ∈ used)).
  - rewrite decide_False by tauto. cbn [length]. lia.
  - rewrite decide_True by done. cbn [length]. lia.
Qed.

Lemma taken_add_absent (used : gset string) k (pool : list Track) :
  k ∉ id <$> pool -> taken (used ∪ {[k]}) pool = taken used pool.
Proof.
  unfold taken. induction pool as [|t pool IH]; intros Hk; [done|].
  rewrite fmap_cons in Hk. apply not_elem_of_cons in Hk as [Hne Hk].
  rewrite !filter_cons. specialize (IH Hk).
  destruct (decide (id t ∈ used)) as [Hu|Hu].
  - rewrite decide_True by (apply elem_of_union; by left). cbn [length]. by rewrite IH.
  - rewrite decide_False; [exact IH|].
    intros [?|Hk']%elem_of_union; [done|]. apply elem_of_singleton in Hk'. congruence.
Qed.

Lemma taken_add_one (used : gset string) k (pool : list Track) :
  NoDup (id <$> pool) -> taken (used ∪ {[k]}) pool <= S (taken used pool).
Proof.
  induction pool as [|t pool IH]; intros Hnd; [cbn; lia|].
  rewrite fmap_cons in Hnd. apply NoDup_cons in Hnd as [Ht Hnd].
  specialize (IH Hnd). unfold taken in *. rewrite !filter_cons.
  destruct (decide (id t = k)) as [<-|Hne].
  - pose proof (taken_add_absent used (id t) pool Ht) as Hsame. unfold taken in Hsame.
    rewrite decide_True by (apply elem_of_union; right; by apply elem_of_singleton).
    cbn [length]. rewrite Hsame.
    destruct (decide (id t ∈ used)); cbn [length]; lia.
  - destruct (decide (id t ∈ used)) as [Hu|Hu].
    + rewrite decide_True by (apply elem_of_union; by left). cbn [length]. lia.
    + rewrite decide_False; [lia|].
      intros [?|Hk']%elem_of_union; [done|]. apply elem_of_singleton in Hk'. congruence.
Qed.

Lemma taken_addAll_le (chosen pool : list Track) (used : gset string) :
  NoDup (id <$> pool) -> taken (addAll used chosen) pool <= taken used pool + length chosen.
Proof.
  intros Hnd. unfold addAll. revert used.
  induction chosen as [|c chosen IH]; intros used; cbn [foldl length]; [lia|].
  etrans; [apply IH|]. pose proof (taken_add_one used (id c) pool Hnd). lia.
Qed.

Lemma taken_addAll_absent (chosen pool : list Track) (used : gset string) :
  (forall c, c ∈ chosen -> id c ∉ id <$> pool) ->
  taken (addAll used chosen) pool = taken used pool.
Proof.
  unfold addAll. revert used.
  induction chosen as [|c chosen IH]; intros used Hall; cbn [foldl]; [done|].
  rewrite IH by (intros c' Hc'; apply Hall, elem_of_cons; by right).
  apply taken_add_absent, Hall, elem_of_cons. by left.
Qed.

Lemma demand_cons s s0 n rest :
  demand s ((s0, n) :: rest) = (if decide (s0 = s) then n else 0) + demand s rest.
Proof.
  unfold demand. rewrite filter_cons. cbn [fst].
  destruct (decide (s0 = s)); cbn; lia.
Qed.

Section fullness.
Context (rng : nat -> nat) (grouped : Grouped).
Hypothesis pools_NoDup : forall s, NoDup (id <$> poolOf s grouped).
Hypothesis pools_apart : forall s s' t t',
  s <> s' -> t ∈ poolOf s grouped -> t' ∈ poolOf s' grouped -> id t <> id t'.

Lemma fallbackTandas_full slots : forall used cur idx ts used' cur',
  fallbackTandas rng grouped used cur idx slots = (ts, used', cur') ->
  (forall s, demand s slots + taken used (poolOf s grouped) <= length (poolOf s grouped)) ->
  Forall2 (fun t (slot : string * nat) => length (tracks t) = slot.2) ts slots /\
  forall s, taken used' (poolOf s grouped) <= taken used (poolOf s grouped) + demand s slots.
Proof.
  induction slots as [|[s0 n] rest IH]; intros used cur idx ts used' cur'; simpl.
  - intros [= <- <- <-] _. split; [constructor|]. intros s. lia.
  - destruct (shuffle rng cur (poolOf s0 grouped)) as [shuffled cur1] eqn:Hsh.
    set (chosen := take n (filter (fun track => id track ∉ used) shuffled)).
    destruct (fallbackTandas rng grouped (addAll used chosen) cur1 (S idx) rest)
      as [[ts1 used2] cur2] eqn:Hrest.
    intros [= <- <- <-] Hroom.
    assert (Hs : shuffled = (shuffle rng cur (poolOf s0 grouped)).1) by by rewrite Hsh.
    assert (Hfrom : forall c, c ∈ chosen -> c ∈ poolOf s0 grouped).
    { intros c Hc. unfold chosen in Hc. rewrite Hs in Hc.
      by apply chosen_from_pool in Hc as [? _]. }
    assert (Hfree : length (filter (fun track => id track ∉ used) shuffled)
                    + taken used (poolOf s0 grouped) = length (poolOf s0 grouped)).
    { rewrite Hs, shuffle_Permutation. apply free_plus_taken. }
    assert (Hn : length chosen = n).
    { unfold chosen. rewrite length_take.
      pose proof (Hroom s0) as H0. rewrite demand_cons, decide_True in H0 by done. lia. }
    destruct (IH _ _ _ _ _ _ Hrest) as [Hfull Hbound].
    { intros s. pose proof (Hroom s) as H0. rewrite demand_cons in H0.
      destruct (decide (s0 = s)) as [<-|Hne].
      - pose proof (taken_addAll_le chosen (poolOf s0 grouped) used (pools_NoDup s0)). lia.
      - rewrite taken_addAll_absent; [lia|].
        intros c Hc Hin. apply list_elem_of_fmap in Hin as (t' & Hid & Ht').
        by apply (pools_apart s0 s c t' Hne (Hfrom c Hc) Ht'). }
    split.
    + constructor; [|done]. cbn [tracks snd]. by rewrite length_fmap.
    + intros s. rewrite demand_cons. specialize (Hbound s).
      destruct (decide (s0 = s)) as [<-|Hne].
      * pose proof (taken_addAll_le chosen (poolOf s0 grouped) used (pools_NoDup s0)). lia.
      * rewrite taken_addAll_absent in Hbound; [lia|].
        intros c Hc Hin. apply list_elem_of_fmap in Hin as (t' & Hid & Ht').
        by apply (pools_apart s0 s c t' Hne (Hfrom c Hc) Ht').
Qed.
End fullness.

Lemma taken_empty (pool : list Track) : taken ∅ pool = 0.
Proof.
  unfold taken. induction pool as [|t pool IH]; [done|].
  rewrite filter_cons, decide_False by apply not_elem_of_empty. exact IH.
Qed.

(** X12.  On a catalog with pairwise distinct ids and no style named like
    a member of [Object.prototype] that files at least 16 tracks under
    tango, 3 under vals and 3 under milonga, the fallback planner returns
    a plan in which every tanda is filled to its slot size (4, 4, 3, 4, 4,
    3), whatever the random draws; if the catalog also has at least 6
    cortina-styled tracks, all six cortina slots hold a track. *)
Theorem fallbackPlaylistPlan_full (rng : nat -> nat) (library : Library) :
  NoDup (id <$> libTracks library) ->
  groupable library ->
  16 <= length (filter (fun t => bucketName (style t) = "tango") (libTracks library)) ->
  3 <= length (filter (fun t => style t = "vals") (libTracks library)) ->
  3 <= length (filter (fun t => style t = "milonga") (libTracks library)) ->
  exists plan,
    fallbackPlaylistPlan rng library = Ret plan /\
    Forall2 (fun t (slot : string * nat) => length (tracks t) = slot.2)
            (plan_tandas plan) pattern /\
    (6 <= length (filter (fun t => style t = "cortina") (libTracks library)) ->
     None ∉ plan_cortinas plan).
Proof.
  intros Hnd Hg Htango Hvals Hmilonga.
  exists (planFrom rng (grouping library)).
  split; [by apply fallbackPlaylistPlan_groupable|]. unfold planFrom.
  set (grouped := grouping library).
  assert (H1 : g_tango grouped = filedUnder "tango" (libTracks library)) by done.
  assert (H2 : g_vals grouped = filedUnder "vals" (libTracks library)) by done.
  assert (H3 : g_milonga grouped = filedUnder "milonga" (libTracks library)) by done.
  assert (H4 : g_cortina grouped = filedUnder "cortina" (libTracks library)) by done.
  rewrite <- (filedUnder_style "vals") in Hvals by by left.
  rewrite <- (filedUnder_style "milonga") in Hmilonga by (right; by left).
  assert (Hpools : forall s, NoDup (id <$> poolOf s grouped)).
  { intros s. eapply ids_NoDup_sublist; [apply poolOf_sublist | done]. }
  assert (Hapart : forall s s' t t', s <> s' -> t ∈ poolOf s grouped ->
            t' ∈ poolOf s' grouped -> id t <> id t').
  { intros s s' t t' Hne Ht Ht' Hid.
    apply poolOf_elem in Ht as [Ht Hs]. apply poolOf_elem in Ht' as [Ht' Hs'].
    apply Hne. rewrite <- Hs, <- Hs'. by rewrite (ids_injective _ t t' Hnd Ht Ht' Hid). }
  destruct (fallbackTandas rng grouped ∅ 0 0 pattern) as [[ts used] cur] eqn:E.
  pose proof (fallbackTandas_length rng grouped pattern ∅ 0 0) as Hlen.
  rewrite E in Hlen. cbn [fst] in Hlen.
  destruct (fallbackTandas_full rng grouped Hpools Hapart pattern _ _ _ _ _ _ E)
    as [Hfull Hbound].
  { intros s. rewrite taken_empty, Nat.add_0_r. unfold pattern. rewrite !demand_cons.
    change (demand s []) with 0.
    destruct (decide (s = "tango")) as [->|Ht].
    { change (poolOf "tango" grouped) with (g_tango grouped). rewrite H1.
      repeat case_decide; try congruence; unfold filedUnder; lia. }
    destruct (decide (s = "vals")) as [->|Hv].
    { change (poolOf "vals" grouped) with (g_vals grouped). rewrite H2.
      repeat case_decide; try congruence; lia. }
    destruct (decide (s = "milonga")) as [->|Hm].
    { change (poolOf "milonga" grouped) with (g_milonga grouped). rewrite H3.
      repeat case_decide; try congruence; lia. }
    repeat case_decide; try congruence; lia. }
  cbn [plan_tandas plan_cortinas]. split; [exact Hfull|].
  intros Hcort Hnone.
  rewrite <- (filedUnder_style "cortina") in Hcort by (right; by right).
  rewrite <- H4 in Hcort.
  apply list_elem_of_lookup in Hnone as [i Hi].
  rewrite list_lookup_imap in Hi.
  destruct (ts !! i) as [t|] eqn:Hti; [|discriminate].
  cbn [fmap option_fmap option_map] in Hi. injection Hi as Hi.
  apply lookup_lt_Some in Hti. apply lookup_ge_None in Hi.
  change (filedUnder "cortina" (libTracks library)) with (g_cortina grouped) in Hi.
  change (filedUnder "tango" (libTracks library)) with (g_tango grouped) in Hi.
  destruct (Nat.eqb_spec (length (g_cortina grouped)) 0) as [H0|_]; [lia|].
  pose proof (free_plus_taken used (shuffle rng cur (g_cortina grouped)).1) as Hfree.
  assert (Hzero : taken used (shuffle rng cur (g_cortina grouped)).1 = 0).
  { unfold taken. rewrite shuffle_Permutation.
    specialize (Hbound "cortina"). rewrite taken_empty in Hbound.
    change (poolOf "cortina" grouped) with (g_cortina grouped) in Hbound.
    assert (Hd : demand "cortina" pattern = 0) by (vm_compute; reflexivity).
    rewrite Hd in Hbound. unfold taken in Hbound. lia. }
  rewrite Hzero, Nat.add_0_r in Hfree.
  rewrite shuffle_Permutation in Hfree, Hi. change (length pattern) with 6 in Hlen. lia.
Qed.

Lemma fallbackPlaylistPlan_full_witness :
  NoDup (id <$> libTracks fullLibrary) /\
  exists plan,
    fallbackPlaylistPlan (fun k => 3 * k + 1) fullLibrary = Ret plan /\
    Forall2 (fun t (slot : string * nat) => length (tracks t) = slot.2)
            (plan_tandas plan) pattern.
Proof.
  assert (H : NoDup (id <$> libTracks fullLibrary))
    by (apply (bool_decide_unpack (NoDup _)); vm_compute; exact I).
  split; [exact H|].
  destruct (fallbackPlaylistPlan_full (fun k => 3 * k + 1) fullLibrary H)
    as (plan & Hrun & Hfull & _);
    try (apply (bool_decide_unpack _); vm_compute; exact I).
  exists plan. by split.
Defined.

(** ** move-tanda on arbitrary numbers *)

Lemma relativeStart_le len n : relativeStart len n <= len.
Proof.
  unfold relativeStart. destruct (toIntegerOrInfinity n) as [z| |]; [|lia..].
  destruct (Z.ltb_spec z 0); lia.
Qed.

Lemma splice_insert_fmap {A B} (f : A -> B) m x (l : list A) :
  splice_insert m (f x) (f <$> l) = f <$> splice_insert m x l.
Proof.
  unfold splice_insert. rewrite length_fmap, fmap_app, fmap_cons, fmap_take, fmap_drop. done.
Qed.

Lemma splice_remove1_delete {A} n (l : list A) :
  splice_remove1 n l
  = (l !! relativeStart (length l) n, delete (relativeStart (length l) n) l).
Proof. unfold splice_remove1. by rewrite delete_take_drop. Qed.

Lemma delete_fmap {A B} (f : A -> B) i (l : list A) : delete i (f <$> l) = f <$> delete i l.
Proof. by rewrite !delete_take_drop, fmap_app, fmap_take, fmap_drop. Qed.

Lemma delete_beyond {A} i (l : list A) : length l <= i -> delete i l = l.
Proof.
  intros Hi. rewrite delete_take_drop, take_ge, drop_ge by lia. apply app_nil_r.
Qed.

Lemma splice_insert_Permutation {A} m (x : A) l : splice_insert m x l ≡ₚ x :: l.
Proof.
  unfold splice_insert. rewrite <- Permutation_middle. by rewrite take_drop.
Qed.

Lemma postMoveTanda_numbers clock pid reqBody disk (playlist : Playlist) n m :
  readPlaylist pid disk = Some playlist ->
  field "fromIndex" reqBody = Some (JNum n) ->
  field "toIndex" reqBody = Some (JNum m) ->
  let s := relativeStart (length (tandas playlist)) n in
  let sc := relativeStart (length (cortinas playlist)) n in
  let cs := splice_insert m (mjoin (cortinas playlist !! sc)) (delete sc (cortinas playlist)) in
  match tandas playlist !! s with
  | Some t =>
      let updated :=
        stamped (nowIso clock) playlist (splice_insert m t (delete s (tandas playlist))) cs in
      postMoveTanda clock pid reqBody disk
      = Ret ({| status := 200; body := PlaylistBody updated |}, writePlaylist updated disk)
  | None => exists e, postMoveTanda clock pid reqBody disk = Throw e
  end.
Proof.
  intros Hread Hfrom Hto s sc cs.
  unfold postMoveTanda. rewrite Hread, Hfrom, Hto. cbn [number_of].
  rewrite !splice_remove1_delete, length_fmap, list_lookup_fmap, delete_fmap.
  fold s sc.
  destruct (tandas playlist !! s) as [t|] eqn:Ht;
    cbn [fmap option_fmap option_map mjoin option_join].
  - rewrite (splice_insert_fmap Some).
    by rewrite (normalizePlaylist_present _ _ (splice_insert m t (delete s (tandas playlist)))).
  - destruct (normalizePlaylist_undefined (nowIso clock)
                (withArrays playlist
                   (splice_insert m None (Some <$> delete s (tandas playlist))) cs))
      as [e He].
    { cbn [tandas withArrays]. unfold splice_insert.
      apply elem_of_app. right. apply elem_of_cons. by left. }
    exists e. fold cs. by rewrite He.
Qed.

(** X13.  Given two numbers of any value, move-tanda takes the position
    that [splice] derives from [fromIndex] (truncated, counted from the end
    when negative, capped at the length).  If a tanda is there, the request
    is answered 200 and the stored tandas are the old ones in a new order,
    the other fields but [updatedAt] being kept; if none is there (the
    position is the length), the handler raises and writes nothing. *)
Theorem postMoveTanda_any_numbers clock pid reqBody disk (playlist : Playlist) n m :
  readPlaylist pid disk = Some playlist ->
  field "fromIndex" reqBody = Some (JNum n) ->
  field "toIndex" reqBody = Some (JNum m) ->
  let s := relativeStart (length (tandas playlist)) n in
  (s < length (tandas playlist) ->
   exists updated,
     postMoveTanda clock pid reqBody disk
     = Ret ({| status := 200; body := PlaylistBody updated |}, writePlaylist updated disk) /\
     updated = stamped (nowIso clock) playlist (tandas updated) (cortinas updated) /\
     tandas updated ≡ₚ tandas playlist /\
     length (tandas updated) = length (tandas playlist)) /\
  (s = length (tandas playlist) ->
   exists e, postMoveTanda clock pid reqBody disk = Throw e) /\
  s <= length (tandas playlist).
Proof.
  intros Hread Hfrom Hto s.
  pose proof (postMoveTanda_numbers clock pid reqBody disk playlist n m Hread Hfrom Hto) as H.
  cbv zeta in H. fold s in H.
  split; [|split; [|apply relativeStart_le]].
  - intros Hs. destruct (lookup_lt_is_Some_2 _ _ Hs) as [t Ht]. rewrite Ht in H.
    eexists. split; [exact H|]. cbn [tandas cortinas stamped]. split; [done|].
    assert (Hperm : splice_insert m t (delete s (tandas playlist)) ≡ₚ tandas playlist).
    { rewrite splice_insert_Permutation. symmetry. by apply delete_Permutation. }
    split; [exact Hperm | by rewrite Hperm].
  - intros Hs. rewrite (proj2 (lookup_ge_None (tandas playlist) s)) in H by lia. exact H.
Qed.

Lemma postMoveTanda_any_numbers_witness :
  exists updated,
    postMoveTanda sampleClock "playlist-1714500000000"
      (moveRequest (int (-2)) (JNum (Finite (7 # 2)))) storedDisk
    = Ret ({| status := 200; body := PlaylistBody updated |},
           writePlaylist updated storedDisk) /\
    tandas updated ≡ₚ tandas samplePlaylist.
Proof.
  destruct (proj1 (postMoveTanda_any_numbers sampleClock "playlist-1714500000000"
                     (moveRequest (int (-2)) (JNum (Finite (7 # 2)))) storedDisk samplePlaylist
                     (Finite (inject_Z (-2))) (Finite (7 # 2)) eq_refl eq_refl eq_refl))
    as (updated & Hrun & _ & Hperm & _).
  - apply (bool_decide_unpack _). vm_compute. exact I.
  - exists updated. by split.
Defined.

(** X14.  move-tanda moves the cortina at the position [splice] derives
    from [fromIndex] in the cortina array; when that array has no such
    position (it is shorter than the tandas, as after hydrating a plan
    with few or no cortinas) nothing is removed and a [null] slot is
    inserted, so the cortina array grows by one; the cortinas that were
    present stay present. *)
Theorem postMoveTanda_cortina_slots clock pid reqBody disk (playlist updated : Playlist)
    n m disk' :
  readPlaylist pid disk = Some playlist ->
  field "fromIndex" reqBody = Some (JNum n) ->
  field "toIndex" reqBody = Some (JNum m) ->
  postMoveTanda clock pid reqBody disk
  = Ret ({| status := 200; body := PlaylistBody updated |}, disk') ->
  let sc := relativeStart (length (cortinas playlist)) n in
  cortinas updated ≡ₚ
    (if decide (sc < length (cortinas playlist)) then cortinas playlist
     else None :: cortinas playlist) /\
  length (cortinas updated)
  = (if decide (sc < length (cortinas playlist)) then length (cortinas playlist)
     else S (length (cortinas playlist))) /\
  (cortinas playlist = [] -> cortinas updated = [None]).
Proof.
  intros Hread Hfrom Hto Hrun sc.
  pose proof (postMoveTanda_numbers clock pid reqBody disk playlist n m Hread Hfrom Hto) as H.
  cbv zeta in H. fold sc in H.
  destruct (tandas playlist !! _) as [t|]; [|destruct H as [e He]; congruence].
  rewrite H in Hrun. injection Hrun as <- _. cbn [cortinas stamped].
  assert (Hperm : splice_insert m (mjoin (cortinas playlist !! sc)) (delete sc (cortinas playlist))
                  ≡ₚ (if decide (sc < length (cortinas playlist)) then cortinas playlist
                      else None :: cortinas playlist)).
  { rewrite splice_insert_Permutation. case_decide as Hsc.
    - destruct (lookup_lt_is_Some_2 _ _ Hsc) as [c Hc]. rewrite Hc. cbn.
      symmetry. by apply delete_Permutation.
    - rewrite (proj2 (lookup_ge_None (cortinas playlist) sc)) by lia. cbn.
      by rewrite delete_beyond by lia. }
  split; [exact Hperm|]. split.
  - rewrite Hperm. by case_decide.
  - intros Hnil. subst sc. rewrite Hnil. cbn [length].
    pose proof (relativeStart_le 0 n) as H0. apply Nat.le_0_r in H0. rewrite H0.
    unfold splice_insert. cbn [delete list_delete length lookup list_lookup mjoin option_join].
    pose proof (relativeStart_le 0 m) as H1. apply Nat.le_0_r in H1. by rewrite H1.
Qed.

Lemma postMoveTanda_cortina_slots_witness :
  exists updated,
    postMoveTanda sampleClock "playlist-1714500000000"
      (moveRequest (int 1) (int 3)) storedDisk
    = Ret ({| status := 200; body := PlaylistBody updated |},
           writePlaylist updated storedDisk) /\
    length (cortinas updated) = 6.
Proof.
  eexists. split.
  - exact (postMoveTanda_numbers sampleClock "playlist-1714500000000"
             (moveRequest (int 1) (int 3)) storedDisk samplePlaylist
             (Finite (inject_Z 1)) (Finite (inject_Z 3)) eq_refl eq_refl eq_refl).
  - exact (proj1 (proj2 (postMoveTanda_cortina_slots sampleClock "playlist-1714500000000"
                           (moveRequest (int 1) (int 3)) storedDisk samplePlaylist _
                           (Finite (inject_Z 1)) (Finite (inject_Z 3)) _
                           eq_refl eq_refl eq_refl
                           (postMoveTanda_numbers sampleClock "playlist-1714500000000"
                              (moveRequest (int 1) (int 3)) storedDisk samplePlaylist
                              (Finite (inject_Z 1)) (Finite (inject_Z 3))
                              eq_refl eq_refl eq_refl)))).
Defined.

Lemma moved_inverse {A} i j (x : A) l :
  l !! i = Some x -> j < length l -> moved j i x (moved i j x l) = l.
Proof.
  intros Hi Hj.
  assert (Hd : length (delete i l) = length l - 1)
    by (rewrite length_delete; [done | by eexists]).
  assert (Hdel : delete j (moved i j x l) = delete i l).
  { unfold moved.
    replace j with (length (take j (delete i l))) at 1 by (rewrite length_take; lia).
    by rewrite delete_middle, take_drop. }
  unfold moved at 1. rewrite Hdel. by apply moved_same.
Qed.

Lemma moved_length {A} i j (x : A) l :
  l !! i = Some x -> length (moved i j x l) = length l.
Proof. intros Hi. by rewrite (moved_Permutation _ _ _ _ Hi). Qed.

(** X15.  Moving a slot from [i] to [j] and then, in a second request,
    from [j] back to [i] restores the stored tandas and cortinas: after
    the two calls the document differs from the original one in
    [updatedAt] only. *)
Theorem postMoveTanda_there_and_back clock1 clock2 disk (playlist : Playlist) n m i j :
  readPlaylist (playlistId playlist) disk = Some playlist ->
  numberIs n i -> numberIs m j ->
  i < length (tandas playlist) -> j < length (tandas playlist) ->
  i < length (cortinas playlist) -> j < length (cortinas playlist) ->
  exists once twice,
    postMoveTanda clock1 (playlistId playlist) (moveRequest (JNum n) (JNum m)) disk
    = Ret ({| status := 200; body := PlaylistBody once |}, writePlaylist once disk) /\
    postMoveTanda clock2 (playlistId playlist) (moveRequest (JNum m) (JNum n))
      (writePlaylist once disk)
    = Ret ({| status := 200; body := PlaylistBody twice |},
           writePlaylist twice (writePlaylist once disk)) /\
    twice = stamped (nowIso clock2) playlist (tandas playlist) (cortinas playlist).
Proof.
  intros Hread Hn Hm Hit Hjt Hic Hjc.
  destruct (lookup_lt_is_Some_2 _ _ Hit) as [t Ht].
  destruct (lookup_lt_is_Some_2 _ _ Hic) as [c Hc].
  set (once := stamped (nowIso clock1) playlist
                 (moved i j t (tandas playlist)) (moved i j c (cortinas playlist))).
  assert (H1 : postMoveTanda clock1 (playlistId playlist) (moveRequest (JNum n) (JNum m)) disk
               = Ret ({| status := 200; body := PlaylistBody once |}, writePlaylist once disk)).
  { by apply (postMoveTanda_moved clock1 _ _ disk playlist n m i j t c). }
  assert (Hread1 : readPlaylist (playlistId playlist) (writePlaylist once disk) = Some once).
  { apply (writePlaylist_read once disk). }
  exists once. eexists. split; [exact H1|]. split.
  - apply (postMoveTanda_moved clock2 _ _ _ once m n j i t c); try done;
      cbn [tandas cortinas once stamped];
      rewrite ?moved_length by done; try done.
    + by apply moved_lookup.
    + by apply moved_lookup.
  - cbn [tandas cortinas once stamped]. by rewrite !moved_inverse.
Qed.

Lemma postMoveTanda_there_and_back_witness :
  exists once twice,
    postMoveTanda sampleClock (playlistId samplePlaylist) (moveRequest (int 0) (int 5)) storedDisk
    = Ret ({| status := 200; body := PlaylistBody once |}, writePlaylist once storedDisk) /\
    postMoveTanda sampleClock (playlistId samplePlaylist) (moveRequest (int 5) (int 0))
      (writePlaylist once storedDisk)
    = Ret ({| status := 200; body := PlaylistBody twice |},
           writePlaylist twice (writePlaylist once storedDisk)) /\
    twice = stamped (nowIso sampleClock) samplePlaylist (tandas samplePlaylist)
              (cortinas samplePlaylist).
Proof.
  apply (postMoveTanda_there_and_back sampleClock sampleClock storedDisk samplePlaylist
           (Finite (inject_Z 0)) (Finite (inject_Z 5)) 0 5);
    try reflexivity; cbn; lia.
Defined.

(** ** Replace-track, whatever the indices *)

Lemma assignAt_lookup {A} n (x : option A) arr :
  length (assignAt n x arr) = max (length arr) (S n) /\
  assignAt n x arr !! n = Some x /\
  (forall k, k < length arr -> k <> n -> assignAt n x arr !! k = arr !! k) /\
  (forall k, length arr <= k < n -> assignAt n x arr !! k = Some None).
Proof.
  unfold assignAt. destruct (Nat.ltb_spec n (length arr)) as [Hlt|Hge].
  - split; [rewrite length_insert; lia|].
    split; [by apply list_lookup_insert_eq|].
    split; [intros k _ Hk; by apply list_lookup_insert_ne|].
    intros k Hk. lia.
  - split; [rewrite !length_app, length_replicate; cbn; lia|].
    split.
    { rewrite lookup_app_r by lia. rewrite lookup_app_r by (rewrite length_replicate; lia).
      rewrite length_replicate. by replace (n - length arr - (n - length arr)) with 0 by lia. }
    split.
    { intros k Hk _. by rewrite lookup_app_l. }
    intros k Hk. rewrite lookup_app_r by lia. rewrite lookup_app_l by (rewrite length_replicate; lia).
    apply lookup_replicate_2. lia.
Qed.


(** Replace-track once the tanda is addressed and the track assigned:
    the document is written unless the tanda was lengthened beyond what
    the engine can write. *)
Lemma postReplaceTrack_assigned clock fits pid reqBody disk (playlist : Playlist)
    replacement a t trks :
  readPlaylist pid disk = Some playlist ->
  findTrack (field "replacementTrackId" reqBody) (libTracks (readLibrary disk))
  = Some replacement ->
  propertyKey (field "tandaIndex" reqBody) = KIndex a ->
  tandas playlist !! N.to_nat a = Some t ->
  assignTrack (field "trackIndex" reqBody) replacement (tracks t) = Ret trks ->
  let updated := stamped (nowIso clock) playlist
                   (<[N.to_nat a := withTracks t trks]> (tandas playlist))
                   (cortinas playlist) in
  postReplaceTrack clock fits pid reqBody disk
  = if (length (tracks t) <? length trks) && negb (fits updated)
    then Throw (RangeError "Invalid string length")
    else Ret ({| status := 200; body := PlaylistBody updated |}, writePlaylist updated disk).
Proof.
  intros Hread Hfind Ha Ht Htrks updated.
  rewrite (postReplaceTrack_found _ _ _ _ _ _ _ Hread Hfind).
  unfold assignInTanda. rewrite Ha, Ht, Htrks. cbn [bind]. cbv zeta.
  fold (withTracks t trks). fold updated. unfold stringifyGrown.
  pose proof (slots_insert (tandas playlist) (N.to_nat a) t (withTracks t trks) Ht) as Hs.
  cbn [withTracks tracks] in Hs.
  assert (Hsame : (slots (tandas playlist) <? slots (tandas updated))
                  = (length (tracks t) <? length trks)).
  { subst updated. cbn [stamped tandas].
    destruct (Nat.ltb_spec (slots (tandas playlist))
                (slots (<[N.to_nat a := withTracks t trks]> (tandas playlist))));
      destruct (Nat.ltb_spec (length (tracks t)) (length trks)); done || lia. }
  rewrite Hsame.
  by destruct ((length (tracks t) <? length trks) && negb (fits updated)).
Qed.

(** X16.  Replace-track with a [trackIndex] at or beyond the end of the
    addressed tanda lengthens the tanda to [trackIndex + 1] slots: the
    replacement is the last one, the tracks the tanda had stay where they
    were and the positions in between are [null], while the other tandas,
    the cortinas and the rest of the document are as before, [updatedAt]
    apart.  The request is answered 200 with this document when the
    engine can write it; when the text of the document is beyond the
    engine's bound on strings, as it is for large indices, the handler
    raises a RangeError and writes nothing. *)
Theorem postReplaceTrack_grows clock fits pid reqBody disk (playlist : Playlist)
    replacement a b t :
  readPlaylist pid disk = Some playlist ->
  findTrack (field "replacementTrackId" reqBody) (libTracks (readLibrary disk))
  = Some replacement ->
  propertyKey (field "tandaIndex" reqBody) = KIndex a ->
  propertyKey (field "trackIndex" reqBody) = KIndex b ->
  tandas playlist !! N.to_nat a = Some t ->
  length (tracks t) <= N.to_nat b ->
  let updated :=
    replacedAt (nowIso clock) playlist (N.to_nat a) (N.to_nat b) replacement t in
  postReplaceTrack clock fits pid reqBody disk
  = (if fits updated
     then Ret ({| status := 200; body := PlaylistBody updated |}, writePlaylist updated disk)
     else Throw (RangeError "Invalid string length")) /\
  updated = stamped (nowIso clock) playlist (tandas updated) (cortinas playlist) /\
  length (tandas updated) = length (tandas playlist) /\
  (forall k, k <> N.to_nat a -> tandas updated !! k = tandas playlist !! k) /\
  exists t',
    tandas updated !! N.to_nat a = Some t' /\
    tandaId t' = tandaId t /\ type t' = type t /\ reasoning t' = reasoning t /\
    length (tracks t') = S (N.to_nat b) /\
    tracks t' !! N.to_nat b = Some (Some replacement) /\
    (forall k, k < length (tracks t) -> tracks t' !! k = tracks t !! k) /\
    (forall k, length (tracks t) <= k < N.to_nat b -> tracks t' !! k = Some None).
Proof.
  intros Hread Hfind Ha Hb Ht Hge updated.
  pose proof (lookup_lt_Some _ _ _ Ht) as Hlen.
  destruct (assignAt_lookup (N.to_nat b) (Some replacement) (tracks t))
    as (Hl & Hat & Hbelow & Hgap).
  split.
  { rewrite (postReplaceTrack_assigned clock fits pid reqBody disk playlist replacement a t
               (assignAt (N.to_nat b) (Some replacement) (tracks t)) Hread Hfind Ha Ht)
      by (unfold assignTrack; by rewrite Hb).
    cbv zeta. subst updated. unfold replacedAt.
    destruct (Nat.ltb_spec (length (tracks t))
                (length (assignAt (N.to_nat b) (Some replacement) (tracks t)))); [|lia].
    cbn [andb]. by destruct (fits _). }
  subst updated. unfold replacedAt. cbn [stamped tandas cortinas].
  split; [done|].
  split; [by rewrite length_insert|].
  split; [intros k Hk; by apply list_lookup_insert_ne|].
  eexists. split; [by apply list_lookup_insert_eq|].
  cbn [withTracks tandaId type reasoning tracks].
  split; [done|]. split; [done|]. split; [done|].
  split; [lia|]. split; [done|]. split; [|done].
  intros k Hk. apply Hbelow; lia.
Qed.

Lemma postReplaceTrack_grows_witness :
  postReplaceTrack sampleClock tight "playlist-1714500000000"
    (replaceRequest (int 0) (int 6) (JStr "t5.mp3")) storedDisk
  = Ret ({| status := 200; body := PlaylistBody sampleLengthened |},
         writePlaylist sampleLengthened storedDisk) /\
  postReplaceTrack sampleClock tight "playlist-1714500000000"
    (replaceRequest (int 0) (int 2000) (JStr "t5.mp3")) storedDisk
  = Throw (RangeError "Invalid string length").
Proof.
  split.
  - rewrite (proj1 (postReplaceTrack_grows sampleClock tight "playlist-1714500000000"
                      (replaceRequest (int 0) (int 6) (JStr "t5.mp3")) storedDisk
                      samplePlaylist (sampleTrack "t5.mp3" "tango") 0%N 6%N
                      (sampleTanda "1" "tango" ["t1.mp3"; "t2.mp3"; "t3.mp3"; "t4.mp3"])
                      eq_refl eq_refl eq_refl eq_refl eq_refl
                      ltac:(vm_compute; lia))).
    vm_compute. reflexivity.
  - rewrite (proj1 (postReplaceTrack_grows sampleClock tight "playlist-1714500000000"
                      (replaceRequest (int 0) (int 2000) (JStr "t5.mp3")) storedDisk
                      samplePlaylist (sampleTrack "t5.mp3" "tango") 0%N 2000%N
                      (sampleTanda "1" "tango" ["t1.mp3"; "t2.mp3"; "t3.mp3"; "t4.mp3"])
                      eq_refl eq_refl eq_refl eq_refl eq_refl
                      ltac:(vm_compute; lia))).
    assert (Hno : tight (replacedAt (nowIso sampleClock) samplePlaylist (N.to_nat 0)
                           (N.to_nat 2000) (sampleTrack "t5.mp3" "tango")
                           (sampleTanda "1" "tango" ["t1.mp3"; "t2.mp3"; "t3.mp3"; "t4.mp3"]))
                  = false) by (vm_compute; reflexivity).
    by rewrite Hno.
Defined.





(** ** Stored playlists hold catalog tracks *)

Lemma findTrack_elem v (ts : list Track) t : findTrack v ts = Some t -> t ∈ ts.
Proof.
  unfold findTrack. intros H. apply List.find_some in H as [H _].
  by apply list_elem_of_In.
Qed.

Lemma resolveAll_in_catalog (ts : list Track) e v found :
  resolveAll (trackMapOf ts) e v = Ret found -> forall x, x ∈ found -> x ∈ ts.
Proof.
  intros H x Hx. destruct (truthy v) eqn:Ht.
  - destruct v as [[| | | |ids|]|];
      try (unfold resolveAll, orEmptyMap in H; rewrite Ht in H; discriminate).
    rewrite resolveAll_array in H. injection H as <-.
    apply list_elem_of_omap in Hx as (j & _ & Hj). by apply resolve_in_catalog in Hj.
  - rewrite (resolveAll_falsy _ _ _ Ht) in H. injection H as <-. by apply elem_of_nil in Hx.
Qed.

Lemma omap_id_Some {A} (l : list A) : omap (fun o : option A => o) (Some <$> l) = l.
Proof. induction l as [|a l IH]; csimpl; [done|]. by rewrite IH. Qed.

Lemma hydrateTanda_in_catalog (ts : list Track) i entry t :
  hydrateTanda (trackMapOf ts) i entry = Ret t -> forall x, x ∈ tracksOf t -> x ∈ ts.
Proof.
  unfold hydrateTanda. intros H x Hx.
  apply bind_Ret_inv in H as (ty & _ & H).
  apply bind_Ret_inv in H as (found & Hfound & [= <-]).
  unfold tracksOf in Hx. cbn [tracks] in Hx. rewrite omap_id_Some in Hx.
  apply (resolveAll_in_catalog _ _ _ _ Hfound).
  destruct (patternSizes !! i); cbn [slice0] in Hx; [|done].
  by apply (subseteq_take n found).
Qed.

Lemma hydratePlan_in_catalog plan library h :
  hydratePlan plan library = Ret h ->
  forall x, x ∈ playedTracks h -> x ∈ libTracks library.
Proof.
  unfold hydratePlan. intros H x Hx.
  apply bind_Ret_inv in H as (hts & Hts & H).
  apply bind_Ret_inv in H as (hcs & Hcs & [= <-]).
  unfold playedTracks in Hx. cbn [plan_tandas plan_cortinas] in Hx.
  apply elem_of_app in Hx as [Hx|Hx].
  - apply list_elem_of_bind in Hx as (t & Hx & Ht).
    unfold hydrateTandas in Hts. apply bind_Ret_inv in Hts as (v & _ & Hts).
    destruct v as [[| | | |items|]|]; try discriminate.
    apply mapMi_Ret in Hts as [Hlen Hall].
    apply list_elem_of_lookup in Ht as [i Hi].
    pose proof (lookup_lt_Some _ _ _ Hi) as Hlt. rewrite Hlen in Hlt.
    destruct (lookup_lt_is_Some_2 _ _ Hlt) as [entry Hentry].
    destruct (Hall i entry Hentry) as (t' & Ht' & Hrun).
    rewrite Hi in Ht'. injection Ht' as <-.
    by apply (hydrateTanda_in_catalog _ _ _ _ Hrun).
  - unfold hydrateCortinas in Hcs. apply bind_Ret_inv in Hcs as (found & Hfound & [= <-]).
    rewrite omap_id_Some in Hx.
    apply (resolveAll_in_catalog _ _ _ _ Hfound). by apply (subseteq_take 6 found).
Qed.

Lemma fallbackPlaylistPlan_in_catalog rng library plan :
  fallbackPlaylistPlan rng library = Ret plan ->
  forall x, x ∈ playedTracks plan -> x ∈ libTracks library.
Proof.
  intros Hrun x Hx. apply fallbackPlaylistPlan_Ret in Hrun as [_ ->].
  unfold planFrom, playedTracks in Hx.
  assert (Hpool : forall s track, track ∈ poolOf s (grouping library) ->
            track ∈ libTracks library)
    by (intros s track Ht; by apply poolOf_elem in Ht as [? _]).
  set (grouped := grouping library) in *.
  pose proof (fallbackTandas_from_pools rng grouped pattern ∅ 0 0) as Hpools.
  destruct (fallbackTandas rng grouped ∅ 0 0 pattern) as [[ts used] cur].
  cbn [fst plan_tandas plan_cortinas] in *.
  apply elem_of_app in Hx as [Hx|Hx].
  - apply list_elem_of_bind in Hx as (t & Hx & Ht).
    apply list_elem_of_lookup in Ht as [i Hi].
    destruct (Forall2_lookup_l _ _ _ _ _ Hpools Hi) as (slot & _ & Hslot).
    by apply (Hpool slot.1), Hslot.
  - apply list_elem_of_omap in Hx as (o & Ho & ->).
    apply list_elem_of_lookup in Ho as [i Hi].
    rewrite list_lookup_imap in Hi.
    destruct (ts !! i); [|discriminate]. cbn [fmap option_fmap option_map] in Hi.
    injection Hi as Hi.
    apply list_elem_of_lookup_2 in Hi. apply list_elem_of_filter in Hi as [_ Hi].
    rewrite shuffle_Permutation in Hi.
    subst grouped. cbn [grouping g_tango g_cortina] in Hi.
    destruct (length (filedUnder "cortina" (libTracks library)) =? 0);
      by apply list_elem_of_filter in Hi as [? ?].
Qed.

Lemma stored_from_catalog_write (u : Playlist) disk :
  stored_from_catalog disk ->
  (forall x, x ∈ playlistTracks u -> x ∈ libTracks (readLibrary disk)) ->
  stored_from_catalog (writePlaylist u disk).
Proof.
  intros Hinv Hu pid p t Hread Ht.
  change (readLibrary (writePlaylist u disk)) with (readLibrary disk).
  destruct (decide (pid = playlistId u)) as [->|Hne].
  - rewrite (proj1 (writePlaylist_read u disk)) in Hread. injection Hread as <-. by apply Hu.
  - rewrite (proj2 (proj2 (writePlaylist_read u disk)) pid Hne) in Hread.
    by apply (Hinv pid p t).
Qed.

Lemma splice_insert_elem {A} m (x y : A) (l : list A) :
  y ∈ splice_insert m x l -> y = x \/ y ∈ l.
Proof. rewrite splice_insert_Permutation. apply elem_of_cons. Qed.

Lemma delete_elem {A} (i : nat) (y : A) (l : list A) : y ∈ delete i l -> y ∈ l.
Proof. intros H. exact (elem_of_sublist _ _ _ H (sublist_delete l i)). Qed.

Lemma assignAt_elem {A} n (x : A) (arr : list (option A)) y :
  Some y ∈ assignAt n (Some x) arr -> y = x \/ Some y ∈ arr.
Proof.
  unfold assignAt. destruct (n <? length arr).
  - intros H. apply list_elem_of_lookup in H as [k Hk].
    destruct (decide (k = n)) as [->|Hne].
    + pose proof (lookup_lt_Some _ _ _ Hk) as Hlt. rewrite length_insert in Hlt.
      rewrite list_lookup_insert_eq in Hk by done. left. congruence.
    + rewrite list_lookup_insert_ne in Hk by done. right. by eapply list_elem_of_lookup_2.
  - intros H. apply elem_of_app in H as [H|H]; [by right|].
    apply elem_of_app in H as [H|H].
    + by apply elem_of_replicate in H as [? _].
    + apply list_elem_of_singleton in H. left. congruence.
Qed.

Lemma assignInTanda_elem tandaIndex trackIndex replacement (ts ts' : list Tanda) :
  assignInTanda tandaIndex trackIndex replacement ts = Ret ts' ->
  forall x, x ∈ ts' ≫= tracksOf -> x = replacement \/ x ∈ ts ≫= tracksOf.
Proof.
  unfold assignInTanda, assignTrack. intros H x Hx.
  destruct (propertyKey tandaIndex) as [a| |]; try discriminate.
  destruct (ts !! N.to_nat a) as [t|] eqn:Ht; [|discriminate].
  apply bind_Ret_inv in H as (trks & Htrks & [= <-]).
  apply list_elem_of_bind in Hx as (t' & Hx & Ht').
  apply list_elem_of_lookup in Ht' as [k Hk].
  destruct (decide (k = N.to_nat a)) as [->|Hne].
  - rewrite list_lookup_insert_eq in Hk by (by eapply lookup_lt_Some).
    injection Hk as <-. unfold tracksOf in Hx. cbn [tracks] in Hx.
    apply list_elem_of_omap in Hx as (o & Ho & ->).
    assert (Hor : x = replacement \/ Some x ∈ tracks t).
    { destruct (propertyKey trackIndex) as [b| |]; try discriminate; injection Htrks as <-.
      - by apply assignAt_elem in Ho.
      - by right. }
    destruct Hor as [?|Hin]; [by left|right].
    apply list_elem_of_bind. exists t. split; [|by eapply list_elem_of_lookup_2].
    apply list_elem_of_omap. by exists (Some x).
  - rewrite list_lookup_insert_ne in Hk by done. right.
    apply list_elem_of_bind. exists t'. split; [done|by eapply list_elem_of_lookup_2].
Qed.

Lemma postPlaylists_writes clock rng agent reqBody disk response disk' :
  postPlaylists clock rng agent reqBody disk = Ret (response, disk') ->
  disk' = disk \/
  exists u, disk' = writePlaylist u disk /\
            forall x, x ∈ playlistTracks u -> x ∈ libTracks (readLibrary disk).
Proof.
  intros H. destruct (decide (libTracks (readLibrary disk) = [])) as [He|Hne].
  - rewrite (postPlaylists_empty _ _ _ _ _ He) in H. left. congruence.
  - rewrite (postPlaylists_cases_debug _ _ _ _ _ Hne) in H. right.
    destruct (validCandidate agent) as [p|].
    + apply bind_Ret_inv in H as (h & Hh & H). unfold created in H. injection H as _ <-.
      eexists. split; [done|]. apply (hydratePlan_in_catalog _ _ _ Hh).
    + apply bind_Ret_inv in H as (h & Hh & H). unfold created in H. injection H as _ <-.
      eexists. split; [done|]. apply (fallbackPlaylistPlan_in_catalog _ _ _ Hh).
Qed.

Lemma postMoveTanda_writes clock pid reqBody disk response disk' :
  postMoveTanda clock pid reqBody disk = Ret (response, disk') ->
  disk' = disk \/
  exists p u, readPlaylist pid disk = Some p /\ disk' = writePlaylist u disk /\
              forall x, x ∈ playlistTracks u -> x ∈ playlistTracks p.
Proof.
  intros H. destruct (readPlaylist pid disk) as [p|] eqn:Hread;
    [|unfold postMoveTanda in H; rewrite Hread in H; left; congruence].
  destruct (field "fromIndex" reqBody) as [[| |n| | |]|] eqn:Hn;
    try (unfold postMoveTanda in H; rewrite Hread, Hn in H; left; cbn in H; congruence).
  destruct (field "toIndex" reqBody) as [[| |m| | |]|] eqn:Hm;
    try (unfold postMoveTanda in H; rewrite Hread, Hn, Hm in H; left; cbn in H; congruence).
  pose proof (postMoveTanda_numbers clock pid reqBody disk p n m Hread Hn Hm) as Hrun.
  cbv zeta in Hrun.
  destruct (tandas p !! relativeStart (length (tandas p)) n) as [t|] eqn:Ht.
  - rewrite Hrun in H. injection H as _ <-. right. eexists p, _.
    split; [done|]. split; [done|].
    intros x Hx. unfold playlistTracks in *. cbn [stamped tandas cortinas] in Hx.
    apply elem_of_app in Hx as [Hx|Hx]; apply elem_of_app; [left|right].
    + apply list_elem_of_bind in Hx as (t' & Hx & Ht').
      apply list_elem_of_bind. exists t'. split; [done|].
      apply splice_insert_elem in Ht' as [->|Ht'];
        [by eapply list_elem_of_lookup_2 | by eapply delete_elem].
    + apply list_elem_of_omap in Hx as (o & Ho & ->).
      apply list_elem_of_omap. exists (Some x). split; [|done].
      apply splice_insert_elem in Ho as [Ho|Ho]; [|by eapply delete_elem].
      destruct (cortinas p !! relativeStart (length (cortinas p)) n) as [c|] eqn:Hc;
        [|discriminate].
      cbn in Ho. subst c. by eapply list_elem_of_lookup_2.
  - destruct Hrun as [e He]. congruence.
Qed.

Lemma postReplaceTrack_writes clock fits pid reqBody disk response disk' :
  postReplaceTrack clock fits pid reqBody disk = Ret (response, disk') ->
  disk' = disk \/
  exists p u replacement,
    readPlaylist pid disk = Some p /\ disk' = writePlaylist u disk /\
    replacement ∈ libTracks (readLibrary disk) /\
    forall x, x ∈ playlistTracks u -> x = replacement \/ x ∈ playlistTracks p.
Proof.
  intros H. destruct (readPlaylist pid disk) as [p|] eqn:Hread;
    [|unfold postReplaceTrack in H; rewrite Hread in H; left; congruence].
  destruct (findTrack (field "replacementTrackId" reqBody) (libTracks (readLibrary disk)))
    as [replacement|] eqn:Hfind;
    [|unfold postReplaceTrack in H; rewrite Hread, Hfind in H; left; congruence].
  rewrite (postReplaceTrack_found _ _ _ _ _ _ _ Hread Hfind) in H.
  apply bind_Ret_inv in H as (ts & Hts & H). cbv zeta in H.
  apply bind_Ret_inv in H as (u & _ & H). injection H as _ <-.
  right. eexists p, _, replacement. split; [done|]. split; [done|].
  split; [by eapply findTrack_elem|].
  intros x Hx. unfold playlistTracks in *. cbn [stamped tandas cortinas] in Hx.
  apply elem_of_app in Hx as [Hx|Hx].
  - destruct (assignInTanda_elem _ _ _ _ _ Hts x Hx) as [?|?]; [by left|right].
    apply elem_of_app. by left.
  - right. apply elem_of_app. by right.
Qed.

(** X19.  Creating a playlist, moving a tanda and replacing a track leave
    the library file alone and keep the stored playlists within the
    catalog: if every track of every stored playlist is a track of the
    library, the same holds of the disk after any of these requests was
    answered, whatever the request said. *)
Theorem handlers_keep_catalog_tracks disk :
  stored_from_catalog disk ->
  (forall clock rng agent reqBody response disk',
     postPlaylists clock rng agent reqBody disk = Ret (response, disk') ->
     readLibrary disk' = readLibrary disk /\ stored_from_catalog disk') /\
  (forall clock pid reqBody response disk',
     postMoveTanda clock pid reqBody disk = Ret (response, disk') ->
     readLibrary disk' = readLibrary disk /\ stored_from_catalog disk') /\
  (forall clock fits pid reqBody response disk',
     postReplaceTrack clock fits pid reqBody disk = Ret (response, disk') ->
     readLibrary disk' = readLibrary disk /\ stored_from_catalog disk').
Proof.
  intros Hinv. split; [|split].
  - intros clock rng agent reqBody response disk' H.
    destruct (postPlaylists_writes _ _ _ _ _ _ _ H) as [->|(u & -> & Hu)]; [done|].
    split; [done|]. by apply stored_from_catalog_write.
  - intros clock pid reqBody response disk' H.
    destruct (postMoveTanda_writes _ _ _ _ _ _ H) as [->|(p & u & Hp & -> & Hu)]; [done|].
    split; [done|].
    apply stored_from_catalog_write; [done|]. intros x Hx. apply (Hinv pid p x Hp). by apply Hu.
  - intros clock fits pid reqBody response disk' H.
    destruct (postReplaceTrack_writes _ _ _ _ _ _ _ H)
      as [->|(p & u & r & Hp & -> & Hr & Hu)]; [done|].
    split; [done|].
    apply stored_from_catalog_write; [done|]. intros x Hx.
    destruct (Hu x Hx) as [->|Hold]; [done|]. by apply (Hinv pid p x Hp).
Qed.

Lemma storedDisk_from_catalog : stored_from_catalog storedDisk.
Proof.
  intros pid p t Hread Ht. unfold readPlaylist, storedDisk in Hread.
  cbn [playlistFiles] in Hread. apply lookup_singleton_Some in Hread as [_ <-].
  revert t Ht. apply Forall_forall.
  apply (bool_decide_unpack _). vm_compute. exact I.
Qed.

Lemma handlers_keep_catalog_tracks_witness :
  stored_from_catalog storedDisk /\
  stored_from_catalog (writePlaylist sampleLastFirst storedDisk).
Proof.
  split; [exact storedDisk_from_catalog|].
  destruct (handlers_keep_catalog_tracks storedDisk storedDisk_from_catalog) as (_ & Hmove & _).
  apply (Hmove sampleClock "playlist-1714500000000" (moveRequest (int 5) (int 0))
           {| status := 200; body := PlaylistBody sampleLastFirst |}).
  vm_compute. reflexivity.
Defined.

(** ** Stored tracks can be played *)

Lemma getAudio_head r disk :
  getAudio r disk
  = match head (withId r (libTracks (readLibrary disk))) with
    | Some track => SendFile (sourcePath track)
    | None => AudioError 404 "Track not found"
    end.
Proof. unfold getAudio. by rewrite findTrack_head. Qed.

(** X20.  [GET /api/audio/:trackId] answers 404 exactly for the ids that
    no catalog track carries, and otherwise sends the file of a catalog
    track with that id.  Hence, when the catalog ids are distinct and the
    stored playlists hold catalog tracks, every track of every stored
    playlist can be played: requesting its id sends its own
    [sourcePath]. *)
Theorem stored_tracks_playable disk :
  (forall r, getAudio r disk = AudioError 404 "Track not found" <->
             r ∉ id <$> libTracks (readLibrary disk)) /\
  (forall r, r ∈ id <$> libTracks (readLibrary disk) ->
     exists track, track ∈ libTracks (readLibrary disk) /\ id track = r /\
                   getAudio r disk = SendFile (sourcePath track)) /\
  (NoDup (id <$> libTracks (readLibrary disk)) ->
   stored_from_catalog disk ->
   forall pid p t,
     readPlaylist pid disk = Some p -> t ∈ playlistTracks p ->
     getAudio (id t) disk = SendFile (sourcePath t)).
Proof.
  assert (Hfound : forall r, r ∈ id <$> libTracks (readLibrary disk) ->
            exists track, track ∈ libTracks (readLibrary disk) /\ id track = r /\
                          getAudio r disk = SendFile (sourcePath track)).
  { intros r Hr. destruct (findTrack_Some r _ Hr) as (track & Hfind & Hid & Hin).
    exists track. repeat split; try done. unfold getAudio. by rewrite Hfind. }
  split; [|split; [exact Hfound|]].
  - intros r. split.
    + intros H404 Hr. destruct (Hfound r Hr) as (track & _ & _ & Hsend). congruence.
    + intros Hr. rewrite getAudio_head. by rewrite (withId_absent _ _ Hr).
  - intros Hnd Hinv pid p t Hread Ht.
    rewrite getAudio_head. by rewrite (withId_NoDup _ t Hnd (Hinv pid p t Hread Ht)).
Qed.

Lemma stored_tracks_playable_witness :
  getAudio "t1.mp3" storedDisk = SendFile "/music/t1.mp3".
Proof.
  apply (proj2 (proj2 (stored_tracks_playable storedDisk))) with
    (pid := "playlist-1714500000000") (p := samplePlaylist)
    (t := sampleTrack "t1.mp3" "tango").
  - apply (bool_decide_unpack _). vm_compute. exact I.
  - exact storedDisk_from_catalog.
  - reflexivity.
  - apply (bool_decide_unpack _). vm_compute. exact I.
Defined.

(** ** Loading [.env] *)

Lemma dropPrefix_length p s r :
  dropPrefix p s = Some r -> String.length s = String.length p + String.length r.
Proof.
  revert s. induction p as [|a p IH]; intros s; cbn [dropPrefix].
  - by intros [= ->].
  - destruct s as [|b s]; [done|]. destruct (Ascii.eqb a b); [|done].
    intros H. cbn [String.length]. by rewrite (IH s H).
Qed.

Lemma dropOne_shorter ws s r :
  Forall (fun w : string => w <> "") ws ->
  dropOne ws s = Some r -> String.length r < String.length s.
Proof.
  intros Hws H. unfold dropOne in H. apply head_Some_elem_of in H.
  apply list_elem_of_omap in H as (w & Hw & Hdrop).
  apply dropPrefix_length in Hdrop. rewrite Forall_forall in Hws.
  specialize (Hws w Hw). destruct w; [done|]. cbn [String.length] in Hdrop. lia.
Qed.

(** The loop of [dropAll] has fuel enough: nothing is left to strip. *)
Lemma dropAll_stripped ws fuel s :
  Forall (fun w : string => w <> "") ws ->
  String.length s <= fuel -> dropOne ws (dropAll ws fuel s) = None.
Proof.
  intros Hws. revert s. induction fuel as [|fuel IH]; intros s Hlen; cbn [dropAll].
  - destruct (dropOne ws s) as [r|] eqn:E; [|done].
    apply (dropOne_shorter _ _ _ Hws) in E. lia.
  - destruct (dropOne ws s) as [r|] eqn:E; [|done].
    apply IH. apply (dropOne_shorter _ _ _ Hws) in E. lia.
Qed.

Lemma trimStart_stripped s : dropOne whiteSpace (trimStart s) = None.
Proof.
  apply dropAll_stripped; [|done].
  apply (bool_decide_unpack _). vm_compute. exact I.
Qed.

Lemma loadLine_binding env rawLine :
  loadLine env rawLine
  = match binding rawLine with
    | Some (k, v) => if defined env k then env else <[k := v]> env
    | None => env
    end.
Proof.
  unfold loadLine, binding.
  destruct (String.eqb (trim rawLine) "" || startsWith HASH (trim rawLine)); [done|].
  destruct (indexOf EQUALS (trim rawLine)) as [[|i]|]; try done.
  destruct (String.eqb (trim (sliceTo (S i) (trim rawLine))) ""); cbn [orb]; done.
Qed.

Lemma firstBinding_cons k rawLine lines :
  firstBinding k (rawLine :: lines)
  = match binding rawLine with
    | Some (k', v) => if decide (k' = k) then Some v else firstBinding k lines
    | None => firstBinding k lines
    end.
Proof.
  unfold firstBinding. cbn [omap list_omap].
  destruct (binding rawLine) as [[k' v]|]; [|done].
  rewrite filter_cons. cbn [fst]. by case_decide.
Qed.

Lemma defined_spec (env : Env) k :
  defined env k = true <-> is_Some (env !! k) \/ k ∈ inheritedNames.
Proof.
  unfold defined. rewrite orb_true_iff, !bool_decide_eq_true. done.
Qed.

Lemma foldl_loadLine_lookup lines (env : Env) k :
  foldl loadLine env lines !! k
  = match env !! k with
    | Some v => Some v
    | None => if bool_decide (k ∈ inheritedNames) then None else firstBinding k lines
    end.
Proof.
  revert env. induction lines as [|rawLine lines IH]; intros env; cbn [foldl].
  - destruct (env !! k); [done|]. by case_bool_decide.
  - rewrite IH, firstBinding_cons, loadLine_binding.
    destruct (binding rawLine) as [[k' v]|]; [|done].
    destruct (defined env k') eqn:Hd.
    + destruct (decide (k' = k)) as [Hk|Hk]; [subst k'|done].
      apply defined_spec in Hd as [[x Hx]|Hin]; [by rewrite Hx|].
      rewrite (bool_decide_eq_true_2 _ Hin). by destruct (env !! k).
    + assert (Hnot : env !! k' = None /\ k' ∉ inheritedNames).
      { split.
        - apply eq_None_not_Some. intros Hs.
          assert (defined env k' = true) by (apply defined_spec; by left). congruence.
        - intros Hin.
          assert (defined env k' = true) by (apply defined_spec; by right). congruence. }
      destruct Hnot as [Hnone Hinh].
      destruct (decide (k' = k)) as [Hk|Hk].
      * subst k'. rewrite lookup_insert_eq, Hnone.
        by rewrite (bool_decide_eq_false_2 _ Hinh).
      * by rewrite lookup_insert_ne.
Qed.

Lemma loadLocalEnv_lookup_first file (env : Env) k :
  loadLocalEnv file env !! k
  = match env !! k with
    | Some v => Some v
    | None =>
        if bool_decide (k ∈ inheritedNames) then None
        else match file with
             | Some contents => firstBinding k (splitLines contents)
             | None => None
             end
    end.
Proof.
  destruct file as [contents|]; cbn [loadLocalEnv].
  - apply foldl_loadLine_lookup.
  - destruct (env !! k); [done|]. by case_bool_decide.
Qed.

(** X21.  What [loadLocalEnv] leaves in the environment: a variable that
    was set keeps its value, whatever the file says; a name inherited
    from [Object.prototype] is never set; any other name gets the value
    of the first line of the file that names it, later lines for the same
    name being ignored, and stays unset when no line names it or the file
    is missing. *)
Theorem loadLocalEnv_lookup file (env : Env) k :
  (forall v, env !! k = Some v -> loadLocalEnv file env !! k = Some v) /\
  (k ∈ inheritedNames -> loadLocalEnv file env !! k = env !! k) /\
  (env !! k = None -> k ∉ inheritedNames ->
   loadLocalEnv file env !! k
   = match file with
     | Some contents => firstBinding k (splitLines contents)
     | None => None
     end).
Proof.
  pose proof (loadLocalEnv_lookup_first file env k) as H.
  split; [|split].
  - intros v Hv. by rewrite H, Hv.
  - intros Hin. rewrite H, (bool_decide_eq_true_2 _ Hin). by destruct (env !! k).
  - intros Hnone Hnot. by rewrite H, Hnone, (bool_decide_eq_false_2 _ Hnot).
Qed.

Lemma loadLocalEnv_lookup_witness :
  loadLocalEnv (Some sampleEnvFile) {[ "PORT" := "3000" ]} !! "PORT" = Some "3000" /\
  loadLocalEnv (Some sampleEnvFile) {[ "PORT" := "3000" ]} !! "toString" = None /\
  loadLocalEnv (Some sampleEnvFile) {[ "PORT" := "3000" ]} !! "OPENAI_KEY" = Some "sk-file".
Proof.
  split; [|split].
  - apply (proj1 (loadLocalEnv_lookup (Some sampleEnvFile) {[ "PORT" := "3000" ]} "PORT")).
    reflexivity.
  - rewrite (proj1 (proj2 (loadLocalEnv_lookup (Some sampleEnvFile) {[ "PORT" := "3000" ]}
                             "toString"))); [reflexivity|].
    apply (bool_decide_unpack _). vm_compute. exact I.
  - rewrite (proj2 (proj2 (loadLocalEnv_lookup (Some sampleEnvFile) {[ "PORT" := "3000" ]}
                             "OPENAI_KEY"))); [reflexivity|reflexivity|].
    apply (bool_decide_unpack _). vm_compute. exact I.
Defined.

(** X22.  [loadLocalEnv] only adds variables, and loading the same file a
    second time changes nothing. *)
Theorem loadLocalEnv_idempotent file (env : Env) :
  env ⊆ loadLocalEnv file env /\
  loadLocalEnv file (loadLocalEnv file env) = loadLocalEnv file env.
Proof.
  split.
  - apply map_subseteq_spec. intros k v Hk.
    by rewrite loadLocalEnv_lookup_first, Hk.
  - apply map_eq. intros k.
    rewrite (loadLocalEnv_lookup_first file (loadLocalEnv file env)).
    destruct (loadLocalEnv file env !! k) as [v|] eqn:Hk; [done|].
    rewrite loadLocalEnv_lookup_first in Hk.
    destruct (env !! k); [done|]. exact Hk.
Qed.

(** ** The API key *)

Lemma trim_empty : trim "" = "".
Proof. reflexivity. Qed.

Lemma overrideText_override o :
  match o with
  | None => trim ""
  | Some (JStr s) => trim s
  | Some _ => ""
  end = overrideText o.
Proof. by destruct o as [[]|]. Qed.

Lemma resolveOpenAIApiKey_first o (env : Env) :
  resolveOpenAIApiKey o env
  = default "" (head (filter (fun s : string => s <> "")
                        (overrideText o :: omap (fun n => env !! n) keyNames))).
Proof.
  unfold resolveOpenAIApiKey. rewrite overrideText_override.
  rewrite filter_cons.
  destruct (String.eqb_spec (overrideText o) "") as [He|Hne]; cbn [negb].
  - rewrite decide_False by (by intros ?).
    unfold keyNames. cbn [omap list_omap].
    destruct (env !! "OPENAI_API_KEY") as [a|]; cbn [nonEmpty default].
    { rewrite filter_cons. destruct (String.eqb_spec a "") as [->|Ha]; cbn [negb].
      - rewrite decide_False by (by intros ?).
        destruct (env !! "OPENAI_KEY") as [b|]; cbn [nonEmpty default].
        { rewrite filter_cons. destruct (String.eqb_spec b "") as [->|Hb]; cbn [negb].
          - rewrite decide_False by (by intros ?).
            destruct (env !! "OPENAI_TOKEN") as [c|]; cbn [nonEmpty default]; [|done].
            rewrite filter_cons. destruct (String.eqb_spec c "") as [->|Hc]; cbn [negb].
            + by rewrite decide_False by (by intros ?).
            + by rewrite decide_True.
          - by rewrite decide_True. }
        destruct (env !! "OPENAI_TOKEN") as [c|]; cbn [nonEmpty default]; [|done].
        rewrite filter_cons. destruct (String.eqb_spec c "") as [->|Hc]; cbn [negb].
        + by rewrite decide_False by (by intros ?).
        + by rewrite decide_True.
      - by rewrite decide_True. }
    destruct (env !! "OPENAI_KEY") as [b|]; cbn [nonEmpty default].
    { rewrite filter_cons. destruct (String.eqb_spec b "") as [->|Hb]; cbn [negb].
      - rewrite decide_False by (by intros ?).
        destruct (env !! "OPENAI_TOKEN") as [c|]; cbn [nonEmpty default]; [|done].
        rewrite filter_cons. destruct (String.eqb_spec c "") as [->|Hc]; cbn [negb].
        + by rewrite decide_False by (by intros ?).
        + by rewrite decide_True.
      - by rewrite decide_True. }
    destruct (env !! "OPENAI_TOKEN") as [c|]; cbn [nonEmpty default]; [|done].
    rewrite filter_cons. destruct (String.eqb_spec c "") as [->|Hc]; cbn [negb].
    + by rewrite decide_False by (by intros ?).
    + by rewrite decide_True.
  - by rewrite decide_True.
Qed.

Lemma first_nonempty (l : list string) :
  let r := default "" (head (filter (fun s : string => s <> "") l)) in
  (r = "" <-> forall x, x ∈ l -> x = "") /\ (r <> "" -> r ∈ l).
Proof.
  induction l as [|s l [IH1 IH2]]; cbn zeta in *.
  - split; [split; [by intros _ x Hx%elem_of_nil | done] | done].
  - rewrite filter_cons. destruct (decide (s <> "")) as [Hs|Hs].
    + cbn [head default]. split.
      * split; [intros He; by destruct Hs|]. intros Hall. apply Hall, elem_of_cons. by left.
      * intros _. apply elem_of_cons. by left.
    + assert (s = "") as -> by (by destruct (decide (s = ""))). split.
      * rewrite IH1. split.
        -- intros Hall x [->|Hx]%elem_of_cons; [done|by apply Hall].
        -- intros Hall x Hx. apply Hall, elem_of_cons. by right.
      * intros Hr. apply elem_of_cons. right. by apply IH2.
Qed.

Lemma buildOpenAIClient_None o (env : Env) :
  buildOpenAIClient o env = None <->
  overrideText o = "" /\
  forall n, n ∈ keyNames -> env !! n = None \/ env !! n = Some "".
Proof.
  unfold buildOpenAIClient.
  destruct (first_nonempty (overrideText o :: omap (fun n => env !! n) keyNames)) as [Hiff _].
  cbn zeta in Hiff. rewrite <- resolveOpenAIApiKey_first in Hiff.
  destruct (String.eqb_spec (resolveOpenAIApiKey o env) "") as [He|Hne]; cbn [negb].
  - split; [intros _|done]. pose proof (proj1 Hiff He) as Hall. split.
    + apply Hall, elem_of_cons. by left.
    + intros n Hn. destruct (env !! n) as [v|] eqn:Hv; [right|by left].
      f_equal. apply Hall, elem_of_cons. right. apply list_elem_of_omap. by exists n.
  - split; [done|]. intros [Ho Hall]. exfalso. apply Hne, Hiff.
    intros x [->|Hx]%elem_of_cons; [done|].
    apply list_elem_of_omap in Hx as (n & Hn & Hv).
    destruct (Hall n Hn) as [Hnone|Hsome]; congruence.
Qed.

(** X23.  The key the OpenAI client is built with is the first non-empty
    text among the trimmed key of the request, [OPENAI_API_KEY],
    [OPENAI_KEY] and [OPENAI_TOKEN], in this order; a request key that is
    not a string or is blank counts as absent, while a variable is taken
    as it stands.  No client is built exactly when the request carries no
    usable key and each of the three variables is unset or empty. *)
Theorem buildOpenAIClient_precedence o (env : Env) :
  resolveOpenAIApiKey o env
  = default "" (head (filter (fun s : string => s <> "")
                        (overrideText o :: omap (fun n => env !! n) keyNames))) /\
  (buildOpenAIClient o env = None <->
   overrideText o = "" /\
   forall n, n ∈ keyNames -> env !! n = None \/ env !! n = Some "") /\
  (forall apiKey, buildOpenAIClient o env = Some apiKey ->
     apiKey <> "" /\
     (apiKey = overrideText o \/ exists n, n ∈ keyNames /\ env !! n = Some apiKey)).
Proof.
  split; [apply resolveOpenAIApiKey_first|]. split; [apply buildOpenAIClient_None|].
  intros apiKey. unfold buildOpenAIClient.
  destruct (String.eqb_spec (resolveOpenAIApiKey o env) "") as [He|Hne]; cbn [negb]; [done|].
  intros [= <-]. split; [done|].
  destruct (first_nonempty (overrideText o :: omap (fun n => env !! n) keyNames)) as [_ Hin].
  cbn zeta in Hin. rewrite <- resolveOpenAIApiKey_first in Hin.
  apply Hin in Hne as [?|Hx]%elem_of_cons; [by left|right].
  apply list_elem_of_omap in Hx as (n & Hn & Hv). by exists n.
Qed.

(** X24.  The process environment comes before [.env]: when it defines
    the three key variables, with whatever values, loading the file does
    not change the key the client is built with; and loading the file
    never takes a key away. *)
Theorem process_environment_first file (env : Env) o :
  ((forall n, n ∈ keyNames -> is_Some (env !! n)) ->
   resolveOpenAIApiKey o (loadLocalEnv file env) = resolveOpenAIApiKey o env) /\
  (buildOpenAIClient o (loadLocalEnv file env) = None -> buildOpenAIClient o env = None).
Proof.
  split.
  - intros Hset.
    assert (Hsame : forall n, n ∈ keyNames -> loadLocalEnv file env !! n = env !! n).
    { intros n Hn. rewrite loadLocalEnv_lookup_first.
      destruct (Hset n Hn) as [v ->]. done. }
    unfold resolveOpenAIApiKey.
    rewrite !Hsame by (unfold keyNames; set_solver). done.
  - rewrite !buildOpenAIClient_None. intros [Ho Hall]. split; [done|].
    intros n Hn. destruct (env !! n) as [v|] eqn:Hv; [right|by left].
    assert (Hl : loadLocalEnv file env !! n = Some v)
      by (by rewrite loadLocalEnv_lookup_first, Hv).
    destruct (Hall n Hn) as [?|?]; congruence.
Qed.

Lemma process_environment_first_witness :
  resolveOpenAIApiKey None
    (loadLocalEnv (Some sampleEnvFile)
       {[ "OPENAI_API_KEY" := ""; "OPENAI_KEY" := "sk-env"; "OPENAI_TOKEN" := "" ]})
  = "sk-env".
Proof.
  rewrite (proj1 (process_environment_first (Some sampleEnvFile)
                    {[ "OPENAI_API_KEY" := ""; "OPENAI_KEY" := "sk-env"; "OPENAI_TOKEN" := "" ]}
                    None)).
  - reflexivity.
  - intros n Hn. apply (bool_decide_unpack _).
    unfold keyNames in Hn. repeat (apply elem_of_cons in Hn as [->|Hn]; [vm_compute; exact I|]).
    by apply elem_of_nil in Hn.
Defined.

(** ** Style heuristics *)

Lemma toLowerCase_app a b : toLowerCase (a +:+ b) = toLowerCase a +:+ toLowerCase b.
Proof.
  induction a as [|c a IH]; [done|].
  change (String c a +:+ b) with (String c (a +:+ b)). cbn [toLowerCase]. by rewrite IH.
Qed.

Lemma indexOf_tail c x w : indexOf c (String x w) = None -> Ascii.eqb c x = false /\ indexOf c w = None.
Proof.
  cbn. destruct (Ascii.eqb c x); [done|]. destruct (indexOf c w); [done|]. by split.
Qed.

Lemma prefix_sep w a b :
  w <> "" -> indexOf SP w = None ->
  String.prefix w (a +:+ String SP b) = String.prefix w a.
Proof.
  revert w. induction a as [|x a IH]; intros w Hne Hsp.
  - destruct w as [|c w]; [done|]. apply indexOf_tail in Hsp as [Hc _].
    change ("" +:+ String SP b) with (String SP b). cbn [String.prefix].
    destruct (Ascii.ascii_dec c SP) as [->|?]; [|done].
    by rewrite Ascii.eqb_refl in Hc.
  - destruct w as [|c w]; [done|]. apply indexOf_tail in Hsp as [_ Hsp].
    change (String x a +:+ String SP b) with (String x (a +:+ String SP b)).
    cbn [String.prefix]. destruct (Ascii.ascii_dec c x); [|done].
    destruct w as [|c' w']; [by destruct a|]. by apply IH.
Qed.

Lemma includes_sep w a b :
  w <> "" -> indexOf SP w = None ->
  includes (a +:+ String SP b) w = includes a w || includes b w.
Proof.
  intros Hne Hsp. induction a as [|x a IH].
  - change ("" +:+ String SP b) with (String SP b). cbn [includes].
    change (String SP b) with ("" +:+ String SP b) at 1.
    rewrite (prefix_sep w "" b Hne Hsp). by rewrite orb_false_r.
  - change (String x a +:+ String SP b) with (String x (a +:+ String SP b)).
    cbn [includes]. rewrite IH.
    change (String x (a +:+ String SP b)) with (String x a +:+ String SP b).
    rewrite (prefix_sep w (String x a) b Hne Hsp). by rewrite orb_assoc.
Qed.

Lemma text_mentions genre title album w :
  w <> "" -> indexOf SP w = None ->
  includes (toLowerCase (genre +:+ " " +:+ title +:+ " " +:+ album)) w
  = mentions genre w || mentions title w || mentions album w.
Proof.
  intros Hne Hsp. unfold mentions.
  rewrite toLowerCase_app.
  change (toLowerCase (" " +:+ title +:+ " " +:+ album))
    with (String SP (toLowerCase (title +:+ " " +:+ album))).
  rewrite toLowerCase_app.
  change (toLowerCase (" " +:+ album)) with (String SP (toLowerCase album)).
  rewrite !includes_sep by done. by rewrite orb_assoc.
Qed.

Lemma guessStyleFromMetadata_cases genre title album :
  let s := guessStyleFromMetadata genre title album in
  s = "vals" \/ s = "milonga" \/ s = "cortina" \/ s = "tango".
Proof.
  unfold guessStyleFromMetadata. cbv zeta.
  repeat match goal with |- context [if ?b then _ else _] => destruct b end; tauto.
Qed.

(** X25.  [guessStyleFromMetadata] decides field by field, although it
    searches the three fields joined by spaces: a track is a vals when
    its genre, title or album mentions [vals] or [waltz] (in any case);
    otherwise a milonga when one of them mentions [milonga]; otherwise a
    cortina when one of them mentions [cortina]; otherwise a tango.  No
    word is found across two fields. *)
Theorem guessStyleFromMetadata_by_field genre title album :
  let anywhere w := mentions genre w || mentions title w || mentions album w in
  guessStyleFromMetadata genre title album
  = if anywhere "vals" || anywhere "waltz" then "vals"
    else if anywhere "milonga" then "milonga"
    else if anywhere "cortina" then "cortina"
    else "tango".
Proof.
  cbv zeta. unfold guessStyleFromMetadata. cbv zeta.
  by rewrite !text_mentions by done.
Qed.

Lemma filter_agree {A} (P Q : A -> Prop) `{!forall x, Decision (P x)}
    `{!forall x, Decision (Q x)} (l : list A) :
  (forall x, x ∈ l -> P x <-> Q x) -> filter P l = filter Q l.
Proof.
  induction l as [|a l IH]; intros Hall; [done|].
  rewrite !filter_cons.
  assert (Ha : P a <-> Q a) by (apply Hall, elem_of_cons; by left).
  rewrite IH by (intros x Hx; apply Hall, elem_of_cons; by right).
  destruct (decide (P a)), (decide (Q a)); tauto || done.
Qed.

(** X26.  A style guessed for a scanned file is one of the four names
    [groupByStyle] has a key for.  Hence, on a catalog whose styles were
    all guessed, [groupByStyle] returns its buckets, and no track is
    filed under [tango] for want of a key: each bucket holds exactly the
    tracks of its own style. *)
Theorem guessed_styles_have_buckets (library : Library) :
  (forall genre title album,
     bucketName (guessStyleFromMetadata genre title album)
     = guessStyleFromMetadata genre title album) /\
  ((forall t, t ∈ libTracks library ->
      exists genre title album, style t = guessStyleFromMetadata genre title album) ->
   exists grouped, groupByStyle library = Ret grouped /\
     forall k, k ∈ ["tango"; "vals"; "milonga"; "cortina"] ->
       poolOf k grouped = filter (fun t => style t = k) (libTracks library)).
Proof.
  assert (Hfix : forall genre title album,
            bucketName (guessStyleFromMetadata genre title album)
            = guessStyleFromMetadata genre title album).
  { intros genre title album.
    destruct (guessStyleFromMetadata_cases genre title album) as [H|[H|[H|H]]];
      cbv zeta in H; by rewrite H. }
  split; [exact Hfix|].
  intros Hall. exists (grouping library). split.
  - apply groupByStyle_groupable, Forall_forall. intros t Ht.
    destruct (Hall t Ht) as (genre & title & album & ->).
    apply own_key_not_inherited.
    destruct (guessStyleFromMetadata_cases genre title album) as [H|[H|[H|H]]];
      cbv zeta in H; rewrite H; tauto.
  - intros k Hk.
    assert (Hfiled : filedUnder k (libTracks library)
                     = filter (fun t => style t = k) (libTracks library)).
    { unfold filedUnder. apply filter_agree. intros t Ht.
      destruct (Hall t Ht) as (genre & title & album & ->). by rewrite Hfix. }
    rewrite <- Hfiled.
    repeat (apply elem_of_cons in Hk as [->|Hk]; [done|]). by apply elem_of_nil in Hk.
Qed.

Lemma guessed_styles_have_buckets_witness :
  exists grouped, groupByStyle sampleLibrary = Ret grouped /\
    poolOf "vals" grouped = filter (fun t => style t = "vals") (libTracks sampleLibrary).
Proof.
  destruct (proj2 (guessed_styles_have_buckets sampleLibrary)) as (grouped & Hrun & Hpool).
  - intros t Ht. exists (style t), "", "".
    unfold sampleLibrary in Ht. cbn [libTracks] in Ht.
    repeat (apply elem_of_cons in Ht as [->|Ht]; [reflexivity|]).
    by apply elem_of_nil in Ht.
  - exists grouped. split; [exact Hrun|].
    apply Hpool. apply (bool_decide_unpack _). vm_compute. exact I.
Defined.
